(** * tail-f: the log tailing server of [app.js]

    A shallow embedding of the Node.js program [src/app.js]: the reverse
    line reader [getLastNLines], the incremental reader [getNewLines], the
    debounced [fs.watch] handler, the WebSocket connection handler and the
    initial [stat].

    Conventions of the embedding.
    - A file is a list of bytes; a JavaScript string is the list of its
      UTF-16 code units, each an [N].  [Buffer.toString('utf-8')] and the
      read stream decode bytes to strings with the UTF-8 decoder below.
    - Sizes and positions are JavaScript numbers that only ever hold
      natural numbers here, so they are [nat]; they count bytes.
    - The program is modelled twice.  [getLastNLines], [getNewLines],
      [debounceCallback] and [onConnection] describe a call that nothing
      interrupts: nothing else happens to the file between the [open] and
      the [close] of one call, or between the [stat] and the read of one
      debounce callback.  The part "The server, one callback at a time"
      suspends a callback at every [await] and at every [fs] callback, so
      that writes, notifications and other callbacks come in between; the
      properties that depend on what happens in between are stated there,
      and [check_undisturbed] and [catch_up_undisturbed] link the two. *)

From Stdlib Require Import Strings.String Strings.Byte.
From Stdlib Require Import List Arith NArith Lia Bool.
Import ListNotations.

Set Implicit Arguments.

(* ================================================================== *)
(** * JavaScript built-ins used by the program *)
(* ================================================================== *)

Module Js.

Definition text := list N.

(** The newline character ['\n']. *)
Definition LF : N := 10%N.

(** The replacement character U+FFFD. *)
Definition REPLACEMENT : N := 65533%N.

(** A string literal of the source (ASCII) as text. *)
Definition lit (s : string) : text := map Byte.to_N (list_byte_of_string s).

(** [s.split('\n')]: every newline ends a fragment; the result is never
    empty, [''.split('\n')] is [['']]. *)
Fixpoint split (s : text) : list text :=
  match s with
  | [] => [[]]
  | c :: s' =>
      if N.eqb c LF then [] :: split s'
      else match split s' with
           | [] => [[c]]
           | h :: t => (c :: h) :: t
           end
  end.

Definition between (low high c : N) : bool :=
  N.leb low c && N.leb c high.

(** White space and line terminators of ECMAScript: TAB, LF, VT, FF, CR,
    SPACE, NBSP, U+1680, U+2000 to U+200A, LS, PS, U+202F, U+205F, U+3000
    and U+FEFF. *)
Definition isWhiteSpace (c : N) : bool :=
  between 9 13 c || N.eqb c 32 || N.eqb c 160 || N.eqb c 5760
  || between 8192 8202 c || N.eqb c 8232 || N.eqb c 8233 || N.eqb c 8239
  || N.eqb c 8287 || N.eqb c 12288 || N.eqb c 65279.

Fixpoint trimStart (s : text) : text :=
  match s with
  | [] => []
  | c :: s' => if isWhiteSpace c then trimStart s' else s
  end.

Definition trimEnd (s : text) : text := rev (trimStart (rev s)).

(** [s.trim()] *)
Definition trim (s : text) : text := trimEnd (trimStart s).

(** Truthiness of a string: the empty string is the only falsy one. *)
Definition truthy (s : text) : bool :=
  match s with
  | [] => false
  | _ :: _ => true
  end.

(** [arr.slice(-n)] for an integer [n >= 0].  [-0] is [0], so
    [arr.slice(-0)] is [arr.slice(0)], the whole array; for [n > 0] the
    start index is [max(arr.length - n, 0)]. *)
Definition sliceFromEnd {A : Type} (n : nat) (arr : list A) : list A :=
  match n with
  | 0 => arr
  | S _ => skipn (length arr - n) arr
  end.

(** [arr.shift()]: the removed first element ([undefined] on an empty
    array, here [None]) and the array that remains. *)
Definition shift {A : Type} (arr : list A) : option A * list A :=
  match arr with
  | [] => (None, [])
  | x :: rest => (Some x, rest)
  end.

(** ** UTF-8 decoding

    The decoder of [Buffer.toString('utf-8')] and of a read stream with
    [encoding: 'utf-8']: a byte that cannot continue or begin a sequence,
    and a sequence cut short, each give one U+FFFD. *)

(** The decoder between two bytes: how many continuation bytes the
    current sequence still needs, the code point gathered so far, and the
    range the next byte must lie in. *)
Record Utf8State : Type := mkUtf8 {
  needed : nat;
  codePoint : N;
  lower : N;
  upper : N
}.

Definition utf8Start : Utf8State := mkUtf8 0 0 128 191.

(** The UTF-16 code units of a code point. *)
Definition codeUnits (cp : N) : list N :=
  if N.ltb cp 65536 then [cp]
  else [(55296 + (cp - 65536) / 1024)%N; (56320 + (cp - 65536) mod 1024)%N].

(** A byte met outside a sequence. *)
Definition leadByte (b : N) : list N * Utf8State :=
  if N.leb b 127 then ([b], utf8Start)
  else if between 194 223 b then ([], mkUtf8 1 (N.land b 31) 128 191)
  else if between 224 239 b then
    ([], mkUtf8 2 (N.land b 15)
           (if N.eqb b 224 then 160%N else 128%N)
           (if N.eqb b 237 then 159%N else 191%N))
  else if between 240 244 b then
    ([], mkUtf8 3 (N.land b 7)
           (if N.eqb b 240 then 144%N else 128%N)
           (if N.eqb b 244 then 143%N else 191%N))
  else ([REPLACEMENT], utf8Start).

Definition utf8Step (st : Utf8State) (b : N) : list N * Utf8State :=
  match needed st with
  | 0 => leadByte b
  | S rest =>
      if between (lower st) (upper st) b then
        let cp := N.lor (N.shiftl (codePoint st) 6) (N.land b 63) in
        match rest with
        | 0 => (codeUnits cp, utf8Start)
        | S _ => ([], mkUtf8 rest cp 128 191)
        end
      else
        (* the sequence is cut short: U+FFFD, and the byte is taken up
           again as the first of a new sequence *)
        let (out, st') := leadByte b in (REPLACEMENT :: out, st')
  end.

Fixpoint utf8Decode (st : Utf8State) (bytes : list byte) : text :=
  match bytes with
  | [] =>
      match needed st with
      | 0 => []
      | S _ => [REPLACEMENT]
      end
  | b :: rest =>
      let (out, st') := utf8Step st (Byte.to_N b) in
      out ++ utf8Decode st' rest
  end.

(** The text of a whole byte sequence. *)
Definition utf8 (bytes : list byte) : text := utf8Decode utf8Start bytes.

(** [Buffer.alloc(size)]: a zero-filled buffer. *)
Definition Buffer_alloc (size : nat) : list byte := repeat x00 size.

(** [buffer.toString('utf-8', 0, end)] *)
Definition Buffer_toString (buffer : list byte) (end_ : nat) : text :=
  utf8 (firstn end_ buffer).

(** The state a promise ends in.  [Pending] is a promise that never
    settles; the embedding produces it only when a loop runs out of
    fuel. *)
Inductive Settled (A E : Type) : Type :=
| Resolved (value : A)
| Rejected (reason : E)
| Pending.
Arguments Resolved {A E} value.
Arguments Rejected {A E} reason.
Arguments Pending {A E}.

End Js.
Import Js.

(* ================================================================== *)
(** * The file system seen through Node's [fs] module *)
(* ================================================================== *)

Module Fs.

Definition path := string.

Inductive Errno : Type := ENOENT | EACCES | EBADF.

(** A file: its bytes, and whether this process may open it for reading
    (a file that is locked or whose permissions forbid reading can still
    be [stat]ed). *)
Record File : Type := mkFile {
  content : list byte;
  readable : bool
}.

(** The files ([None]: no such file) and the table of open descriptors
    with the path each one was opened on. *)
Record World : Type := mkWorld {
  files : path -> option File;
  openFds : list (nat * path)
}.

(** A computation with effects on the world. *)
Definition IO (A : Type) : Type := World -> A * World.

Definition ret {A : Type} (a : A) : IO A := fun w => (a, w).

Definition bind {A B : Type} (c : IO A) (k : A -> IO B) : IO B :=
  fun w => let (a, w') := c w in k a w'.

Definition lookupFd (fd : nat) (w : World) : option path :=
  option_map snd (find (fun e => Nat.eqb (fst e) fd) (openFds w)).

(** A descriptor that is not in use. *)
Definition freshFd (w : World) : nat := S (list_max (map fst (openFds w))).

(** [fs.open(filePath, 'r', cb)] *)
Definition fs_open (filePath : path) : IO (Errno + nat) := fun w =>
  match files w filePath with
  | None => (inl ENOENT, w)
  | Some f =>
      if readable f then
        let fd := freshFd w in
        (inr fd, mkWorld (files w) ((fd, filePath) :: openFds w))
      else (inl EACCES, w)
  end.

(** [fs.fstat(fd, cb)]: only [stats.size] is used. *)
Definition fs_fstat (fd : nat) : IO (Errno + nat) := fun w =>
  match lookupFd fd w with
  | None => (inl EBADF, w)
  | Some p =>
      match files w p with
      | None => (inl ENOENT, w)
      | Some f => (inr (length (content f)), w)
      end
  end.

(** [fs.read(fd, buffer, 0, length, position, cb)]: copies the bytes
    [position, position + length) of the file that exist to the start of
    the buffer; yields [bytesRead] and the buffer as it is afterwards. *)
Definition fs_read (fd : nat) (buffer : list byte) (length_ position : nat)
  : IO (Errno + nat * list byte) := fun w =>
  match lookupFd fd w with
  | None => (inl EBADF, w)
  | Some p =>
      match files w p with
      | None => (inl ENOENT, w)
      | Some f =>
          let bytes := firstn length_ (skipn position (content f)) in
          let bytesRead := length bytes in
          (inr (bytesRead, bytes ++ skipn bytesRead buffer), w)
      end
  end.

(** [fs.close(fd, () => {})] *)
Definition fs_close (fd : nat) : IO unit := fun w =>
  (tt, mkWorld (files w)
         (filter (fun e => negb (Nat.eqb (fst e) fd)) (openFds w))).

(** [fs.promises.stat(filePath)]: only [stats.size] is used. *)
Definition fs_promises_stat (filePath : path) (w : World) : Errno + nat :=
  match files w filePath with
  | None => inl ENOENT
  | Some f => inr (length (content f))
  end.

(** What an external writer does to a file. *)
Definition writeFile (filePath : path) (file : option File) (w : World)
  : World :=
  mkWorld (fun p => if String.eqb p filePath then file else files w p)
          (openFds w).

End Fs.
Import Fs.

Notation "x <- c ;; k" := (bind c (fun x => k))
  (at level 61, c at next level, right associativity).
Notation "c ;;; k" := (bind c (fun _ => k))
  (at level 61, right associativity).

(* ================================================================== *)
(** * The two readers of [app.js] *)
(* ================================================================== *)

Definition bufferSize : nat := 1024.

(** [readChunk], the helper nested in [getLastNLines].  The variables it
    closes over ([position], [leftover], [lines], [buffer]) are arguments.
    [fuel] bounds the number of reads; [getLastNLines] passes enough. *)
Fixpoint readChunk (fuel : nat) (fd n : nat) (buffer : list byte)
    (position : nat) (leftover : text) (lines : list text)
    : IO (Settled (list text) Errno) :=
  match fuel with
  | 0 => ret Pending
  | S fuel' =>
      let bytesToRead := Nat.min position bufferSize in
      let start := position - bytesToRead in
      if bytesToRead <=? 0 then
        let lines := if truthy leftover then leftover :: lines else lines in
        fs_close fd ;;;
        ret (Resolved (sliceFromEnd n lines))
      else
        r <- fs_read fd buffer bytesToRead start ;;
        match r with
        | inl err => fs_close fd ;;; ret (Rejected err)
        | inr (bytesRead, buffer) =>
            let position := position - bytesRead in
            let chunk := Buffer_toString buffer bytesRead in
            let chunkLines := split (chunk ++ leftover) in
            let (first, chunkLines) := shift chunkLines in
            (* [split] never yields an empty array, so [shift] never
               yields [undefined]. *)
            let leftover := match first with Some l => l | None => [] end in
            let lines := chunkLines ++ lines in
            if n <=? length lines then
              fs_close fd ;;;
              ret (Resolved (sliceFromEnd n lines))
            else
              readChunk fuel' fd n buffer position leftover lines
        end
  end.

(** [getLastNLines(filePath, n)] *)
Definition getLastNLines (filePath : path) (n : nat)
    : IO (Settled (list text) Errno) :=
  r <- fs_open filePath ;;
  match r with
  | inl err => ret (Rejected err)
  | inr fd =>
      let buffer := Buffer_alloc bufferSize in
      let lines := [] in
      let leftover := [] in
      r <- fs_fstat fd ;;
      match r with
      | inl err => fs_close fd ;;; ret (Rejected err)
      | inr fileSize =>
          let position := fileSize in
          (* every read that does not end the loop takes at least one
             byte, so [fileSize + 1] rounds are enough *)
          readChunk (S fileSize) fd n buffer position leftover lines
      end
  end.

(** [getNewLines(filePath, fromPosition)].  The read stream opens the file
    itself and closes it when done; it emits the bytes from [fromPosition]
    to the end of the file, decoded, as one ['data'] chunk, or none when
    there are no such bytes, then ['end']. *)
Definition getNewLines (filePath : path) (fromPosition : nat)
    : IO (Settled (list text) Errno) := fun w =>
  match files w filePath with
  | None => (Rejected ENOENT, w)
  | Some f =>
      if readable f then
        let chunks :=
          match skipn fromPosition (content f) with
          | [] => []
          | bytes => [utf8 bytes]
          end in
        let data := fold_left (fun data chunk => data ++ chunk) chunks [] in
        let lines := filter (fun line => truthy (trim line)) (split data) in
        (Resolved lines, w)
      else (Rejected EACCES, w)
  end.

(* ================================================================== *)
(** * Messages: [JSON.stringify] on the two objects the program sends *)
(* ================================================================== *)

Module Json.

Definition DQUOTE : N := 34%N.
Definition BACKSLASH : N := 92%N.

Definition hexDigit (k : N) : N :=
  nth (N.to_nat k) (lit "0123456789abcdef") 48%N.

(** [\uXXXX] with four lower-case hexadecimal digits. *)
Definition unicodeEscape (c : N) : text :=
  BACKSLASH :: lit "u"
    ++ [hexDigit (c / 4096); hexDigit ((c / 256) mod 16);
        hexDigit ((c / 16) mod 16); hexDigit (c mod 16)]%N.

(** One code unit, not a surrogate, inside a JSON string literal: the
    quote, the backslash and the control characters are escaped. *)
Definition quoteChar (c : N) : text :=
  if N.eqb c 8 then BACKSLASH :: lit "b"
  else if N.eqb c 9 then BACKSLASH :: lit "t"
  else if N.eqb c 10 then BACKSLASH :: lit "n"
  else if N.eqb c 12 then BACKSLASH :: lit "f"
  else if N.eqb c 13 then BACKSLASH :: lit "r"
  else if N.eqb c 34 then [BACKSLASH; DQUOTE]
  else if N.eqb c 92 then [BACKSLASH; BACKSLASH]
  else if N.ltb c 32 then unicodeEscape c
  else [c].

Definition isHighSurrogate (c : N) : bool := between 55296 56319 c.
Definition isLowSurrogate (c : N) : bool := between 56320 57343 c.

(** The characters of a string inside a JSON string literal; a surrogate
    that is not half of a pair is written as an escape. *)
Fixpoint quoteUnits (s : text) : text :=
  match s with
  | [] => []
  | c :: rest =>
      if isHighSurrogate c || isLowSurrogate c then
        match rest with
        | d :: rest' =>
            if isHighSurrogate c && isLowSurrogate d
            then c :: d :: quoteUnits rest'
            else unicodeEscape c ++ quoteUnits rest
        | [] => unicodeEscape c
        end
      else quoteChar c ++ quoteUnits rest
  end.

Definition quote (s : text) : text :=
  DQUOTE :: quoteUnits s ++ [DQUOTE].

Fixpoint commaSep (items : list text) : text :=
  match items with
  | [] => []
  | [x] => x
  | x :: rest => x ++ lit "," ++ commaSep rest
  end.

(** The two objects the program builds: [{ lines }] and [{ error }]. *)
Inductive Payload : Type :=
| LinesPayload (lines : list text)
| ErrorPayload (error : text).

Definition JSON_stringify (v : Payload) : text :=
  match v with
  | LinesPayload lines =>
      lit "{" ++ quote (lit "lines") ++ lit ":["
        ++ commaSep (map quote lines) ++ lit "]}"
  | ErrorPayload error =>
      lit "{" ++ quote (lit "error") ++ lit ":" ++ quote error ++ lit "}"
  end.

End Json.
Import Json.

(* ================================================================== *)
(** * The server *)
(* ================================================================== *)

Definition LOG_FILE_PATH : path := "logs.txt"%string.

Inductive ReadyState : Type := CONNECTING | OPEN | CLOSING | CLOSED.

Definition isOpen (r : ReadyState) : bool :=
  match r with
  | OPEN => true
  | _ => false
  end.

Inductive WatchEventType : Type := rename | change.

(** What the program does to the outside, in the order it does it. *)
Inductive Action : Type :=
| StatCheck                            (* the [stat] of a debounce callback *)
| ReadFrom (fromPosition : nat)        (* a call of [getNewLines] *)
| Send (ws : nat) (message : text).    (* a call of [ws.send] *)

(** The program's two variables, and the parts of the runtime it acts on:
    the timer table of the event loop with its clock (in ms), the set
    [wss.clients] in insertion order with each socket's [readyState], and
    the file system. *)
Record Server : Type := mkServer {
  lastFileSize : nat;
  debounceTimeout : option nat;
  timers : list (nat * nat);          (* handle, time at which it is due *)
  nextTimer : nat;
  now : nat;
  clients : list (nat * ReadyState);
  nextWs : nat;
  world : World;
  trace : list Action
}.

Definition set_lastFileSize (v : nat) (s : Server) : Server :=
  mkServer v (debounceTimeout s) (timers s) (nextTimer s) (now s)
           (clients s) (nextWs s) (world s) (trace s).

Definition set_debounceTimeout (v : option nat) (s : Server) : Server :=
  mkServer (lastFileSize s) v (timers s) (nextTimer s) (now s)
           (clients s) (nextWs s) (world s) (trace s).

Definition set_timers (v : list (nat * nat)) (s : Server) : Server :=
  mkServer (lastFileSize s) (debounceTimeout s) v (nextTimer s) (now s)
           (clients s) (nextWs s) (world s) (trace s).

Definition set_nextTimer (v : nat) (s : Server) : Server :=
  mkServer (lastFileSize s) (debounceTimeout s) (timers s) v (now s)
           (clients s) (nextWs s) (world s) (trace s).

Definition set_now (v : nat) (s : Server) : Server :=
  mkServer (lastFileSize s) (debounceTimeout s) (timers s) (nextTimer s) v
           (clients s) (nextWs s) (world s) (trace s).

Definition set_clients (v : list (nat * ReadyState)) (s : Server) : Server :=
  mkServer (lastFileSize s) (debounceTimeout s) (timers s) (nextTimer s)
           (now s) v (nextWs s) (world s) (trace s).

Definition set_nextWs (v : nat) (s : Server) : Server :=
  mkServer (lastFileSize s) (debounceTimeout s) (timers s) (nextTimer s)
           (now s) (clients s) v (world s) (trace s).

Definition set_world (v : World) (s : Server) : Server :=
  mkServer (lastFileSize s) (debounceTimeout s) (timers s) (nextTimer s)
           (now s) (clients s) (nextWs s) v (trace s).

Definition record (a : Action) (s : Server) : Server :=
  mkServer (lastFileSize s) (debounceTimeout s) (timers s) (nextTimer s)
           (now s) (clients s) (nextWs s) (world s) (trace s ++ [a]).

(** The program as it is once its top level has run: [lastFileSize = 0],
    [debounceTimeout] undefined, the server listening, the watcher set up
    and the initial [stat] not yet settled. *)
Definition start (w : World) : Server :=
  mkServer 0 None [] 0 0 [] 0 w [].

(** The top level of the program.  [fs.watch] throws when it cannot watch
    the file (no such file, or no right to read it); nothing catches that,
    so the process ends before the server is of any use. *)
Definition main (w : World) : option Server :=
  match files w LOG_FILE_PATH with
  | Some f => if readable f then Some (start w) else None
  | None => None
  end.

(** [ws.send(message)] on an open socket hands the message to the
    transport and does not throw. *)
Definition ws_send (ws : nat) (message : text) (s : Server) : Server :=
  record (Send ws message) s.

(** [clearTimeout(handle)]; an undefined or stale handle clears nothing. *)
Definition clearTimeout (handle : option nat) (s : Server) : Server :=
  match handle with
  | None => s
  | Some h => set_timers (filter (fun t => negb (fst t =? h)) (timers s)) s
  end.

(** [setTimeout(callback, delay)]; the only callback the program ever
    schedules is [debounceCallback] below. *)
Definition setTimeout (delay : nat) (s : Server) : nat * Server :=
  let h := nextTimer s in
  (h, set_nextTimer (S h) (set_timers (timers s ++ [(h, now s + delay)]) s)).

(** The loop [wss.clients.forEach(...)] of the debounce callback. *)
Definition broadcast (newLines : list text) (s : Server) : Server :=
  fold_left
    (fun s client =>
       if isOpen (snd client)
       then ws_send (fst client) (JSON_stringify (LinesPayload newLines)) s
       else s)
    (clients s) s.

(** The function given to [setTimeout]. *)
Definition debounceCallback (s : Server) : Server :=
  (* try { *)
  let s := record StatCheck s in
  match fs_promises_stat LOG_FILE_PATH (world s) with
  | inl _ => s                                    (* } catch (error) { } *)
  | inr size =>
      if lastFileSize s <? size then
        let s := record (ReadFrom (lastFileSize s)) s in
        let (r, w) := getNewLines LOG_FILE_PATH (lastFileSize s) (world s) in
        let s := set_world w s in
        match r with
        | Resolved newLines => broadcast newLines (set_lastFileSize size s)
        | Rejected _ => s                         (* } catch (error) { } *)
        | Pending => s
        end
      else s
  end.

(** The listener given to [fs.watch]. *)
Definition onWatch (eventType : WatchEventType) (s : Server) : Server :=
  match eventType with
  | change =>
      let s := clearTimeout (debounceTimeout s) s in
      let (h, s) := setTimeout 100 s in
      set_debounceTimeout (Some h) s
  | rename => s
  end.

(** The ['connection'] listener; the socket is new, open, and already in
    [wss.clients] when the listener runs. *)
Definition onConnection (s : Server) : Server :=
  let ws := nextWs s in
  let s := set_nextWs (S ws) (set_clients (clients s ++ [(ws, OPEN)]) s) in
  let (r, w) := getLastNLines LOG_FILE_PATH 10 (world s) in
  let s := set_world w s in
  match r with
  | Resolved lines => ws_send ws (JSON_stringify (LinesPayload lines)) s
  | Rejected _ =>
      ws_send ws (JSON_stringify (ErrorPayload (lit "Unable to read file"))) s
  | Pending => s
  end.

(** A socket starts its closing handshake: it stays in [wss.clients]. *)
Definition onClosing (ws : nat) (s : Server) : Server :=
  set_clients
    (map (fun c => if fst c =? ws then (ws, CLOSING) else c) (clients s)) s.

(** A socket is closed: the library takes it out of [wss.clients]; the
    program's ['close'] listener only logs. *)
Definition onClose (ws : nat) (s : Server) : Server :=
  set_clients (filter (fun c => negb (fst c =? ws)) (clients s)) s.

(** The [then] and [catch] of the initial [fs.promises.stat]. *)
Definition onInitialStat (s : Server) : Server :=
  match fs_promises_stat LOG_FILE_PATH (world s) with
  | inr size => set_lastFileSize size s
  | inl _ => set_lastFileSize 0 s
  end.

(** ** The event loop *)

Inductive Input : Type :=
| Connection
| Closing (ws : nat)
| Close (ws : nat)
| Watch (eventType : WatchEventType)
| FileChanged (file : option File)     (* an external writer at work *)
| InitialStatSettles.

Definition handle (i : Input) (s : Server) : Server :=
  match i with
  | Connection => onConnection s
  | Closing ws => onClosing ws s
  | Close ws => onClose ws s
  | Watch eventType => onWatch eventType s
  | FileChanged file => set_world (writeFile LOG_FILE_PATH file (world s)) s
  | InitialStatSettles => onInitialStat s
  end.

Definition isDue (t : nat) (timer : nat * nat) : bool := snd timer <=? t.

(** The clock reaches [t]: every timer due by then is taken out of the
    table and its callback is run, oldest first. *)
Definition fireDue (t : nat) (s : Server) : Server :=
  let due := filter (isDue t) (timers s) in
  let waiting := filter (fun timer => negb (isDue t timer)) (timers s) in
  let s := set_timers waiting s in
  let s := set_now (Nat.max (now s) t) s in
  fold_left (fun s _ => debounceCallback s) due s.

(** A run: inputs with the time at which the loop takes each up. *)
Fixpoint run (inputs : list (nat * Input)) (s : Server) : Server :=
  match inputs with
  | [] => s
  | (t, i) :: rest => run rest (handle i (fireDue t s))
  end.

(** ** Observations on a trace *)

Definition isStatCheck (a : Action) : bool :=
  match a with
  | StatCheck => true
  | _ => false
  end.

(** The number of size-check cycles performed so far. *)
Definition cycles (s : Server) : nat :=
  length (filter isStatCheck (trace s)).

(** The messages sent to socket [ws], oldest first. *)
Fixpoint sentTo (ws : nat) (tr : list Action) : list text :=
  match tr with
  | [] => []
  | Send ws' m :: rest =>
      if ws' =? ws then m :: sentTo ws rest else sentTo ws rest
  | _ :: rest => sentTo ws rest
  end.

(** All the [ws.send] calls of a trace. *)
Definition sends (tr : list Action) : list (nat * text) :=
  flat_map (fun a => match a with Send ws m => [(ws, m)] | _ => [] end) tr.

Definition fileWith (c : list byte) : option File := Some (mkFile c true).

(** The bytes of a text file given by its fragments: they are joined with
    newlines, so a last fragment [""] ends the file with a newline. *)
Fixpoint textFile (fragments : list string) : list byte :=
  match fragments with
  | [] => []
  | [l] => list_byte_of_string l
  | l :: rest => list_byte_of_string l ++ x0a :: textFile rest
  end.

(** Bytes below 128 only. *)
Definition isAscii (bytes : list byte) : bool :=
  forallb (fun b => N.leb (Byte.to_N b) 127) bytes.

Definition worldWith (file : option File) : World :=
  mkWorld (fun p => if String.eqb p LOG_FILE_PATH then file else None) [].

(* ================================================================== *)
(** * Reference notions *)
(* ================================================================== *)

(** The last [n] elements of a list (all of them when there are fewer). *)
Definition lastN {A : Type} (n : nat) (l : list A) : list A :=
  skipn (length l - n) l.

(** The fragments of a whole-file split, without the first one when it is
    empty: what [readChunk] has in [lines] once it has reached the start of
    the file. *)
Definition tailFragments (data : text) : list text :=
  match split data with
  | [] :: rest => rest
  | fragments => fragments
  end.

(** The line sequence of a file in the words of the specification: the
    maximal runs without a newline, where the newline that ends the last
    line does not begin another, empty, one; an empty file has no line. *)
Definition fileLines (data : text) : list text :=
  match rev (split data) with
  | [] :: earlier => rev earlier
  | _ => split data
  end.

(** [lastNLines] as the specification states it: the last
    [min(n, totalLines)] lines of the file. *)
Definition lastNLines_reference (data : list byte) (n : nat) : list text :=
  lastN (Nat.min n (length (fileLines (utf8 data)))) (fileLines (utf8 data)).

(** The same with every fragment of a full-scan split counted as a line. *)
Definition lastFragments_reference (data : list byte) (n : nat)
  : list text :=
  lastN (Nat.min n (length (split (utf8 data)))) (split (utf8 data)).

Definition nonBlank (line : text) : bool := truthy (trim line).

(** [broadcast] as the specification states it: a batch that is not empty
    is delivered to every open subscriber, an empty one to nobody. *)
Definition broadcast_reference (newLines : list text) (s : Server)
  : Server :=
  match newLines with
  | [] => s
  | _ :: _ => broadcast newLines s
  end.

(** [newLines] as the specification states it: the non-blank lines among
    those that a newline terminates inside the appended content; the
    fragment after the last newline is left for a later read. *)
Definition newLines_reference (appended : list byte) : list text :=
  filter nonBlank (removelast (split (utf8 appended))).

(** The world right after [fs.open] succeeded on [filePath]. *)
Definition opened (filePath : path) (w : World) : World :=
  mkWorld (files w) ((freshFd w, filePath) :: openFds w).

(** Several actions recorded at once. *)
Definition recordAll (actions : list Action) (s : Server) : Server :=
  mkServer (lastFileSize s) (debounceTimeout s) (timers s) (nextTimer s)
           (now s) (clients s) (nextWs s) (world s) (trace s ++ actions).

(** ** Conditions on states and inputs used by the statements *)

(** Socket [ws] is in [wss.clients] and open. *)
Definition isOpenClient (ws : nat) (s : Server) : bool :=
  existsb (fun c => (fst c =? ws) && isOpen (snd c)) (clients s).

(** The only timer that can be pending is the one [debounceTimeout]
    holds. *)
Definition tidy (s : Server) : Prop :=
  forall timer, In timer (timers s) -> debounceTimeout s = Some (fst timer).

(** Successive notification times, each less than 100 ms after the one
    before. *)
Fixpoint burstAfter (previous : nat) (times : list nat) : bool :=
  match times with
  | [] => true
  | t :: rest =>
      (previous <=? t) && (t <? previous + 100) && burstAfter t rest
  end.

Definition notifications (times : list nat) : list (nat * Input) :=
  map (fun t => (t, Watch change)) times.

(** The watched file is absent or at most [limit] bytes long. *)
Definition sizeAtMost (limit : nat) (file : option File) : bool :=
  match file with
  | None => true
  | Some f => length (content f) <=? limit
  end.

(** Inputs under which the file stays within [limit] bytes: any
    notification, and writes that leave at most [limit] bytes. *)
Definition staysWithin (limit : nat) (i : Input) : bool :=
  match i with
  | Watch _ => true
  | FileChanged file => sizeAtMost limit file
  | _ => false
  end.

(** The two messages the program can send. *)
Definition linesMessage (lines : list text) : text :=
  JSON_stringify (LinesPayload lines).

Definition errorMessage : text :=
  JSON_stringify (ErrorPayload (lit "Unable to read file")).

(** One [Send] of the batch to every open socket of [wss.clients]. *)
Definition deliveries (newLines : list text)
    (sockets : list (nat * ReadyState)) : list Action :=
  map (fun c => Send (fst c) (linesMessage newLines))
      (filter (fun c => isOpen (snd c)) sockets).

(** A message of one of the two shapes. *)
Definition shaped (a : Action) : Prop :=
  match a with
  | Send _ message =>
      (exists lines, message = JSON_stringify (LinesPayload lines))
      \/ message = JSON_stringify (ErrorPayload (lit "Unable to read file"))
  | _ => True
  end.

(** What holds of the timers and of [wss.clients] in every state the
    server can reach: at most the timer held by [debounceTimeout] is
    pending, and no socket is in the set twice. *)
Definition wellFormed (s : Server) : Prop :=
  tidy s
  /\ NoDup (map fst (clients s))
  /\ Forall (fun c => fst c < nextWs s) (clients s).

(** ** Sample runs *)

(** A catch-up read of [n] lines on a readable file holding [data]. *)
Definition catchUp (data : list byte) (n : nat)
  : Settled (list text) Errno :=
  fst (getLastNLines LOG_FILE_PATH n (worldWith (fileWith data))).

(** The server started on a readable file holding [data], after the
    initial [stat] has settled. *)
Definition started (data : list byte) : Server :=
  handle InitialStatSettles (start (worldWith (fileWith data))).

(** One socket is connected; then an empty line is appended to a file that
    held one line, the watcher reports it, and the debounce timer fires. *)
Definition blankAppendRun : Server :=
  fireDue 150
    (run [(10, Connection);
          (20, FileChanged (fileWith (textFile ["x"; ""; ""]%string)));
          (20, Watch change)]
       (started (textFile ["x"; ""]%string))).

(** The server started on a file of three bytes. *)
Definition threeBytes : Server := started (textFile ["abc"]%string).

(** The server started on a file of eleven bytes. *)
Definition elevenBytes : Server := started (textFile ["0123456789."]%string).

(** The server started on a file of three bytes that has since been
    removed. *)
Definition fileGone : Server := handle (FileChanged None) threeBytes.

(** What happens to a file of eleven bytes once the server has started:
    it is truncated, then written to twice without outgrowing its old size,
    with a notification each time. *)
Definition truncationInputs : list (nat * Input) :=
  [(50, FileChanged (fileWith []));
   (50, Watch change);
   (400, FileChanged (fileWith (textFile ["new"; ""]%string)));
   (400, Watch change);
   (800, FileChanged (fileWith (textFile ["new"; "newer"; ""]%string)));
   (800, Watch change)].

(** The file is removed right after the server has started, before the
    initial [stat] settles and before a first socket connects; then it is
    created again with two lines, the watcher reports it, and the debounce
    timer fires. *)
Definition removedThenCreatedRun : Server :=
  fireDue 500
    (run [(0, FileChanged None);
          (0, InitialStatSettles);
          (10, Connection);
          (300, FileChanged
                  (fileWith (textFile ["line1"; "line2"; ""]%string)));
          (300, Watch change)]
       (start (worldWith (fileWith [])))).

(** Three sockets connect to a server whose file holds one line; the second
    starts closing. *)
Definition threeSockets : Server :=
  run [(1, Connection); (2, Connection); (3, Connection); (4, Closing 1)]
    (started (textFile ["hello"; ""]%string)).

(** An incremental read from [fromPosition] on a readable file holding
    [data]. *)
Definition tailRead (data : list byte) (fromPosition : nat)
    : Settled (list text) Errno :=
  fst (getNewLines LOG_FILE_PATH fromPosition (worldWith (fileWith data))).

(* ================================================================== *)
(** * Notions for the further properties *)
(* ================================================================== *)

(** A string without a newline. *)
Definition hasNoNewline (line : text) : bool :=
  forallb (fun c => negb (N.eqb c LF)) line.

(** The bytes of the first read of [readChunk]: the last [bufferSize]
    bytes of the file, or all of it when it is shorter. *)
Definition lastChunk (data : list byte) : list byte :=
  skipn (length data - Nat.min (length data) bufferSize) data.

(** What the incremental reader makes of a run of bytes. *)
Definition linesOf (bytes : list byte) : list text :=
  filter nonBlank (split (utf8 bytes)).

(** The states the UTF-8 decoder can be in: the next byte of a sequence is
    never expected below 128. *)
Definition continuing (st : Utf8State) : Prop := (128 <= lower st)%N.

(** The line holds a character that is not white space. *)
Definition hasVisible (line : text) : bool :=
  existsb (fun c => negb (isWhiteSpace c)) line.

(** Lines with blanks around them, a blank line ended by CR LF, a line of
    a space and a tab, and a last line without a newline. *)
Definition paddedLines : list byte :=
  list_byte_of_string "  a " ++ [x0a; x0d; x0a; x20; x09; x0a]
    ++ list_byte_of_string "b".

(** Socket [ws] has been connected and is no longer in [wss.clients]. *)
Definition gone (ws : nat) (s : Server) : Prop :=
  ~ In ws (map fst (clients s)) /\ ws < nextWs s.

(** Successive notification times, none earlier than the one before. *)
Fixpoint ascendingFrom (previous : nat) (times : list nat) : bool :=
  match times with
  | [] => true
  | t :: rest => (previous <=? t) && ascendingFrom t rest
  end.

(** How many of the notifications come 100 ms or more after the one
    before. *)
Fixpoint pausesAfter (previous : nat) (times : list nat) : nat :=
  match times with
  | [] => 0
  | t :: rest => (if previous + 100 <=? t then 1 else 0) + pausesAfter t rest
  end.

(** A second line has been written to a file of one line, and the debounce
    callback for that write has not run yet. *)
Definition writtenNotYetChecked : Server :=
  handle (FileChanged (fileWith (textFile ["a"; "b"; ""]%string)))
    (started (textFile ["a"; ""]%string)).

(** For each append in turn: one size check, one read from where the
    append before ended, and its lines sent to every open socket. *)
Fixpoint appendTrace (offset : nat) (sockets : list (nat * ReadyState))
    (appends : list (list byte)) : list Action :=
  match appends with
  | [] => []
  | a :: rest =>
      StatCheck :: ReadFrom offset :: deliveries (linesOf a) sockets
        ++ appendTrace (offset + length a) sockets rest
  end.

(** Two appends to the file of [threeSockets]: one line, then two. *)
Definition twoAppends : list (list byte) :=
  [textFile ["one"; ""]%string; textFile ["two"; "three"; ""]%string].



(** ** Reading a JSON string literal back

    The inverse of [quoteUnits]; it serves to show that a message
    determines the lines that were put into it. *)

(** The value of a hexadecimal digit, [0-9a-f]. *)
Definition hexValue (d : N) : N :=
  if between 48 57 d then (d - 48)%N else (d - 87)%N.

(** The character that the letter of a two-character escape stands for;
    the quote and the backslash stand for themselves. *)
Definition unescape (e : N) : N :=
  if N.eqb e 98 then 8%N
  else if N.eqb e 116 then 9%N
  else if N.eqb e 110 then 10%N
  else if N.eqb e 102 then 12%N
  else if N.eqb e 114 then 13%N
  else e.

(** The characters up to the closing quote, and what follows that
    quote. *)
Fixpoint unquoteUnits (s : text) : option (text * text) :=
  match s with
  | [] => None
  | c :: rest =>
      if N.eqb c DQUOTE then Some ([], rest)
      else if N.eqb c BACKSLASH then
        match rest with
        | [] => None
        | e :: escaped =>
            if N.eqb e 117 then
              match escaped with
              | h1 :: h2 :: h3 :: h4 :: rest' =>
                  match unquoteUnits rest' with
                  | Some (units, after) =>
                      Some ((hexValue h1 * 4096 + hexValue h2 * 256
                             + hexValue h3 * 16 + hexValue h4)%N :: units,
                            after)
                  | None => None
                  end
              | _ => None
              end
            else
              match unquoteUnits escaped with
              | Some (units, after) => Some (unescape e :: units, after)
              | None => None
              end
        end
      else
        match unquoteUnits rest with
        | Some (units, after) => Some (c :: units, after)
        | None => None
        end
  end.

(* ================================================================== *)
(** * The server, one callback at a time *)
(* ================================================================== *)

(** In [debounceCallback] and [onConnection] a whole debounce callback and
    a whole catch-up read are one step.  The program suspends them: the
    debounce callback at its two [await]s, the catch-up read at [fs.open],
    at [fs.fstat] and at every [fs.read], and other callbacks run in
    between.  Here each of them is a task that goes on by one callback at a
    time; an operation on the file system sees the file as it is when the
    operation completes. *)

(** A suspended callback, with the variables it will go on with. *)
Inductive Task : Type :=
| AwaitStat                          (* [await fs.promises.stat(...)] *)
| AwaitNewLines (size fromPosition : nat)
                                     (* [await getNewLines(...)], with
                                        [stats.size] and the offset given *)
| AwaitOpen (ws : nat)               (* catch-up of [ws]: [fs.open] *)
| AwaitFstat (ws fd : nat)           (* catch-up of [ws]: [fs.fstat] *)
| AwaitRead (ws fd : nat) (buffer : list byte) (position : nat)
            (leftover : text) (lines : list text).
                                     (* catch-up of [ws]: [fs.read] *)

(** The server with the callbacks that are suspended, each under the
    number it got when it was first suspended. *)
Record Loop : Type := mkLoop {
  server : Server;
  tasks : list (nat * Task);
  nextTask : nat
}.

Definition set_server (s : Server) (l : Loop) : Loop :=
  mkLoop s (tasks l) (nextTask l).

(** A callback that has just begun is suspended. *)
Definition suspend (task : Task) (l : Loop) : Loop :=
  mkLoop (server l) (tasks l ++ [(nextTask l, task)]) (S (nextTask l)).

Definition taskOf (k : nat) (l : Loop) : option Task :=
  option_map snd (find (fun e => fst e =? k) (tasks l)).

(** Task [k] has run to its end. *)
Definition drop (k : nat) (l : Loop) : Loop :=
  mkLoop (server l) (filter (fun e => negb (fst e =? k)) (tasks l))
         (nextTask l).

(** Task [k] is suspended again, as [task]. *)
Definition wait (k : nat) (task : Task) (l : Loop) : Loop :=
  mkLoop (server l)
         (map (fun e => if fst e =? k then (k, task) else e) (tasks l))
         (nextTask l).

(** The [then] and the [catch] of the connection listener, run when the
    promise of [getLastNLines] settles.  Neither looks at [readyState]. *)
Definition settled (ws : nat) (r : Errno + list text) (s : Server)
    : Server :=
  match r with
  | inr lines => ws_send ws (JSON_stringify (LinesPayload lines)) s
  | inl _ =>
      ws_send ws (JSON_stringify (ErrorPayload (lit "Unable to read file"))) s
  end.

(** [fs.close(fd, () => {})] within a task. *)
Definition closing (fd : nat) (s : Server) : Server :=
  set_world (snd (fs_close fd (world s))) s.

(** A call of [readChunk()] up to where it returns: with no byte left to
    read it closes the file and resolves the promise, otherwise it calls
    [fs.read] and the task waits for it. *)
Definition callReadChunk (k ws fd : nat) (buffer : list byte)
    (position : nat) (leftover : text) (lines : list text) (l : Loop)
    : Loop :=
  let bytesToRead := Nat.min position bufferSize in
  if bytesToRead <=? 0 then
    let lines := if truthy leftover then leftover :: lines else lines in
    drop k (set_server
              (settled ws (inr (sliceFromEnd 10 lines))
                 (closing fd (server l))) l)
  else wait k (AwaitRead ws fd buffer position leftover lines) l.

(** The operation that task [k] waits for completes, and the task goes on
    to its next suspension or to its end. *)
Definition complete (k : nat) (l : Loop) : Loop :=
  let s := server l in
  match taskOf k l with
  | None => l
  | Some AwaitStat =>
      match fs_promises_stat LOG_FILE_PATH (world s) with
      | inl _ => drop k l                         (* } catch (error) { } *)
      | inr size =>
          if lastFileSize s <? size then
            wait k (AwaitNewLines size (lastFileSize s))
              (set_server (record (ReadFrom (lastFileSize s)) s) l)
          else drop k l
      end
  | Some (AwaitNewLines size fromPosition) =>
      let (r, w) := getNewLines LOG_FILE_PATH fromPosition (world s) in
      let s := set_world w s in
      match r with
      | Resolved newLines =>
          drop k (set_server (broadcast newLines (set_lastFileSize size s)) l)
      | Rejected _ => drop k (set_server s l)     (* } catch (error) { } *)
      | Pending => drop k (set_server s l)
      end
  | Some (AwaitOpen ws) =>
      let (r, w) := fs_open LOG_FILE_PATH (world s) in
      let s := set_world w s in
      match r with
      | inl err => drop k (set_server (settled ws (inl err) s) l)
      | inr fd => wait k (AwaitFstat ws fd) (set_server s l)
      end
  | Some (AwaitFstat ws fd) =>
      let (r, w) := fs_fstat fd (world s) in
      let s := set_world w s in
      match r with
      | inl err =>
          drop k (set_server (settled ws (inl err) (closing fd s)) l)
      | inr fileSize =>
          callReadChunk k ws fd (Buffer_alloc bufferSize) fileSize [] []
            (set_server s l)
      end
  | Some (AwaitRead ws fd buffer position leftover lines) =>
      let bytesToRead := Nat.min position bufferSize in
      let start := position - bytesToRead in
      let (r, w) := fs_read fd buffer bytesToRead start (world s) in
      let s := set_world w s in
      match r with
      | inl err =>
          drop k (set_server (settled ws (inl err) (closing fd s)) l)
      | inr (bytesRead, buffer) =>
          let position := position - bytesRead in
          let chunk := Buffer_toString buffer bytesRead in
          let chunkLines := split (chunk ++ leftover) in
          let (first, chunkLines) := shift chunkLines in
          let leftover := match first with Some l => l | None => [] end in
          let lines := chunkLines ++ lines in
          if 10 <=? length lines then
            drop k (set_server
                      (settled ws (inr (sliceFromEnd 10 lines))
                         (closing fd s)) l)
          else
            callReadChunk k ws fd buffer position leftover lines
              (set_server s l)
      end
  end.

(** What the loop takes up: an input from outside, or the completion of
    the operation a task waits for. *)
Inductive Event : Type :=
| Arrives (i : Input)
| Completes (task : nat).

(** An input.  The ['connection'] listener calls [getLastNLines], which
    calls [fs.open] and returns; the other listeners run to their end. *)
Definition arrive (i : Input) (l : Loop) : Loop :=
  match i with
  | Connection =>
      let s := server l in
      let ws := nextWs s in
      suspend (AwaitOpen ws)
        (set_server
           (set_nextWs (S ws) (set_clients (clients s ++ [(ws, OPEN)]) s)) l)
  | _ => set_server (handle i (server l)) l
  end.

(** The clock reaches [t]: every timer due by then is taken out of the
    table and its callback begins; it calls [fs.promises.stat] and is
    suspended. *)
Definition fire (t : nat) (l : Loop) : Loop :=
  let s := server l in
  let due := filter (isDue t) (timers s) in
  let waiting := filter (fun timer => negb (isDue t timer)) (timers s) in
  let s := set_now (Nat.max (now s) t) (set_timers waiting s) in
  fold_left
    (fun l _ => suspend AwaitStat (set_server (record StatCheck (server l)) l))
    due (set_server s l).

Definition step (e : Event) (l : Loop) : Loop :=
  match e with
  | Arrives i => arrive i l
  | Completes k => complete k l
  end.

Fixpoint runLoop (events : list (nat * Event)) (l : Loop) : Loop :=
  match events with
  | [] => l
  | (t, e) :: rest => runLoop rest (step e (fire t l))
  end.

(** The server with no callback suspended. *)
Definition idle (s : Server) : Loop := mkLoop s [] 0.

(** The socket whose catch-up read a task is. *)
Definition socketOf (task : Task) : option nat :=
  match task with
  | AwaitOpen ws => Some ws
  | AwaitFstat ws _ => Some ws
  | AwaitRead ws _ _ _ _ _ => Some ws
  | _ => None
  end.

(** No catch-up read of socket [ws] is in flight. *)
Definition noCatchUp (ws : nat) (l : Loop) : Prop :=
  Forall (fun e => socketOf (snd e) <> Some ws) (tasks l).

(** Socket [ws] has been closed and nothing of its own is in flight. *)
Definition doneWith (ws : nat) (l : Loop) : Prop :=
  gone ws (server l) /\ noCatchUp ws l.

(** Events under which nobody writes to the file and nobody connects: a
    notification of either kind, and the completion of an operation. *)
Definition quietEvent (e : Event) : bool :=
  match e with
  | Arrives (Watch _) => true
  | Completes _ => true
  | _ => false
  end.

(** The recorded offset has reached the end of the file (or the file is
    absent), and the only callbacks in flight are debounce callbacks that
    have not done their [stat] yet. *)
Definition settledDown (l : Loop) : Prop :=
  sizeAtMost (lastFileSize (server l))
    (files (world (server l)) LOG_FILE_PATH) = true
  /\ Forall (fun e => snd e = AwaitStat) (tasks l).

(** A writer appends [appends] to a file that holds [data], one after the
    other.  Every write is followed by its change notification; 100 ms
    later the debounce callback for it begins, and its [stat] and its read
    complete before the next write, which comes [gap] ms after this one.
    The callbacks get the numbers from [k] on. *)
Fixpoint appendEvents (gap t k : nat) (data : list byte)
    (appends : list (list byte)) : list (nat * Event) :=
  match appends with
  | [] => []
  | a :: rest =>
      (t, Arrives (FileChanged (fileWith (data ++ a))))
        :: (t, Arrives (Watch change))
        :: (t + 100, Completes k)
        :: (t + 100, Completes k)
        :: appendEvents gap (t + gap) (S k) (data ++ a) rest
  end.

(** ** Sample runs, one callback at a time *)

(** Two debounce callbacks in flight at once.  The file grows from empty
    to two bytes and is notified; the callback for it has done its [stat]
    and waits for its read when the file grows to six bytes and is
    notified again; the second callback does its [stat] and its read, and
    only then does the read of the first one complete. *)
Definition overlappingChecks : list (nat * Event) :=
  [(0, Arrives (FileChanged (fileWith (textFile ["a"; ""]%string))));
   (0, Arrives (Watch change));
   (100, Completes 0);
   (150, Arrives (FileChanged
                    (fileWith (textFile ["a"; "b"; "c"; ""]%string))));
   (150, Arrives (Watch change));
   (250, Completes 1);
   (260, Completes 1)].

Definition lateRead : list (nat * Event) := [(270, Completes 0)].

(** A socket connects to the server on a file of one line; the file is
    emptied after the [fstat] of the catch-up read and before its first
    [read]. *)
Definition emptiedUnderCatchUp : list (nat * Event) :=
  [(10, Arrives Connection);
   (11, Completes 0);
   (12, Completes 0);
   (13, Arrives (FileChanged (fileWith [])))].

Definition completions (k : nat) (times : list nat) : list (nat * Event) :=
  map (fun t => (t, Completes k)) times.

(** A line is appended to the file of [threeSockets] and the debounce
    callback for it runs. *)
Definition appendUnderThree : list (nat * Event) :=
  [(10, Arrives (FileChanged
                   (fileWith (textFile ["hello"; "more"; ""]%string))));
   (10, Arrives (Watch change));
   (110, Completes 0);
   (120, Completes 0)].

(** A socket connects and is closed before its catch-up read is done. *)
Definition closedDuringCatchUp : list (nat * Event) :=
  [(1, Arrives Connection);
   (2, Arrives (Close 0));
   (3, Completes 0);
   (4, Completes 0);
   (5, Completes 0)].

(** Three notifications, the callbacks of the first two overlapping. *)
Definition overlappingNotifications : list (nat * Event) :=
  [(10, Arrives (Watch change));
   (150, Arrives (Watch change));
   (300, Arrives (Watch rename));
   (310, Completes 1);
   (320, Completes 0);
   (330, Arrives (Watch change))].

(** The file system after [emptiedUnderCatchUp]: the file is empty and the
    descriptor of the catch-up read is open. *)
Definition emptiedWorld : World :=
  writeFile LOG_FILE_PATH (fileWith [])
    (opened LOG_FILE_PATH
       (worldWith (fileWith (textFile ["hello"; ""]%string)))).

(** The server after [emptiedUnderCatchUp], at time [clock]: the catch-up
    of socket [0] waits for its first read, of the six bytes that the
    [fstat] reported. *)
Definition waitingForRead (clock : nat) : Loop :=
  mkLoop (mkServer 6 None [] 0 clock [(0, OPEN)] 1 emptiedWorld [])
         [(0, AwaitRead 0 1 (Buffer_alloc bufferSize) 6 [] [])] 1.

(* ================================================================== *)
(** * Notions for the reverse reader on any bytes *)
(* ================================================================== *)

(** The number of newlines of a text, and of newline bytes of a file. *)
Definition newlines (s : text) : nat :=
  length (filter (fun c => N.eqb c LF) s).

Definition newlineBytes (bytes : list byte) : nat :=
  length (filter (fun b => N.eqb (Byte.to_N b) LF) bytes).

(** The bytes that [readChunk] reads when its [position] is [e]: the
    [min(e, bufferSize)] bytes before [e]. *)
Definition chunkBefore (data : list byte) (e : nat) : list byte :=
  firstn (Nat.min e bufferSize) (skipn (e - Nat.min e bufferSize) data).

(** The chunk before [e] and the bytes from [e] on, decoded each on its
    own, give the text they give when decoded in one piece: no multi-byte
    character lies across [e]. *)
Definition joinsAt (data : list byte) (e : nat) : Prop :=
  utf8 (chunkBefore data e ++ skipn e data)
  = utf8 (chunkBefore data e) ++ utf8 (skipn e data).

(** The chunk edges that a call with count [n] reads across are the
    positions [size - k * bufferSize] inside the file with fewer than [n]
    newline bytes after them; the decoding joins at each of them. *)
Definition cleanEdges (data : list byte) (n : nat) : Prop :=
  forall k,
    0 < length data - k * bufferSize ->
    newlineBytes (skipn (length data - k * bufferSize) data) < n ->
    joinsAt data (length data - k * bufferSize).

(** What holds of the decoder between any two bytes: a continuation byte
    is expected in a range within [128, 191], and a sequence that has
    begun has gathered a bit already, or it is the first continuation
    byte of a sequence that started with E0 or F0 that is expected, whose
    range starts above 128. *)
Definition underway (st : Utf8State) : Prop :=
  (128 <= lower st)%N /\ (upper st <= 191)%N
  /\ (needed st = 0 \/ codePoint st <> 0%N
      \/ (2 <= needed st /\ (144 <= lower st)%N)).

(** A file of two chunks: a first line of an [x] and six hundred U+00E9,
    two bytes each, and a second line [b] without a newline.  The chunk
    edge, at byte 179, lies between two of them. *)
Definition accentedLines : list byte :=
  x78 :: concat (repeat [xc3; xa9] 600) ++ [x0a; x62].

(* ================================================================== *)
(** * Facts about the built-ins *)
(* ================================================================== *)

Lemma split_nonempty (s : text) : split s <> [].
Proof.
  destruct s as [|c s]; simpl; [discriminate|].
  destruct (N.eqb c LF); [discriminate|].
  destruct (split s); discriminate.
Qed.

(** The first fragment of a split holds no newline. *)
Lemma split_head_whole (s h : text) (t : list text) :
  split s = h :: t -> split h = [h].
Proof.
  revert h t; induction s as [|c s IH]; intros h t; simpl.
  - intros [= <- <-]; reflexivity.
  - destruct (N.eqb c LF) eqn:Ec.
    + intros [= <- <-]; reflexivity.
    + destruct (split s) as [|h0 t0] eqn:Es.
      * intros [= <- <-]; simpl; rewrite Ec; reflexivity.
      * intros [= <- <-]; simpl; rewrite Ec.
        rewrite (IH h0 t0 eq_refl); reflexivity.
Qed.

(** Splitting [a ++ b] only needs the first fragment of [b] next to
    [a]: the later fragments of [b] come out as they are. *)
Lemma split_app_head (a b h : text) (t : list text) :
  split b = h :: t -> split (a ++ b) = split (a ++ h) ++ t.
Proof.
  intros Hb; induction a as [|c a IH]; simpl.
  - rewrite Hb, (split_head_whole _ Hb); reflexivity.
  - destruct (N.eqb c LF).
    + rewrite IH; reflexivity.
    + rewrite IH.
      destruct (split (a ++ h)) as [|h1 t1] eqn:E.
      * exfalso; exact (split_nonempty _ E).
      * reflexivity.
Qed.

Section Lists.

Variable A : Type.

Lemma lastN_app (n : nat) (q l : list A) :
  n <= length l -> lastN n (q ++ l) = lastN n l.
Proof.
  intros Hn; unfold lastN.
  rewrite length_app.
  replace (length q + length l - n) with (length q + (length l - n)) by lia.
  rewrite skipn_app, Nat.add_comm, Nat.add_sub.
  rewrite <- skipn_skipn, skipn_all.
  destruct (length l - n); reflexivity.
Qed.

Lemma lastN_length (n : nat) (l : list A) :
  length (lastN n l) = Nat.min n (length l).
Proof. unfold lastN; rewrite length_skipn; lia. Qed.

Lemma sliceFromEnd_pos (n : nat) (l : list A) :
  1 <= n -> sliceFromEnd n l = lastN n l.
Proof. destruct n; [lia | reflexivity]. Qed.

Lemma filter_all (f : A -> bool) (l : list A) :
  (forall x, In x l -> f x = true) -> filter f l = l.
Proof.
  induction l as [|x l IH]; simpl; intros H; [reflexivity|].
  rewrite (H x (or_introl eq_refl)), IH; auto.
Qed.

Lemma filter_none (f : A -> bool) (l : list A) :
  (forall x, In x l -> f x = false) -> filter f l = [].
Proof.
  induction l as [|x l IH]; simpl; intros H; [reflexivity|].
  rewrite (H x (or_introl eq_refl)), IH; auto.
Qed.

End Lists.

(** When the whole-file split ends with [l] after at least one more
    fragment, so does the split without its empty first fragment. *)
Lemma tailFragments_suffix (data : text) (p l : list text) :
  p <> [] -> split data = p ++ l -> exists q, tailFragments data = q ++ l.
Proof.
  intros Hp E; unfold tailFragments; rewrite E.
  destruct p as [|p0 p']; [congruence|]; simpl.
  destruct p0; [exists p' | eexists (_ :: p')]; reflexivity.
Qed.

(* ================================================================== *)
(** * The reverse line reader *)
(* ================================================================== *)

Lemma bufferSize_pos : 0 < bufferSize.
Proof. unfold bufferSize; lia. Qed.

Lemma lookupFd_opened (filePath : path) (w : World) :
  lookupFd (freshFd w) (opened filePath w) = Some filePath.
Proof. unfold lookupFd; simpl; rewrite Nat.eqb_refl; reflexivity. Qed.

(** Closing the descriptor that [fs.open] just handed out gives the
    world back as it was before the [open]. *)
Lemma close_opened (filePath : path) (w : World) :
  snd (fs_close (freshFd w) (opened filePath w)) = w.
Proof.
  destruct w as [fl fds]; unfold fs_close, opened; simpl.
  rewrite Nat.eqb_refl; simpl; f_equal.
  apply filter_all; intros e He.
  apply negb_true_iff, Nat.eqb_neq.
  assert (H : Forall (fun k => k <= list_max (map fst fds)) (map fst fds))
    by (apply list_max_le; lia).
  rewrite Forall_forall in H.
  specialize (H (fst e) (in_map fst _ _ He)).
  unfold freshFd; simpl; lia.
Qed.

(** One round of [readChunk], with the sequencing written out. *)
Lemma readChunk_round fuel fd n buffer position leftover lines w :
  readChunk (S fuel) fd n buffer position leftover lines w =
  let bytesToRead := Nat.min position bufferSize in
  if bytesToRead <=? 0 then
    (Resolved (sliceFromEnd n
                 (if truthy leftover then leftover :: lines else lines)),
     snd (fs_close fd w))
  else
    match fs_read fd buffer bytesToRead (position - bytesToRead) w with
    | (inl err, w') => (Rejected err, snd (fs_close fd w'))
    | (inr (bytesRead, buffer'), w') =>
        let chunkLines :=
          split (Buffer_toString buffer' bytesRead ++ leftover) in
        let lines' := tl chunkLines ++ lines in
        if n <=? length lines' then
          (Resolved (sliceFromEnd n lines'), snd (fs_close fd w'))
        else
          readChunk fuel fd n buffer' (position - bytesRead)
                    (hd [] chunkLines) lines' w'
    end.
Proof.
  unfold readChunk at 1; fold readChunk; unfold bind, ret; cbv zeta.
  destruct (Nat.min position bufferSize <=? 0); [reflexivity|].
  destruct (fs_read _ _ _ _ w) as [[err|[bytesRead buffer']] w'];
    [reflexivity|].
  destruct (split (Buffer_toString buffer' bytesRead ++ leftover));
    cbn [shift hd tl]; destruct (n <=? _); reflexivity.
Qed.

(** Reading through a descriptor on file [f] inside the file. *)
Lemma fs_read_inside fd buffer len position w p f :
  lookupFd fd w = Some p -> files w p = Some f ->
  position + len <= length (content f) ->
  exists buffer',
    fs_read fd buffer len position w = (inr (len, buffer'), w)
    /\ firstn len buffer' = firstn len (skipn position (content f)).
Proof.
  intros Hfd Hf Hlen; unfold fs_read; rewrite Hfd, Hf.
  assert (L : length (firstn len (skipn position (content f))) = len)
    by (rewrite length_firstn, length_skipn; lia).
  rewrite L; eexists; split; [reflexivity|].
  rewrite <- L at 1.
  rewrite firstn_app, Nat.sub_diag, firstn_all; simpl.
  apply app_nil_r.
Qed.

(** ** Decoding ASCII bytes *)

Lemma utf8_ascii bytes :
  isAscii bytes = true -> utf8 bytes = map Byte.to_N bytes.
Proof.
  unfold utf8, isAscii.
  induction bytes as [|b bytes IH]; intros H; [reflexivity|].
  cbn [forallb] in H; apply andb_true_iff in H; destruct H as [Hb Hrest].
  cbn [utf8Decode map]; unfold utf8Step, leadByte; cbn [needed utf8Start].
  rewrite Hb; cbn [app]; rewrite (IH Hrest); reflexivity.
Qed.

Lemma isAscii_cut k bytes :
  isAscii bytes = true ->
  isAscii (firstn k bytes) = true /\ isAscii (skipn k bytes) = true.
Proof.
  intros H; rewrite <- (firstn_skipn k bytes) in H.
  unfold isAscii in *; rewrite forallb_app in H.
  apply andb_true_iff in H; exact H.
Qed.

Lemma isAscii_firstn k bytes :
  isAscii bytes = true -> isAscii (firstn k bytes) = true.
Proof. intros H; exact (proj1 (isAscii_cut k bytes H)). Qed.

Lemma isAscii_skipn k bytes :
  isAscii bytes = true -> isAscii (skipn k bytes) = true.
Proof. intros H; exact (proj2 (isAscii_cut k bytes H)). Qed.

(** ASCII text can be decoded piece by piece. *)
Lemma utf8_cut k bytes :
  isAscii bytes = true ->
  utf8 bytes = utf8 (firstn k bytes) ++ utf8 (skipn k bytes).
Proof.
  intros H.
  rewrite (utf8_ascii _ H), (utf8_ascii _ (isAscii_firstn k _ H)),
    (utf8_ascii _ (isAscii_skipn k _ H)), <- map_app, firstn_skipn.
  reflexivity.
Qed.

(** The loop of [readChunk] ends and closes the descriptor.  On ASCII
    text its invariant is that [leftover :: lines] is the split of the
    part of the file from [position] on; from there, when it was asked for
    at least one line more than it holds, it resolves with the last [n]
    of the fragments of the whole file. *)
Lemma readChunk_settles fuel : forall fd n buffer position leftover lines w p f,
  lookupFd fd w = Some p -> files w p = Some f ->
  position <= length (content f) -> position < fuel ->
  exists v,
    readChunk fuel fd n buffer position leftover lines w
    = (Resolved v, snd (fs_close fd w))
    /\ (isAscii (content f) = true ->
        split (utf8 (skipn position (content f))) = leftover :: lines ->
        length lines < n ->
        v = lastN n (tailFragments (utf8 (content f)))).
Proof.
  induction fuel as [|fuel IH];
    intros fd n buffer position leftover lines w p f Hfd Hf Hpos Hfuel;
    [lia|].
  rewrite readChunk_round; cbv zeta.
  pose proof bufferSize_pos as HB.
  destruct (Nat.leb_spec (Nat.min position bufferSize) 0) as [Hz|Hz].
  - (* the start of the file has been reached *)
    assert (position = 0) by lia; subst position.
    eexists; split; [reflexivity|]; intros _ Hinv Hn; simpl in Hinv.
    rewrite sliceFromEnd_pos by lia.
    unfold tailFragments; rewrite Hinv.
    destruct leftover; reflexivity.
  - set (bytesToRead := Nat.min position bufferSize) in *.
    set (start := position - bytesToRead).
    destruct (@fs_read_inside fd buffer bytesToRead start w p f Hfd Hf)
      as (buffer' & -> & Hchunk); [unfold start; lia|].
    unfold Buffer_toString; rewrite Hchunk.
    set (chunk := firstn bytesToRead (skipn start (content f))).
    assert (Hrest : skipn bytesToRead (skipn start (content f))
                    = skipn position (content f))
      by (rewrite skipn_skipn; f_equal; unfold start; lia).
    assert (Hsplit : isAscii (content f) = true ->
              split (utf8 (skipn position (content f))) = leftover :: lines ->
              split (utf8 (skipn start (content f)))
              = split (utf8 chunk ++ leftover) ++ lines).
    { intros Hascii Hinv.
      rewrite (utf8_cut bytesToRead _ (isAscii_skipn start _ Hascii)), Hrest.
      apply split_app_head; exact Hinv. }
    destruct (split (utf8 chunk ++ leftover)) as [|first chunkLines]
      eqn:Echunk; [exfalso; exact (split_nonempty _ Echunk)|].
    simpl hd; simpl tl.
    destruct (Nat.leb_spec n (length (chunkLines ++ lines))) as [Hn|Hn].
    + (* enough lines gathered *)
      eexists; split; [reflexivity|]; intros Hascii Hinv Hlines.
      rewrite sliceFromEnd_pos by lia.
      assert (Hwhole : split (utf8 (content f))
                       = split (utf8 (firstn start (content f)) ++ first)
                         ++ (chunkLines ++ lines)).
      { rewrite (utf8_cut start _ Hascii).
        apply split_app_head; exact (Hsplit Hascii Hinv). }
      destruct (@tailFragments_suffix _ _ _ (@split_nonempty _) Hwhole)
        as [q ->].
      symmetry; apply lastN_app; exact Hn.
    + replace (position - bytesToRead) with start by reflexivity.
      destruct (IH fd n buffer' start first (chunkLines ++ lines) w p f)
        as (v & Hrun & Hv); auto; try (unfold start; lia).
      exists v; split; [exact Hrun|].
      intros Hascii Hinv _; exact (Hv Hascii (Hsplit Hascii Hinv) Hn).
Qed.

Lemma getLastNLines_missing filePath n w :
  files w filePath = None ->
  getLastNLines filePath n w = (Rejected ENOENT, w).
Proof.
  intros Hf; unfold getLastNLines, bind, fs_open; rewrite Hf; reflexivity.
Qed.

Lemma getLastNLines_unreadable filePath n w f :
  files w filePath = Some f -> readable f = false ->
  getLastNLines filePath n w = (Rejected EACCES, w).
Proof.
  intros Hf Hr; unfold getLastNLines, bind, fs_open; rewrite Hf, Hr.
  reflexivity.
Qed.

Section ReadableFile.

Variables (filePath : path) (w : World) (f : File).
Hypothesis Hfile : files w filePath = Some f.
Hypothesis Hreadable : readable f = true.

(** On a readable file the promise resolves and the descriptor is closed
    again; on ASCII text and for [n >= 1] the value is the last [n]
    fragments. *)
Lemma getLastNLines_readable n :
  exists v,
    getLastNLines filePath n w = (Resolved v, w)
    /\ (isAscii (content f) = true -> 1 <= n ->
        v = lastN n (tailFragments (utf8 (content f)))).
Proof.
  unfold getLastNLines, bind, fs_open; rewrite Hfile, Hreadable.
  fold (opened filePath w).
  unfold fs_fstat; rewrite lookupFd_opened.
  change (files (opened filePath w) filePath) with (files w filePath).
  rewrite Hfile.
  destruct (@readChunk_settles (S (length (content f))) (freshFd w) n
              (Buffer_alloc bufferSize) (length (content f)) [] []
              (opened filePath w) filePath f)
    as (v & Hrun & Hv); auto using lookupFd_opened.
  exists v; rewrite Hrun, close_opened; split; [reflexivity|].
  intros Hascii Hn; apply Hv; [exact Hascii | | simpl; lia].
  rewrite skipn_all; reflexivity.
Qed.

End ReadableFile.

(** Every exit path of [getLastNLines] leaves the world as it found
    it: the file is not written and no descriptor stays open. *)
Lemma getLastNLines_world filePath n w :
  snd (getLastNLines filePath n w) = w.
Proof.
  destruct (files w filePath) as [f|] eqn:Hf.
  - destruct (readable f) eqn:Hr.
    + destruct (@getLastNLines_readable _ _ _ Hf Hr n) as (v & -> & _).
      reflexivity.
    + rewrite (getLastNLines_unreadable filePath n w Hf Hr); reflexivity.
  - rewrite (getLastNLines_missing filePath n w Hf); reflexivity.
Qed.

Lemma getLastNLines_settles filePath n w :
  fst (getLastNLines filePath n w) <> Pending.
Proof.
  destruct (files w filePath) as [f|] eqn:Hf.
  - destruct (readable f) eqn:Hr.
    + destruct (@getLastNLines_readable _ _ _ Hf Hr n) as (v & -> & _).
      discriminate.
    + rewrite (getLastNLines_unreadable filePath n w Hf Hr); discriminate.
  - rewrite (getLastNLines_missing filePath n w Hf); discriminate.
Qed.

(** C1 as stated fails in four ways, whether the lines of a file are its
    newline-terminated runs or all the fragments of a full-scan split: a
    count of [0] gets the lines of the last chunk, not none, and an empty
    first line is dropped.  Moreover the newline that ends the file makes
    an empty string the last line, and a character whose bytes lie on both
    sides of a chunk edge is decoded as two replacement characters. *)
Lemma getLastNLines_not_reference :
  (catchUp (textFile ["a"; "b"]%string) 0
   <> Resolved (lastNLines_reference (textFile ["a"; "b"]%string) 0)
   /\ catchUp (textFile ["a"; "b"]%string) 0
      <> Resolved (lastFragments_reference (textFile ["a"; "b"]%string) 0))
  /\ (catchUp (textFile [""; "abc"]%string) 5
      <> Resolved (lastNLines_reference (textFile [""; "abc"]%string) 5)
      /\ catchUp (textFile [""; "abc"]%string) 5
         <> Resolved (lastFragments_reference (textFile [""; "abc"]%string) 5))
  /\ catchUp (textFile ["a"; "b"; ""]%string) 2
     <> Resolved (lastNLines_reference (textFile ["a"; "b"; ""]%string) 2)
  /\ (catchUp (xc3 :: xa9 :: repeat x78 1023) 1
      <> Resolved (lastNLines_reference (xc3 :: xa9 :: repeat x78 1023) 1)
      /\ catchUp (xc3 :: xa9 :: repeat x78 1023) 1
         <> Resolved
              (lastFragments_reference (xc3 :: xa9 :: repeat x78 1023) 1)).
Proof. vm_compute; repeat split; discriminate. Qed.

(** The values behind the differences. *)
Example getLastNLines_count_zero :
  catchUp (textFile ["a"; "b"]%string) 0 = Resolved [lit "b"]
  /\ lastNLines_reference (textFile ["a"; "b"]%string) 0 = []
  /\ lastFragments_reference (textFile ["a"; "b"]%string) 0 = [].
Proof. vm_compute; repeat split; reflexivity. Qed.

Example getLastNLines_empty_first_line :
  catchUp (textFile [""; "abc"]%string) 5 = Resolved [lit "abc"]
  /\ lastNLines_reference (textFile [""; "abc"]%string) 5
     = [lit ""; lit "abc"]
  /\ lastFragments_reference (textFile [""; "abc"]%string) 5
     = [lit ""; lit "abc"].
Proof. vm_compute; repeat split; reflexivity. Qed.

Example getLastNLines_final_newline :
  catchUp (textFile ["a"; "b"; ""]%string) 2 = Resolved [lit "b"; lit ""]
  /\ lastNLines_reference (textFile ["a"; "b"; ""]%string) 2
     = [lit "a"; lit "b"].
Proof. vm_compute; split; reflexivity. Qed.

Example getLastNLines_character_across_chunk_edge :
  catchUp (xc3 :: xa9 :: repeat x78 1023) 1
  = Resolved [REPLACEMENT :: REPLACEMENT :: repeat 120%N 1023]
  /\ lastNLines_reference (xc3 :: xa9 :: repeat x78 1023) 1
     = [233%N :: repeat 120%N 1023].
Proof. vm_compute; split; reflexivity. Qed.

Example getLastNLines_empty_file : catchUp [] 10 = Resolved [].
Proof. vm_compute; reflexivity. Qed.

(** Two files of more than one chunk: a line boundary exactly at the
    chunk edges, and a last line that runs over a chunk edge. *)
Example getLastNLines_boundary_at_chunk_edge :
  length (repeat x61 1023 ++ x0a :: repeat x62 1023 ++ [x0a])
  = 2 * bufferSize
  /\ catchUp (repeat x61 1023 ++ x0a :: repeat x62 1023 ++ [x0a]) 2
     = Resolved [repeat 98%N 1023; []].
Proof. vm_compute; split; reflexivity. Qed.

Example getLastNLines_line_across_chunk_edge :
  catchUp (repeat x78 1000 ++ x0a :: repeat x79 1500) 1
  = Resolved [repeat 121%N 1500].
Proof. vm_compute; reflexivity. Qed.

(** C9.  Two calls of [getLastNLines] in a row, with nothing else
    touching the file, settle the same way: the first call leaves the
    world as it found it, and neither promise stays pending. *)
Theorem getLastNLines_idempotent filePath n w :
  fst (getLastNLines filePath n (snd (getLastNLines filePath n w)))
  = fst (getLastNLines filePath n w)
  /\ fst (getLastNLines filePath n w) <> Pending
  /\ snd (getLastNLines filePath n w) = w.
Proof.
  rewrite getLastNLines_world.
  split; [reflexivity|].
  split; [apply getLastNLines_settles | reflexivity].
Qed.

(* ================================================================== *)
(** * The incremental reader and the debounce callback *)
(* ================================================================== *)

Lemma getNewLines_readable filePath fromPosition w f :
  files w filePath = Some f -> readable f = true ->
  getNewLines filePath fromPosition w
  = (Resolved (filter nonBlank
                 (split (utf8 (skipn fromPosition (content f))))), w).
Proof.
  intros Hf Hr; unfold getNewLines; rewrite Hf, Hr.
  destruct (skipn fromPosition (content f)); reflexivity.
Qed.

Lemma getNewLines_missing filePath fromPosition w :
  files w filePath = None ->
  getNewLines filePath fromPosition w = (Rejected ENOENT, w).
Proof. intros Hf; unfold getNewLines; rewrite Hf; reflexivity. Qed.

Lemma getNewLines_unreadable filePath fromPosition w f :
  files w filePath = Some f -> readable f = false ->
  getNewLines filePath fromPosition w = (Rejected EACCES, w).
Proof. intros Hf Hr; unfold getNewLines; rewrite Hf, Hr; reflexivity. Qed.

Lemma recordAll_nil s : recordAll [] s = s.
Proof. destruct s; unfold recordAll; simpl; rewrite app_nil_r; reflexivity. Qed.

Lemma recordAll_recordAll a b s :
  recordAll b (recordAll a s) = recordAll (a ++ b) s.
Proof. unfold recordAll; simpl; rewrite app_assoc; reflexivity. Qed.

(** The [forEach] loop sends the batch to the open sockets of
    [wss.clients], in order, and does nothing else. *)
Lemma broadcast_deliveries newLines s :
  broadcast newLines s = recordAll (deliveries newLines (clients s)) s.
Proof.
  unfold broadcast.
  generalize (clients s) as sockets; intros sockets; revert s.
  induction sockets as [|c sockets IH]; intros s; simpl.
  - symmetry; apply recordAll_nil.
  - unfold deliveries; simpl.
    destruct (isOpen (snd c)); simpl.
    + rewrite IH; unfold ws_send.
      change (record ?a s) with (recordAll [a] s).
      rewrite recordAll_recordAll; reflexivity.
    + apply IH.
Qed.

(** The debounce callback, case by case. *)
Lemma debounceCallback_cases s :
  debounceCallback s =
  match files (world s) LOG_FILE_PATH with
  | None => recordAll [StatCheck] s
  | Some f =>
      if lastFileSize s <? length (content f) then
        if readable f then
          recordAll
            (StatCheck :: ReadFrom (lastFileSize s)
               :: deliveries
                    (filter nonBlank
                       (split (utf8 (skipn (lastFileSize s) (content f)))))
                    (clients s))
            (set_lastFileSize (length (content f)) s)
        else recordAll [StatCheck; ReadFrom (lastFileSize s)] s
      else recordAll [StatCheck] s
  end.
Proof.
  unfold debounceCallback, fs_promises_stat; simpl.
  destruct (files (world s) LOG_FILE_PATH) as [f|] eqn:Hf; [|reflexivity].
  destruct (lastFileSize s <? length (content f)); [|reflexivity].
  destruct (readable f) eqn:Hr.
  - rewrite (getNewLines_readable _ (lastFileSize s) _ Hf Hr).
    rewrite broadcast_deliveries; unfold recordAll; simpl.
    rewrite <- !app_assoc; reflexivity.
  - rewrite (getNewLines_unreadable _ (lastFileSize s) _ Hf Hr).
    unfold recordAll, set_world, record; simpl.
    rewrite <- app_assoc; reflexivity.
Qed.

(** C2 (amended).  When the file is the old content followed by the
    appended content and the offset is the old size, [getNewLines]
    resolves with the non-blank fragments of the appended content split
    on the newline, in file order; the fragment after the last newline is
    among them when it is not blank.  The offset recorded by the callback
    is never below the old one, and is the new size when something was
    appended. *)
Theorem getNewLines_nonblank_fragments s before appended f :
  files (world s) LOG_FILE_PATH = Some f -> readable f = true ->
  content f = before ++ appended -> lastFileSize s = length before ->
  getNewLines LOG_FILE_PATH (lastFileSize s) (world s)
  = (Resolved (filter nonBlank (split (utf8 appended))), world s)
  /\ lastFileSize s <= lastFileSize (debounceCallback s)
  /\ (appended <> [] ->
      debounceCallback s
      = recordAll
          (StatCheck :: ReadFrom (length before)
             :: deliveries (filter nonBlank (split (utf8 appended)))
                  (clients s))
          (set_lastFileSize (length (before ++ appended)) s)).
Proof.
  intros Hf Hr Hc Ho.
  assert (Hskip : skipn (lastFileSize s) (content f) = appended).
  { rewrite Hc, Ho, skipn_app, skipn_all, Nat.sub_diag; reflexivity. }
  rewrite (getNewLines_readable _ (lastFileSize s) _ Hf Hr), Hskip.
  rewrite debounceCallback_cases, Hf, Hr, Hskip, Hc, length_app, Ho.
  split; [reflexivity|].
  destruct (Nat.ltb_spec (length before) (length before + length appended))
    as [Hlt|Hge].
  - split; [simpl; lia | reflexivity].
  - split; [simpl; lia|].
    intros Hne; destruct appended; [congruence | simpl in Hge; lia].
Qed.

Lemma getNewLines_nonblank_fragments_witness :
  files (world (set_lastFileSize 4
                  (start (worldWith (fileWith
                     (textFile ["old"; "abc"; "  "; "def"]%string))))))
        LOG_FILE_PATH
  = Some (mkFile (textFile ["old"; "abc"; "  "; "def"]%string) true)
  /\ readable (mkFile (textFile ["old"; "abc"; "  "; "def"]%string) true)
     = true
  /\ content (mkFile (textFile ["old"; "abc"; "  "; "def"]%string) true)
     = textFile ["old"; ""]%string ++ textFile ["abc"; "  "; "def"]%string
  /\ lastFileSize
       (set_lastFileSize 4
          (start (worldWith (fileWith
             (textFile ["old"; "abc"; "  "; "def"]%string)))))
     = length (textFile ["old"; ""]%string)
  /\ getNewLines LOG_FILE_PATH 4
       (worldWith (fileWith
          (textFile ["old"; "abc"; "  "; "def"]%string)))
     = (Resolved [lit "abc"; lit "def"],
        worldWith (fileWith
          (textFile ["old"; "abc"; "  "; "def"]%string))).
Proof.
  split; [reflexivity|]. split; [reflexivity|]. split; [reflexivity|].
  split; [reflexivity|].
  exact (proj1 (@getNewLines_nonblank_fragments
           (set_lastFileSize 4
              (start (worldWith (fileWith
                 (textFile ["old"; "abc"; "  "; "def"]%string)))))
           (textFile ["old"; ""]%string)
           (textFile ["abc"; "  "; "def"]%string)
           (mkFile (textFile ["old"; "abc"; "  "; "def"]%string) true)
           eq_refl eq_refl eq_refl eq_refl)).
Defined.

(** C2 as stated fails: the fragment after the last newline of the
    appended content has no newline yet and is sent all the same. *)
Lemma getNewLines_not_reference :
  tailRead (textFile ["old"; "abc"; "def"]%string) 4
  <> Resolved (newLines_reference (textFile ["abc"; "def"]%string)).
Proof. vm_compute; discriminate. Qed.

Example getNewLines_unterminated_fragment :
  tailRead (textFile ["old"; "abc"; "def"]%string) 4
  = Resolved [lit "abc"; lit "def"]
  /\ newLines_reference (textFile ["abc"; "def"]%string) = [lit "abc"].
Proof. vm_compute; split; reflexivity. Qed.

Lemma sends_app a b : sends (a ++ b) = sends a ++ sends b.
Proof. unfold sends; apply flat_map_app. Qed.

Lemma sentTo_app ws a b : sentTo ws (a ++ b) = sentTo ws a ++ sentTo ws b.
Proof.
  induction a as [|x a IH]; simpl; [reflexivity|].
  destruct x as [| |ws' m]; auto.
  destruct (ws' =? ws); simpl; congruence.
Qed.

(** A socket that is not in [wss.clients] gets nothing from the loop. *)
Lemma sentTo_deliveries_absent ws newLines sockets :
  ~ In ws (map fst sockets) ->
  sentTo ws (deliveries newLines sockets) = []
  /\ existsb (fun c => (fst c =? ws) && isOpen (snd c)) sockets = false.
Proof.
  induction sockets as [|c sockets IH]; simpl; intros Hnot; [auto|].
  assert (Hc : (fst c =? ws) = false) by (apply Nat.eqb_neq; tauto).
  destruct IH as [IH1 IH2]; [tauto|].
  rewrite Hc, IH2; split; [|reflexivity].
  unfold deliveries in *; cbn [filter].
  destruct (isOpen (snd c)); cbn [map sentTo]; [rewrite Hc|]; exact IH1.
Qed.

(** With every socket once in the set, an open one gets the batch once
    and any other socket gets nothing. *)
Lemma sentTo_deliveries ws newLines sockets :
  NoDup (map fst sockets) ->
  sentTo ws (deliveries newLines sockets)
  = if existsb (fun c => (fst c =? ws) && isOpen (snd c)) sockets
    then [linesMessage newLines] else [].
Proof.
  induction sockets as [|c sockets IH]; intros Hnd; [reflexivity|].
  cbn [map] in Hnd; inversion Hnd as [|x xs Hx Hxs]; subst.
  specialize (IH Hxs).
  destruct (@sentTo_deliveries_absent (fst c) newLines sockets Hx)
    as [E1 E2].
  unfold deliveries in *; cbn [existsb filter].
  destruct (Nat.eqb_spec (fst c) ws) as [E|Hne];
    destruct (isOpen (snd c)); cbn [map sentTo andb orb fst].
  - subst ws; rewrite Nat.eqb_refl, E1; reflexivity.
  - subst ws; rewrite E1, E2; reflexivity.
  - apply Nat.eqb_neq in Hne; rewrite Hne; exact IH.
  - exact IH.
Qed.

(** C6 (amended).  The broadcast loop sends the batch, whether it is
    empty or not, exactly once to every socket that is in [wss.clients]
    and open, and never to another socket: one that is closing is passed
    over without stopping the loop, and one that was closed before is no
    longer in the set.  The loop changes nothing but the trace. *)
Theorem broadcast_fan_out newLines s ws :
  NoDup (map fst (clients s)) ->
  sentTo ws (trace (broadcast newLines s))
  = sentTo ws (trace s)
    ++ (if isOpenClient ws s then [linesMessage newLines] else [])
  /\ sentTo ws (trace (broadcast newLines (onClose ws s)))
     = sentTo ws (trace s)
  /\ broadcast newLines s = recordAll (deliveries newLines (clients s)) s.
Proof.
  intros Hnd; rewrite !broadcast_deliveries; simpl.
  rewrite !sentTo_app, (@sentTo_deliveries ws newLines _ Hnd).
  split; [reflexivity|]; split; [|reflexivity].
  destruct (@sentTo_deliveries_absent ws newLines
              (filter (fun c => negb (fst c =? ws)) (clients s)))
    as [-> _]; [|apply app_nil_r].
  rewrite in_map_iff; intros ([ws' r] & Hfst & Hin); simpl in Hfst; subst.
  apply filter_In in Hin; simpl in Hin.
  rewrite Nat.eqb_refl in Hin; destruct Hin; discriminate.
Qed.

Lemma broadcast_fan_out_witness :
  NoDup (map fst (clients threeSockets))
  /\ clients threeSockets = [(0, OPEN); (1, CLOSING); (2, OPEN)]
  /\ sentTo 2 (trace (broadcast [lit "line"] threeSockets))
     = [linesMessage [lit "hello"; lit ""]; linesMessage [lit "line"]]
  /\ sentTo 1 (trace (broadcast [lit "line"] threeSockets))
     = [linesMessage [lit "hello"; lit ""]].
Proof.
  assert (H : NoDup (map fst (clients threeSockets))).
  { vm_compute; repeat constructor; simpl; intuition discriminate. }
  split; [exact H|]; split; [reflexivity|]; split.
  - exact (proj1 (@broadcast_fan_out [lit "line"] threeSockets 2 H)).
  - exact (proj1 (@broadcast_fan_out [lit "line"] threeSockets 1 H)).
Defined.

(** C6 as stated fails where it says that nothing is delivered for an
    empty batch: a blank line is appended, [getNewLines] resolves with no
    line, and the socket is sent the empty batch (the first message of the
    run is its catch-up). *)
Lemma broadcast_sends_empty_batch :
  trace blankAppendRun
  = [Send 0 (linesMessage [lit "x"; lit ""]);
     StatCheck; ReadFrom 2; Send 0 (linesMessage [])]
  /\ sentTo 0 (trace (broadcast [] threeSockets))
     <> sentTo 0 (trace (broadcast_reference [] threeSockets)).
Proof. vm_compute; split; [reflexivity | discriminate]. Qed.

Example linesMessage_empty :
  linesMessage [] = lit "{" ++ DQUOTE :: lit "lines" ++ DQUOTE :: lit ":[]}".
Proof. vm_compute; reflexivity. Qed.

(** ** A file that has not grown *)

Lemma debounceCallback_no_growth s :
  sizeAtMost (lastFileSize s) (files (world s) LOG_FILE_PATH) = true ->
  debounceCallback s = recordAll [StatCheck] s.
Proof.
  intros H; rewrite debounceCallback_cases.
  destruct (files (world s) LOG_FILE_PATH) as [f|]; [|reflexivity].
  simpl in H; apply Nat.leb_le in H.
  destruct (Nat.ltb_spec (lastFileSize s) (length (content f)));
    [lia | reflexivity].
Qed.

Lemma debounceCallback_monotone s :
  lastFileSize s <= lastFileSize (debounceCallback s).
Proof.
  rewrite debounceCallback_cases.
  destruct (files (world s) LOG_FILE_PATH) as [f|]; [|simpl; lia].
  destruct (Nat.ltb_spec (lastFileSize s) (length (content f)));
    [|simpl; lia].
  destruct (readable f); simpl; lia.
Qed.

(** While the file stays within the recorded size, firing timers
    neither moves the offset nor sends anything. *)
Lemma callbacks_no_growth (due : list (nat * nat)) : forall s,
  sizeAtMost (lastFileSize s) (files (world s) LOG_FILE_PATH) = true ->
  let s' := fold_left (fun s _ => debounceCallback s) due s in
  lastFileSize s' = lastFileSize s /\ world s' = world s
  /\ sends (trace s') = sends (trace s).
Proof.
  induction due as [|d due IH]; intros s H; simpl; [auto|].
  rewrite (debounceCallback_no_growth s H).
  destruct (IH (recordAll [StatCheck] s) H) as (E1 & E2 & E3).
  rewrite E1, E2, E3; simpl; rewrite sends_app, app_nil_r; auto.
Qed.

Lemma fireDue_no_growth t s :
  sizeAtMost (lastFileSize s) (files (world s) LOG_FILE_PATH) = true ->
  lastFileSize (fireDue t s) = lastFileSize s
  /\ world (fireDue t s) = world s
  /\ sends (trace (fireDue t s)) = sends (trace s).
Proof.
  intros H; unfold fireDue.
  exact (callbacks_no_growth (filter (isDue t) (timers s))
           (set_now (Nat.max (now s) t)
              (set_timers
                 (filter (fun timer => negb (isDue t timer)) (timers s)) s))
           H).
Qed.

(** The watch listener touches the timers and nothing else. *)
Lemma onWatch_fields eventType s :
  lastFileSize (onWatch eventType s) = lastFileSize s
  /\ world (onWatch eventType s) = world s
  /\ trace (onWatch eventType s) = trace s
  /\ clients (onWatch eventType s) = clients s.
Proof.
  destruct eventType; unfold onWatch, setTimeout, clearTimeout;
    destruct (debounceTimeout s); simpl; auto.
Qed.

Lemma run_no_growth inputs : forall s,
  sizeAtMost (lastFileSize s) (files (world s) LOG_FILE_PATH) = true ->
  forallb (fun i => staysWithin (lastFileSize s) (snd i)) inputs = true ->
  let s' := run inputs s in
  lastFileSize s' = lastFileSize s
  /\ sizeAtMost (lastFileSize s) (files (world s') LOG_FILE_PATH) = true
  /\ sends (trace s') = sends (trace s).
Proof.
  induction inputs as [|[t i] inputs IH]; intros s H Hin; simpl; [auto|].
  simpl in Hin; apply andb_true_iff in Hin; destruct Hin as [Hi Hin].
  destruct (fireDue_no_growth t s H) as (E1 & E2 & E3).
  assert (Hstep : lastFileSize (handle i (fireDue t s)) = lastFileSize s
            /\ sizeAtMost (lastFileSize s)
                 (files (world (handle i (fireDue t s))) LOG_FILE_PATH)
               = true
            /\ sends (trace (handle i (fireDue t s))) = sends (trace s)).
  { destruct i as [| | |eventType|file|]; simpl in Hi; try discriminate;
      cbn [handle].
    - destruct (onWatch_fields eventType (fireDue t s)) as (-> & -> & -> & _).
      rewrite E1, E2, E3; auto.
    - unfold set_world; cbn [lastFileSize world trace].
      rewrite E1, E3; auto. }
  destruct Hstep as (S1 & S2 & S3).
  destruct (IH (handle i (fireDue t s))) as (R1 & R2 & R3).
  - rewrite S1; exact S2.
  - rewrite S1; exact Hin.
  - rewrite R1, R3, S1, S3; rewrite S1 in R2; auto.
Qed.

(** C5.  When the [stat] or the read of a debounce callback fails, the
    callback changes no variable and sends nothing; the failure is
    swallowed.  The next callback that finds the file larger reads from
    the same offset. *)
Theorem failed_cycle_changes_nothing s :
  (exists e, fs_promises_stat LOG_FILE_PATH (world s) = inl e)
  \/ (exists e,
       fst (getNewLines LOG_FILE_PATH (lastFileSize s) (world s))
       = Rejected e) ->
  (exists attempted,
      debounceCallback s = recordAll attempted s /\ sends attempted = [])
  /\ lastFileSize (debounceCallback s) = lastFileSize s
  /\ sends (trace (debounceCallback s)) = sends (trace s)
  /\ forall file,
       readable file = true -> lastFileSize s < length (content file) ->
       exists sent,
         trace (debounceCallback
                  (handle (FileChanged (Some file)) (debounceCallback s)))
         = trace (debounceCallback s)
           ++ StatCheck :: ReadFrom (lastFileSize s) :: sent.
Proof.
  intros Hfail.
  assert (Hcase : debounceCallback s = recordAll [StatCheck] s
                  \/ debounceCallback s
                     = recordAll [StatCheck; ReadFrom (lastFileSize s)] s).
  { rewrite debounceCallback_cases.
    destruct (files (world s) LOG_FILE_PATH) as [f|] eqn:Hf; [|auto].
    destruct (lastFileSize s <? length (content f)); [|auto].
    destruct (readable f) eqn:Hr; [|auto].
    exfalso; destruct Hfail as [[e He]|[e He]].
    - unfold fs_promises_stat in He; rewrite Hf in He; discriminate.
    - rewrite (getNewLines_readable _ (lastFileSize s) _ Hf Hr) in He.
      discriminate. }
  assert (Hsame : exists attempted,
             debounceCallback s = recordAll attempted s
             /\ sends attempted = [])
    by (destruct Hcase as [E|E]; eexists; (split; [exact E | reflexivity])).
  destruct Hsame as (attempted & E & Hnone).
  split; [exists attempted; auto|].
  rewrite E; simpl; rewrite sends_app, Hnone, app_nil_r.
  split; [reflexivity|]; split; [reflexivity|].
  intros file Hr Hlt.
  rewrite debounceCallback_cases; simpl; rewrite Hr.
  destruct (Nat.ltb_spec (lastFileSize s) (length (content file))); [|lia].
  eexists; reflexivity.
Qed.

Lemma failed_cycle_changes_nothing_witness :
  ((exists e, fs_promises_stat LOG_FILE_PATH (world fileGone) = inl e)
   \/ (exists e,
        fst (getNewLines LOG_FILE_PATH (lastFileSize fileGone)
               (world fileGone))
        = Rejected e))
  /\ lastFileSize (debounceCallback fileGone) = 3
  /\ sends (trace (debounceCallback fileGone)) = [].
Proof.
  assert (H : exists e,
             fs_promises_stat LOG_FILE_PATH (world fileGone) = inl e)
    by (exists ENOENT; reflexivity).
  split; [left; exact H|].
  destruct (@failed_cycle_changes_nothing fileGone (or_introl H))
    as (_ & E1 & E2 & _).
  split; [exact E1 | exact E2].
Defined.

(** Case analysis on what a debounce callback finds: no file, a file that
    has not grown, a grown file that cannot be read, a grown file that
    can. *)
Ltac callback_cases s :=
  rewrite (debounceCallback_cases s);
  destruct (files (world s) LOG_FILE_PATH) as [?f|];
  [ destruct (lastFileSize s <? length (content _));
    [ destruct (readable _) | ] | ].

(* ================================================================== *)
(** * The handlers, one by one *)
(* ================================================================== *)

(** The callback touches [lastFileSize] and the trace only. *)
Lemma debounceCallback_fields s :
  debounceTimeout (debounceCallback s) = debounceTimeout s
  /\ timers (debounceCallback s) = timers s
  /\ nextTimer (debounceCallback s) = nextTimer s
  /\ now (debounceCallback s) = now s
  /\ clients (debounceCallback s) = clients s
  /\ nextWs (debounceCallback s) = nextWs s
  /\ world (debounceCallback s) = world s.
Proof.
  callback_cases s; simpl; tauto.
Qed.

Lemma filter_isStatCheck_deliveries newLines sockets :
  filter isStatCheck (deliveries newLines sockets) = [].
Proof.
  unfold deliveries.
  induction (filter (fun c => isOpen (snd c)) sockets); simpl; auto.
Qed.

(** Every run of the callback is one size check. *)
Lemma cycles_debounceCallback s :
  cycles (debounceCallback s) = S (cycles s).
Proof.
  unfold cycles; callback_cases s;
    simpl; rewrite filter_app, length_app; simpl;
    rewrite ?filter_isStatCheck_deliveries; simpl; lia.
Qed.

(** The connection listener: the new socket joins the set and is sent
    one message. *)
Lemma onConnection_cases s :
  onConnection s
  = recordAll
      [Send (nextWs s)
         match fst (getLastNLines LOG_FILE_PATH 10 (world s)) with
         | Resolved lines => linesMessage lines
         | _ => errorMessage
         end]
      (set_nextWs (S (nextWs s))
         (set_clients (clients s ++ [(nextWs s, OPEN)]) s)).
Proof.
  unfold onConnection; simpl.
  pose proof (getLastNLines_world LOG_FILE_PATH 10 (world s)) as Hw.
  pose proof (@getLastNLines_settles LOG_FILE_PATH 10 (world s)) as Hs.
  destruct (getLastNLines LOG_FILE_PATH 10 (world s)) as [r w'].
  simpl in Hw, Hs; subst w'.
  destruct r; [reflexivity | reflexivity | congruence].
Qed.

(** A file of fifteen lines, each ended by a newline: the catch-up batch
    is the last nine of them and an empty string. *)
Example catch_up_of_fifteen_lines :
  catchUp (textFile ["l1"; "l2"; "l3"; "l4"; "l5"; "l6"; "l7"; "l8";
                     "l9"; "l10"; "l11"; "l12"; "l13"; "l14"; "l15";
                     ""]%string) 10
  = Resolved (map lit ["l7"; "l8"; "l9"; "l10"; "l11"; "l12"; "l13"; "l14";
                       "l15"; ""]%string).
Proof. vm_compute; reflexivity. Qed.

(** The top level needs the file. *)
Example main_needs_the_file :
  main (worldWith None) = None
  /\ main (worldWith (fileWith [])) = Some (start (worldWith (fileWith []))).
Proof. split; reflexivity. Qed.

(** Once the top level has run, the server goes on after a failed initial
    [stat]: the socket that connects while the file is absent gets the
    error message, and the two lines written later are broadcast from
    offset [0]. *)
Example server_runs_after_failed_initial_stat :
  trace removedThenCreatedRun
  = [Send 0 errorMessage; StatCheck; ReadFrom 0;
     Send 0 (linesMessage [lit "line1"; lit "line2"])]
  /\ lastFileSize removedThenCreatedRun = 12.
Proof. vm_compute; split; reflexivity. Qed.

(* ================================================================== *)
(** * Runs of the event loop *)
(* ================================================================== *)

Lemma callbacks_fields (due : list (nat * nat)) : forall s,
  let s' := fold_left (fun s _ => debounceCallback s) due s in
  debounceTimeout s' = debounceTimeout s /\ timers s' = timers s
  /\ nextTimer s' = nextTimer s /\ now s' = now s
  /\ clients s' = clients s /\ nextWs s' = nextWs s
  /\ cycles s' = length due + cycles s.
Proof.
  induction due as [|d due IH]; intros s; simpl; [tauto|].
  destruct (IH (debounceCallback s)) as (E1 & E2 & E3 & E4 & E5 & E6 & E7).
  destruct (debounceCallback_fields s) as (D1 & D2 & D3 & D4 & D5 & D6 & _).
  rewrite E1, E2, E3, E4, E5, E6, E7, cycles_debounceCallback.
  repeat split; auto; lia.
Qed.

(** What the clock reaching [t] does to the timers and the clock. *)
Lemma fireDue_fields t s :
  debounceTimeout (fireDue t s) = debounceTimeout s
  /\ timers (fireDue t s)
     = filter (fun timer => negb (isDue t timer)) (timers s)
  /\ nextTimer (fireDue t s) = nextTimer s
  /\ now (fireDue t s) = Nat.max (now s) t
  /\ clients (fireDue t s) = clients s
  /\ nextWs (fireDue t s) = nextWs s
  /\ cycles (fireDue t s)
     = length (filter (isDue t) (timers s)) + cycles s.
Proof.
  unfold fireDue.
  exact (callbacks_fields (filter (isDue t) (timers s))
           (set_now (Nat.max (now s) t)
              (set_timers
                 (filter (fun timer => negb (isDue t timer)) (timers s)) s))).
Qed.

(** A notification: the pending timer, if any, is cancelled and a new
    one is set, due 100 ms from now. *)
Lemma onWatch_change_timers s :
  tidy s ->
  timers (onWatch change s) = [(nextTimer s, now s + 100)]
  /\ debounceTimeout (onWatch change s) = Some (nextTimer s)
  /\ nextTimer (onWatch change s) = S (nextTimer s)
  /\ now (onWatch change s) = now s.
Proof.
  intros Ht; unfold onWatch, setTimeout.
  assert (Hclear : timers (clearTimeout (debounceTimeout s) s) = []).
  { unfold clearTimeout.
    destruct (debounceTimeout s) as [h|] eqn:Eh; simpl.
    - apply filter_none; intros timer Hin.
      specialize (Ht timer Hin); rewrite Eh in Ht.
      injection Ht as ->; rewrite Nat.eqb_refl; reflexivity.
    - destruct (timers s) as [|timer rest] eqn:Et; [reflexivity|].
      assert (Hin : In timer (timers s)) by (rewrite Et; left; reflexivity).
      specialize (Ht timer Hin); congruence. }
  simpl; rewrite Hclear.
  unfold clearTimeout; destruct (debounceTimeout s); simpl; auto.
Qed.

(** The state after the notifications of a burst that follow its first:
    still one timer pending, due 100 ms after the last notification, and
    no size check made. *)
Lemma burst_keeps_one_timer (later : list nat) : forall s h previous,
  timers s = [(h, previous + 100)] -> debounceTimeout s = Some h ->
  now s = previous -> burstAfter previous later = true ->
  let s' := run (notifications later) s in
  (exists h', timers s' = [(h', last later previous + 100)]
              /\ debounceTimeout s' = Some h')
  /\ now s' = last later previous
  /\ cycles s' = cycles s.
Proof.
  induction later as [|t later IH]; intros s h previous Ht Hd Hn Hb.
  - simpl; eauto.
  - cbn [burstAfter] in Hb.
    apply andb_true_iff in Hb; destruct Hb as [Hb Hrest].
    apply andb_true_iff in Hb; destruct Hb as [Hle Hlt].
    apply Nat.leb_le in Hle; apply Nat.ltb_lt in Hlt.
    cbn [notifications map run handle].
    destruct (fireDue_fields t s) as (F1 & F2 & F3 & F4 & _ & _ & F7).
    assert (Hnodue : isDue t (h, previous + 100) = false)
      by (apply Nat.leb_gt; simpl; lia).
    rewrite Ht in F2, F7; simpl in F2, F7; rewrite Hnodue in F2, F7.
    simpl in F2, F7.
    assert (Htidy : tidy (fireDue t s)).
    { intros timer Hin; rewrite F2 in Hin; rewrite F1, Hd.
      destruct Hin as [<-|[]]; reflexivity. }
    destruct (onWatch_change_timers Htidy) as (W1 & W2 & _ & W4).
    destruct (onWatch_fields change (fireDue t s)) as (_ & _ & W5 & _).
    rewrite F4, Hn, Nat.max_r in W1, W4 by lia.
    destruct (IH (onWatch change (fireDue t s)) _ t W1 W2 W4 Hrest)
      as (I1 & I2 & I3).
    replace (last (t :: later) previous) with (last later t)
      by (clear; revert t; induction later; intros; simpl in *;
          [reflexivity | destruct later; auto]).
    fold (notifications later).
    split; [exact I1|]; split; [exact I2|].
    rewrite I3; unfold cycles; rewrite W5; exact F7.
Qed.

(** C3.  A burst of one or more change notifications, each less than
    100 ms after the one before, makes no size check while it lasts and
    exactly one once 100 ms have passed since its last notification:
    every notification cancels the timer set by the one before, and only
    the last timer fires.  Afterwards no timer is pending. *)
Theorem burst_settles_in_one_cycle s first later settled :
  tidy s -> now s <= first ->
  forallb (fun timer => first <? snd timer) (timers s) = true ->
  burstAfter first later = true ->
  last later first + 100 <= settled ->
  cycles (run (notifications (first :: later)) s) = cycles s
  /\ cycles (fireDue settled (run (notifications (first :: later)) s))
     = S (cycles s)
  /\ timers (fireDue settled (run (notifications (first :: later)) s)) = [].
Proof.
  intros Htidy Hnow Hpending Hburst Hsettled.
  rewrite forallb_forall in Hpending.
  change (run (notifications (first :: later)) s)
    with (run (notifications later) (onWatch change (fireDue first s))).
  destruct (fireDue_fields first s) as (F1 & F2 & _ & F4 & _ & _ & F7).
  assert (Hnone : filter (isDue first) (timers s) = []).
  { apply filter_none; intros timer Hin.
    specialize (Hpending timer Hin); apply Nat.ltb_lt in Hpending.
    apply Nat.leb_gt; exact Hpending. }
  assert (Hkept : filter (fun timer => negb (isDue first timer)) (timers s)
                  = timers s).
  { apply filter_all; intros timer Hin.
    specialize (Hpending timer Hin); apply Nat.ltb_lt in Hpending.
    apply negb_true_iff, Nat.leb_gt; exact Hpending. }
  rewrite Hnone in F7; rewrite Hkept in F2; simpl in F7.
  assert (Htidy' : tidy (fireDue first s))
    by (intros timer Hin; rewrite F1; rewrite F2 in Hin; auto).
  destruct (onWatch_change_timers Htidy') as (W1 & W2 & _ & W4).
  destruct (onWatch_fields change (fireDue first s)) as (_ & _ & W5 & _).
  rewrite F4, Nat.max_r in W1, W4 by exact Hnow.
  destruct (burst_keeps_one_timer later (onWatch change (fireDue first s))
              W1 W2 W4 Hburst)
    as ((h' & B1 & _) & _ & B3).
  assert (Hcycles : cycles (run (notifications later)
                              (onWatch change (fireDue first s)))
                    = cycles s)
    by (rewrite B3; unfold cycles; rewrite W5; exact F7).
  split; [exact Hcycles|].
  destruct (fireDue_fields settled
              (run (notifications later) (onWatch change (fireDue first s))))
    as (_ & G2 & _ & _ & _ & _ & G7).
  assert (Hdue : isDue settled (h', last later first + 100) = true)
    by (apply Nat.leb_le; exact Hsettled).
  rewrite B1 in G2, G7; cbn [filter] in G2, G7; rewrite Hdue in G2, G7.
  rewrite G7, Hcycles; split; [reflexivity | exact G2].
Qed.

Lemma burst_settles_in_one_cycle_witness :
  tidy threeBytes /\ now threeBytes <= 10
  /\ forallb (fun timer => 10 <? snd timer) (timers threeBytes) = true
  /\ burstAfter 10 [50; 120; 219] = true
  /\ last [50; 120; 219] 10 + 100 <= 319
  /\ cycles (run (notifications [10; 50; 120; 219]) threeBytes) = 0
  /\ cycles (fireDue 319 (run (notifications [10; 50; 120; 219]) threeBytes))
     = 1.
Proof.
  assert (Ht : tidy threeBytes) by (intros timer []).
  assert (Hn : now threeBytes <= 10) by (simpl; lia).
  assert (Hs : last [50; 120; 219] 10 + 100 <= 319) by (simpl; lia).
  split; [exact Ht|]. split; [exact Hn|]. split; [reflexivity|].
  split; [reflexivity|]. split; [exact Hs|].
  destruct (@burst_settles_in_one_cycle threeBytes 10 [50; 120; 219] 319
              Ht Hn eq_refl eq_refl Hs) as (E1 & E2 & _).
  split; [exact E1 | exact E2].
Defined.

(** ** What every reachable state satisfies *)

Lemma NoDup_map_fst_filter {A B : Type} (f : A * B -> bool) l :
  NoDup (map fst l) -> NoDup (map fst (filter f l)).
Proof.
  induction l as [|x l IH]; simpl; intros H; [exact H|].
  inversion H as [|y ys Hy Hys]; subst.
  destruct (f x); simpl; [constructor|]; auto.
  intros Hin; apply Hy.
  apply in_map_iff in Hin; destruct Hin as (z & Hz & Hin).
  apply filter_In in Hin; apply in_map_iff; exists z; tauto.
Qed.

Lemma handle_wellFormed i s : wellFormed s -> wellFormed (handle i s).
Proof.
  intros (Ht & Hnd & Hlt).
  destruct i as [|ws|ws|eventType|file|]; cbn [handle].
  - (* a new socket: its number has never been used *)
    rewrite onConnection_cases; unfold wellFormed, tidy; simpl.
    split; [exact Ht|]; split.
    + rewrite map_app; simpl.
      apply NoDup_app; [exact Hnd | repeat constructor; intros [] |].
      intros ws Hin [<-|[]].
      apply in_map_iff in Hin; destruct Hin as (c & Hc & Hin).
      rewrite Forall_forall in Hlt; specialize (Hlt c Hin); lia.
    + apply Forall_app; split; [|repeat constructor].
      eapply Forall_impl; [|exact Hlt]; simpl; intros; lia.
  - unfold wellFormed, tidy, onClosing; simpl.
    split; [exact Ht|].
    assert (Hsame : map fst (map (fun c => if fst c =? ws
                                           then (ws, CLOSING) else c)
                               (clients s))
                    = map fst (clients s)).
    { rewrite map_map; apply map_ext; intros c.
      destruct (Nat.eqb_spec (fst c) ws); simpl; auto. }
    split; [rewrite Hsame; exact Hnd|].
    rewrite Forall_forall in *; intros c Hin.
    apply in_map_iff in Hin; destruct Hin as (c0 & <- & Hin).
    specialize (Hlt c0 Hin).
    destruct (Nat.eqb_spec (fst c0) ws); simpl; lia.
  - unfold wellFormed, tidy, onClose; simpl.
    split; [exact Ht|]; split; [apply NoDup_map_fst_filter, Hnd|].
    rewrite Forall_forall in *; intros c Hin.
    apply filter_In in Hin; apply Hlt; tauto.
  - destruct eventType; [split; [exact Ht | split; assumption]|].
    destruct (onWatch_change_timers Ht) as (W1 & W2 & _).
    unfold wellFormed, tidy; rewrite W1, W2.
    split; [intros timer [<-|[]]; reflexivity|].
    unfold onWatch, setTimeout, clearTimeout.
    destruct (debounceTimeout s); simpl; auto.
  - split; [exact Ht | split; assumption].
  - unfold onInitialStat.
    destruct (fs_promises_stat LOG_FILE_PATH (world s));
      (split; [exact Ht | split; assumption]).
Qed.

Lemma fireDue_wellFormed t s : wellFormed s -> wellFormed (fireDue t s).
Proof.
  intros (Ht & Hnd & Hlt).
  destruct (fireDue_fields t s) as (F1 & F2 & _ & _ & F5 & F6 & _).
  unfold wellFormed, tidy; rewrite F1, F2, F5, F6.
  split; [|auto].
  intros timer Hin; apply filter_In in Hin; apply Ht; tauto.
Qed.

(** In every state the server reaches from its start, at most the timer
    held by [debounceTimeout] is pending and no socket is twice in
    [wss.clients]. *)
Lemma run_wellFormed inputs : forall s,
  wellFormed s -> wellFormed (run inputs s).
Proof.
  induction inputs as [|[t i] inputs IH]; intros s H; simpl; [exact H|].
  apply IH, handle_wellFormed, fireDue_wellFormed, H.
Qed.

Lemma start_wellFormed w : wellFormed (start w).
Proof.
  split; [intros timer []|]; split; constructor.
Qed.

(** ** The messages of a run *)

Lemma shaped_deliveries newLines sockets :
  Forall shaped (deliveries newLines sockets).
Proof.
  unfold deliveries; apply Forall_forall; intros a Hin.
  apply in_map_iff in Hin; destruct Hin as (c & <- & _).
  left; exists newLines; reflexivity.
Qed.

Lemma debounceCallback_shaped s :
  Forall shaped (trace s) -> Forall shaped (trace (debounceCallback s)).
Proof.
  intros H; callback_cases s;
    simpl; apply Forall_app; split; auto;
    repeat (constructor; try exact I).
  apply shaped_deliveries.
Qed.

Lemma fireDue_shaped t s :
  Forall shaped (trace s) -> Forall shaped (trace (fireDue t s)).
Proof.
  unfold fireDue; intros H.
  set (s0 := set_now _ _).
  assert (H0 : Forall shaped (trace s0)) by exact H.
  clearbody s0; revert s0 H0.
  induction (filter (isDue t) (timers s)) as [|d due IH]; intros s0 H0;
    simpl; [exact H0|].
  apply IH, debounceCallback_shaped, H0.
Qed.

Lemma handle_shaped i s :
  Forall shaped (trace s) -> Forall shaped (trace (handle i s)).
Proof.
  intros H; destruct i as [|ws|ws|eventType|file|]; cbn [handle];
    try exact H.
  - rewrite onConnection_cases; simpl.
    apply Forall_app; split; [exact H|].
    apply Forall_cons; [|apply Forall_nil]; unfold shaped.
    destruct (fst (getLastNLines LOG_FILE_PATH 10 (world s)));
      [left; eexists; reflexivity | right; reflexivity
       | right; reflexivity].
  - destruct (onWatch_fields eventType s) as (_ & _ & -> & _); exact H.
  - unfold onInitialStat.
    destruct (fs_promises_stat LOG_FILE_PATH (world s)); exact H.
Qed.

Lemma run_shaped inputs : forall s,
  Forall shaped (trace s) -> Forall shaped (trace (run inputs s)).
Proof.
  induction inputs as [|[t i] inputs IH]; intros s H; simpl; [exact H|].
  apply IH, handle_shaped, fireDue_shaped, H.
Qed.

(** The two shapes cannot be mistaken for one another. *)
Lemma shapes_differ lines :
  JSON_stringify (LinesPayload lines)
  <> JSON_stringify (ErrorPayload (lit "Unable to read file")).
Proof. unfold JSON_stringify, quote; simpl; discriminate. Qed.

(** C10.  Whatever the inputs, every message the server has sent is
    [JSON.stringify] of an object [{ lines }] holding an array of strings
    or of the object [{ error: 'Unable to read file' }], and never
    both. *)
Theorem every_message_has_one_of_two_shapes inputs w t ws message :
  In (Send ws message) (trace (fireDue t (run inputs (start w)))) ->
  ((exists lines, message = JSON_stringify (LinesPayload lines))
   \/ message = JSON_stringify (ErrorPayload (lit "Unable to read file")))
  /\ ~ ((exists lines, message = JSON_stringify (LinesPayload lines))
        /\ message
           = JSON_stringify (ErrorPayload (lit "Unable to read file"))).
Proof.
  intros Hin.
  assert (H : Forall shaped (trace (fireDue t (run inputs (start w)))))
    by (apply fireDue_shaped, run_shaped; constructor).
  rewrite Forall_forall in H; specialize (H _ Hin); simpl in H.
  split; [exact H|].
  intros [[lines ->] Herr]; exact (shapes_differ Herr).
Qed.

Lemma every_message_has_one_of_two_shapes_witness :
  In (Send 0 errorMessage)
     (trace (fireDue 500
               (run [(0, InitialStatSettles); (5, FileChanged None);
                     (10, Connection)]
                  (start (worldWith (fileWith [x61]))))))
  /\ ((exists lines, errorMessage = JSON_stringify (LinesPayload lines))
      \/ errorMessage
         = JSON_stringify (ErrorPayload (lit "Unable to read file"))).
Proof.
  assert (H : In (Send 0 errorMessage)
                (trace (fireDue 500
                          (run [(0, InitialStatSettles); (5, FileChanged None);
                                (10, Connection)]
                             (start (worldWith (fileWith [x61])))))))
    by (left; reflexivity).
  split; [exact H|].
  exact (proj1 (@every_message_has_one_of_two_shapes
                  [(0, InitialStatSettles); (5, FileChanged None);
                   (10, Connection)]
                  (worldWith (fileWith [x61])) 500 0 errorMessage H)).
Defined.

(* ================================================================== *)
(** * Further properties of the readers *)
(* ================================================================== *)

Lemma split_hasNoNewline (s : text) :
  Forall (fun line => hasNoNewline line = true) (split s).
Proof.
  induction s as [|c s IH]; simpl; [repeat constructor|].
  destruct (N.eqb c LF) eqn:Ec; [constructor; [reflexivity | exact IH]|].
  destruct (split s) as [|h t]; [repeat constructor; simpl; rewrite Ec; auto|].
  inversion IH as [|x xs Hh Ht]; subst.
  constructor; [simpl; rewrite Ec; exact Hh | exact Ht].
Qed.

Lemma Forall_tl {A : Type} (P : A -> Prop) (l : list A) :
  Forall P l -> Forall P (tl l).
Proof. intros H; destruct H; simpl; [constructor | assumption]. Qed.

Lemma Forall_skipn_of {A : Type} (P : A -> Prop) (k : nat) (l : list A) :
  Forall P l -> Forall P (skipn k l).
Proof.
  intros H; rewrite <- (firstn_skipn k l) in H.
  apply Forall_app in H; tauto.
Qed.

Lemma Forall_sliceFromEnd {A : Type} (P : A -> Prop) (n : nat) (l : list A) :
  Forall P l -> Forall P (sliceFromEnd n l).
Proof. destruct n; simpl; [auto | apply Forall_skipn_of]. Qed.

Lemma sliceFromEnd_length {A : Type} (n : nat) (l : list A) :
  1 <= n -> length (sliceFromEnd n l) <= n.
Proof.
  intros Hn; rewrite sliceFromEnd_pos by exact Hn.
  rewrite lastN_length; lia.
Qed.

(** Whatever the bytes of the file, the loop of [readChunk] resolves with
    [slice(-n)] of an array of strings without newlines. *)
Lemma readChunk_shape fuel : forall fd n buffer position leftover lines w p f,
  lookupFd fd w = Some p -> files w p = Some f ->
  position <= length (content f) -> position < fuel ->
  hasNoNewline leftover = true ->
  Forall (fun line => hasNoNewline line = true) lines ->
  exists gathered,
    readChunk fuel fd n buffer position leftover lines w
    = (Resolved (sliceFromEnd n gathered), snd (fs_close fd w))
    /\ Forall (fun line => hasNoNewline line = true) gathered.
Proof.
  induction fuel as [|fuel IH];
    intros fd n buffer position leftover lines w p f Hfd Hf Hpos Hfuel Hleft
           Hlines; [lia|].
  rewrite readChunk_round; cbv zeta.
  pose proof bufferSize_pos as HB.
  destruct (Nat.leb_spec (Nat.min position bufferSize) 0) as [Hz|Hz].
  - eexists; split; [reflexivity|].
    destruct (truthy leftover); [constructor|]; assumption.
  - set (bytesToRead := Nat.min position bufferSize) in *.
    set (start := position - bytesToRead).
    destruct (@fs_read_inside fd buffer bytesToRead start w p f Hfd Hf)
      as (buffer' & -> & Hchunk); [unfold start; lia|].
    pose proof (split_hasNoNewline
                  (Buffer_toString buffer' bytesToRead ++ leftover)) as Hs.
    destruct (split (Buffer_toString buffer' bytesToRead ++ leftover))
      as [|first chunkLines] eqn:Echunk;
      [exfalso; exact (split_nonempty _ Echunk)|].
    inversion Hs as [|x xs Hfirst Hrest]; subst.
    simpl hd; simpl tl.
    assert (Hall : Forall (fun line => hasNoNewline line = true)
                     (chunkLines ++ lines))
      by (apply Forall_app; split; assumption).
    destruct (Nat.leb_spec n (length (chunkLines ++ lines))) as [Hn|Hn].
    + eexists; split; [reflexivity | exact Hall].
    + replace (position - bytesToRead) with start by reflexivity.
      apply (IH fd n buffer' start first (chunkLines ++ lines) w p f);
        auto; unfold start; lia.
Qed.

Lemma getLastNLines_shape filePath n w lines :
  fst (getLastNLines filePath n w) = Resolved lines ->
  exists gathered,
    lines = sliceFromEnd n gathered
    /\ Forall (fun line => hasNoNewline line = true) gathered.
Proof.
  unfold getLastNLines, bind, fs_open.
  destruct (files w filePath) as [f|] eqn:Hf; [|discriminate].
  destruct (readable f); [|discriminate].
  fold (opened filePath w).
  unfold fs_fstat; rewrite lookupFd_opened.
  change (files (opened filePath w) filePath) with (files w filePath).
  rewrite Hf.
  destruct (@readChunk_shape (S (length (content f))) (freshFd w) n
              (Buffer_alloc bufferSize) (length (content f)) [] []
              (opened filePath w) filePath f)
    as (gathered & -> & Hg); auto using lookupFd_opened.
  simpl; intros [= <-]; exists gathered; auto.
Qed.

(** X1.  Whatever bytes the file holds and whatever [n] is, no string that
    [getLastNLines] resolves with contains a newline, and for [n >= 1]
    there are at most [n] of them. *)
Theorem getLastNLines_lines_are_lines filePath n w lines :
  fst (getLastNLines filePath n w) = Resolved lines ->
  Forall (fun line => hasNoNewline line = true) lines
  /\ (1 <= n -> length lines <= n).
Proof.
  intros H; destruct (getLastNLines_shape _ _ _ H) as (gathered & -> & Hg).
  split; [apply Forall_sliceFromEnd, Hg | apply sliceFromEnd_length].
Qed.

Lemma getLastNLines_lines_are_lines_witness :
  fst (getLastNLines LOG_FILE_PATH 2
         (worldWith (fileWith (xc3 :: textFile ["a"; "b"; "c"; ""]%string))))
  = Resolved [lit "c"; lit ""]
  /\ Forall (fun line => hasNoNewline line = true) [lit "c"; lit ""]
  /\ (1 <= 2 -> length [lit "c"; lit ""] <= 2).
Proof.
  assert (H : fst (getLastNLines LOG_FILE_PATH 2
                     (worldWith (fileWith
                        (xc3 :: textFile ["a"; "b"; "c"; ""]%string))))
              = Resolved [lit "c"; lit ""]) by reflexivity.
  split; [exact H|].
  exact (@getLastNLines_lines_are_lines LOG_FILE_PATH 2
           (worldWith (fileWith (xc3 :: textFile ["a"; "b"; "c"; ""]%string)))
           [lit "c"; lit ""] H).
Defined.

(** X2.  When the last chunk of the file alone holds [n] fragments after
    its first one, [getLastNLines] answers from that chunk, whatever the
    rest of the file holds: it resolves with [slice(-n)] of those
    fragments.  For [n = 0] this is always so, and every such fragment is
    returned. *)
Theorem getLastNLines_answers_from_last_chunk filePath n w f :
  files w filePath = Some f -> readable f = true ->
  n <= length (tl (split (utf8 (lastChunk (content f))))) ->
  getLastNLines filePath n w
  = (Resolved (sliceFromEnd n (tl (split (utf8 (lastChunk (content f)))))),
     w).
Proof.
  intros Hf Hr Hn.
  unfold getLastNLines, bind, fs_open; rewrite Hf, Hr.
  fold (opened filePath w).
  unfold fs_fstat; rewrite lookupFd_opened.
  change (files (opened filePath w) filePath) with (files w filePath).
  rewrite Hf, readChunk_round; cbv zeta.
  pose proof bufferSize_pos as HB.
  unfold lastChunk in *.
  set (size := length (content f)) in *.
  destruct (Nat.leb_spec (Nat.min size bufferSize) 0) as [Hz|Hz].
  - assert (Hempty : content f = [])
      by (apply length_zero_iff_nil; fold size; lia).
    rewrite Hempty, skipn_nil in *; simpl in Hn.
    assert (n = 0) by lia; subst n.
    rewrite close_opened; reflexivity.
  - destruct (@fs_read_inside (freshFd w) (Buffer_alloc bufferSize)
                (Nat.min size bufferSize) (size - Nat.min size bufferSize)
                (opened filePath w) filePath f)
      as (buffer' & -> & Hchunk);
      [apply lookupFd_opened | exact Hf | fold size; lia |].
    unfold Buffer_toString; rewrite Hchunk, app_nil_r.
    rewrite (firstn_all2 (n := Nat.min size bufferSize))
      by (rewrite length_skipn; fold size; lia).
    rewrite app_nil_r.
    destruct (Nat.leb_spec n
                (length (tl (split (utf8 (skipn (size - Nat.min size bufferSize)
                                            (content f)))))))
      as [_|Hlt]; [|lia].
    rewrite close_opened; reflexivity.
Qed.

Lemma getLastNLines_answers_from_last_chunk_witness :
  2 <= length (tl (split (utf8 (lastChunk
                                  (textFile ["a"; "b"; "c"]%string)))))
  /\ getLastNLines LOG_FILE_PATH 2
       (worldWith (fileWith (textFile ["a"; "b"; "c"]%string)))
     = (Resolved [lit "b"; lit "c"],
        worldWith (fileWith (textFile ["a"; "b"; "c"]%string))).
Proof.
  assert (Hn : 2 <= length (tl (split (utf8 (lastChunk
                              (textFile ["a"; "b"; "c"]%string))))))
    by (vm_compute; lia).
  split; [exact Hn|].
  exact (@getLastNLines_answers_from_last_chunk LOG_FILE_PATH 2
           (worldWith (fileWith (textFile ["a"; "b"; "c"]%string)))
           (mkFile (textFile ["a"; "b"; "c"]%string) true)
           eq_refl eq_refl Hn).
Defined.

(** ** The incremental reader *)

(** X3.  Every string [getNewLines] resolves with is non-blank and without
    a newline; from an offset at or past the end of the file it resolves
    with no line at all. *)
Theorem getNewLines_lines_are_lines filePath fromPosition w lines :
  fst (getNewLines filePath fromPosition w) = Resolved lines ->
  Forall (fun line => nonBlank line = true /\ hasNoNewline line = true) lines
  /\ (forall f, files w filePath = Some f ->
                length (content f) <= fromPosition -> lines = []).
Proof.
  destruct (files w filePath) as [f|] eqn:Hf;
    [|rewrite (getNewLines_missing _ fromPosition _ Hf); discriminate].
  destruct (readable f) eqn:Hr;
    [|rewrite (getNewLines_unreadable _ fromPosition _ Hf Hr); discriminate].
  rewrite (getNewLines_readable _ fromPosition _ Hf Hr); simpl.
  intros [= <-]; split.
  - apply Forall_forall; intros line Hin; apply filter_In in Hin.
    destruct Hin as [Hin Hnb]; split; [exact Hnb|].
    pose proof (split_hasNoNewline
                  (utf8 (skipn fromPosition (content f)))) as Hs.
    rewrite Forall_forall in Hs; exact (Hs line Hin).
  - intros f' [= <-] Hlen; rewrite skipn_all2 by exact Hlen; reflexivity.
Qed.

Lemma getNewLines_lines_are_lines_witness :
  fst (getNewLines LOG_FILE_PATH 4
         (worldWith (fileWith (textFile ["old"; ""]%string))))
  = Resolved []
  /\ (forall f,
        files (worldWith (fileWith (textFile ["old"; ""]%string)))
              LOG_FILE_PATH = Some f ->
        length (content f) <= 4 -> @nil text = []).
Proof.
  assert (H : fst (getNewLines LOG_FILE_PATH 4
                     (worldWith (fileWith (textFile ["old"; ""]%string))))
              = Resolved []) by reflexivity.
  split; [exact H|].
  exact (proj2 (@getNewLines_lines_are_lines LOG_FILE_PATH 4
                  (worldWith (fileWith (textFile ["old"; ""]%string)))
                  [] H)).
Defined.

(** *** Reading in two steps *)

Lemma leadByte_continuing b : continuing (snd (leadByte b)).
Proof.
  unfold leadByte, continuing.
  destruct (N.leb b 127); [simpl; lia|].
  destruct (between 194 223 b); [simpl; lia|].
  destruct (between 224 239 b);
    [simpl; destruct (N.eqb b 224); lia|].
  destruct (between 240 244 b);
    [simpl; destruct (N.eqb b 240); lia|].
  simpl; lia.
Qed.

Lemma utf8Step_continuing st b : continuing (snd (utf8Step st b)).
Proof.
  unfold utf8Step.
  destruct (needed st) as [|rest]; [apply leadByte_continuing|].
  destruct (between (lower st) (upper st) b).
  - destruct rest; unfold continuing; simpl; lia.
  - pose proof (leadByte_continuing b) as H.
    destruct (leadByte b); exact H.
Qed.

(** An ASCII byte always ends whatever sequence was being decoded: it
    comes out itself, last, and the decoder starts afresh. *)
Lemma utf8Step_ascii st b :
  continuing st -> (b <= 127)%N ->
  exists out, utf8Step st b = (out ++ [b], utf8Start).
Proof.
  intros Hst Hb; unfold utf8Step.
  assert (Hlead : leadByte b = ([b], utf8Start))
    by (unfold leadByte; apply N.leb_le in Hb; rewrite Hb; reflexivity).
  destruct (needed st) as [|rest]; [exists []; exact Hlead|].
  assert (Hout : between (lower st) (upper st) b = false).
  { unfold between, continuing in *; apply andb_false_iff; left.
    apply N.leb_gt; lia. }
  rewrite Hout, Hlead; exists [REPLACEMENT]; reflexivity.
Qed.

Lemma utf8Decode_ascii_then st b (before after : list byte) :
  continuing st -> (Byte.to_N b <= 127)%N ->
  exists decoded,
    utf8Decode st (before ++ [b]) = decoded ++ [Byte.to_N b]
    /\ utf8Decode st (before ++ b :: after)
       = decoded ++ Byte.to_N b :: utf8 after.
Proof.
  intros Hst Hb; revert st Hst.
  induction before as [|x before IH]; intros st Hst; cbn [app utf8Decode].
  - destruct (utf8Step_ascii Hst Hb) as [out ->].
    exists out; cbn [needed utf8Start]; unfold utf8.
    rewrite app_nil_r, <- app_assoc; auto.
  - pose proof (utf8Step_continuing st (Byte.to_N x)) as Hnext.
    destruct (utf8Step st (Byte.to_N x)) as [out st'].
    destruct (IH st' Hnext) as (decoded & E1 & E2).
    exists (out ++ decoded); rewrite E1, E2, !app_assoc; auto.
Qed.

Lemma split_at_newline (a b : text) :
  split (a ++ LF :: b) = split a ++ split b.
Proof.
  induction a as [|c a IH]; [reflexivity|]; cbn [app split].
  destruct (N.eqb c LF); [rewrite IH; reflexivity|].
  rewrite IH.
  destruct (split a) as [|h t] eqn:E; [exfalso; exact (split_nonempty _ E)|].
  reflexivity.
Qed.

Lemma skipn_past (A : Type) (a b : list A) k :
  skipn (length a + k) (a ++ b) = skipn k b.
Proof. induction a as [|x a IH]; [reflexivity|exact IH]. Qed.

(** X4.  Reading what was appended in two steps gives the same lines as
    reading it in one, provided the first step ends just after a newline:
    the lines of [first ++ newline ++ second] are those of
    [first ++ newline] followed by those of [second], whatever bytes they
    hold. *)
Theorem getNewLines_in_two_steps (old first second : list byte) :
  tailRead (old ++ first ++ [x0a]) (length old)
  = Resolved (linesOf (first ++ [x0a]))
  /\ tailRead (old ++ first ++ x0a :: second) (length old + length first + 1)
     = Resolved (linesOf second)
  /\ tailRead (old ++ first ++ x0a :: second) (length old)
     = Resolved (linesOf (first ++ [x0a]) ++ linesOf second).
Proof.
  assert (Hread : forall data k,
             tailRead data k = Resolved (linesOf (skipn k data))).
  { intros data k; unfold tailRead.
    rewrite (@getNewLines_readable LOG_FILE_PATH k _ (mkFile data true));
      reflexivity. }
  rewrite !Hread.
  replace (length old) with (length old + 0) at 1 3 by lia.
  rewrite <- Nat.add_assoc, !skipn_past; cbn [skipn].
  replace (first ++ x0a :: second) with ((first ++ [x0a]) ++ second) at 1
    by (rewrite <- app_assoc; reflexivity).
  replace (length first + 1) with (length (first ++ [x0a]) + 0)
    by (rewrite length_app; simpl; lia).
  rewrite <- app_assoc; cbn [app].
  split; [reflexivity|]; split; [reflexivity|]; f_equal.
  unfold linesOf, utf8.
  destruct (@utf8Decode_ascii_then utf8Start x0a first second)
    as (decoded & -> & ->);
    [unfold continuing; simpl; lia | vm_compute; discriminate|].
  change (Byte.to_N x0a) with LF.
  rewrite split_at_newline, filter_app.
  replace (decoded ++ [LF]) with (decoded ++ LF :: []) by reflexivity.
  rewrite split_at_newline, filter_app; simpl; rewrite app_nil_r.
  reflexivity.
Qed.

(** *** Which fragments are dropped *)

Lemma trimStart_nil (line : text) :
  trimStart line = [] <-> hasVisible line = false.
Proof.
  unfold hasVisible; induction line as [|c line IH]; cbn [trimStart existsb].
  - tauto.
  - destruct (isWhiteSpace c); cbn [negb orb]; [exact IH|].
    split; discriminate.
Qed.

Lemma hasVisible_rev (line : text) : hasVisible (rev line) = hasVisible line.
Proof.
  unfold hasVisible; induction line as [|c line IH]; [reflexivity|].
  cbn [rev existsb]; rewrite existsb_app, IH; cbn [existsb].
  rewrite orb_false_r; apply orb_comm.
Qed.

Lemma hasVisible_trimStart (line : text) :
  hasVisible (trimStart line) = hasVisible line.
Proof.
  unfold hasVisible; induction line as [|c line IH]; [reflexivity|].
  cbn [trimStart existsb].
  destruct (isWhiteSpace c) eqn:Ec; [exact IH|].
  cbn [existsb]; rewrite Ec; reflexivity.
Qed.

(** [line.trim()] is not empty exactly when the line holds a character
    that is not white space. *)
Lemma nonBlank_hasVisible (line : text) : nonBlank line = hasVisible line.
Proof.
  unfold nonBlank, trim, trimEnd.
  destruct (hasVisible line) eqn:Hv.
  - destruct (rev (trimStart (rev (trimStart line)))) as [|c rest] eqn:E;
      [|reflexivity].
    apply (f_equal (@rev N)) in E; rewrite rev_involutive in E.
    cbn [rev] in E; apply trimStart_nil in E.
    rewrite hasVisible_rev, hasVisible_trimStart, Hv in E; discriminate.
  - apply trimStart_nil in Hv; rewrite Hv; reflexivity.
Qed.

(** X5.  [getNewLines] drops exactly the fragments made of white space
    only (the empty one, a lone CR left by a CR LF ending, spaces and
    tabs) and passes every other fragment on as it is read, with the white
    space around it: [trim] is used for the test only. *)
Theorem getNewLines_keeps_what_has_a_visible_character
    filePath fromPosition w f :
  files w filePath = Some f -> readable f = true ->
  getNewLines filePath fromPosition w
  = (Resolved (filter hasVisible
                 (split (utf8 (skipn fromPosition (content f))))), w).
Proof.
  intros Hf Hr; rewrite (getNewLines_readable _ fromPosition _ Hf Hr).
  do 2 f_equal; apply filter_ext; exact nonBlank_hasVisible.
Qed.

Lemma getNewLines_keeps_what_has_a_visible_character_witness :
  getNewLines LOG_FILE_PATH 0 (worldWith (fileWith paddedLines))
  = (Resolved [lit "  a "; lit "b"], worldWith (fileWith paddedLines)).
Proof.
  exact (@getNewLines_keeps_what_has_a_visible_character LOG_FILE_PATH 0
           (worldWith (fileWith paddedLines)) (mkFile paddedLines true)
           eq_refl eq_refl).
Defined.

(* ================================================================== *)
(** * Further properties of the server *)
(* ================================================================== *)

(** ** Once a callback has run *)

(** ** The timer table *)

Lemma handle_one_timer i s :
  tidy s -> length (timers s) <= 1 -> length (timers (handle i s)) <= 1.
Proof.
  intros Ht Hlen.
  destruct i as [|ws|ws|eventType|file|]; cbn [handle]; try exact Hlen.
  - rewrite onConnection_cases; exact Hlen.
  - destruct eventType; [exact Hlen|].
    destruct (onWatch_change_timers Ht) as (-> & _); simpl; lia.
  - unfold onInitialStat.
    destruct (fs_promises_stat LOG_FILE_PATH (world s)); exact Hlen.
Qed.

Lemma fireDue_one_timer t s :
  length (timers s) <= 1 -> length (timers (fireDue t s)) <= 1.
Proof.
  intros Hlen.
  destruct (fireDue_fields t s) as (_ & -> & _).
  pose proof (filter_length_le (fun timer => negb (isDue t timer))
                (timers s)); lia.
Qed.

Lemma run_one_timer inputs : forall s,
  wellFormed s -> length (timers s) <= 1 ->
  length (timers (run inputs s)) <= 1.
Proof.
  induction inputs as [|[t i] inputs IH]; intros s Hw Hlen; [exact Hlen|].
  cbn [run]; apply IH.
  - apply handle_wellFormed, fireDue_wellFormed, Hw.
  - apply handle_one_timer;
      [exact (proj1 (fireDue_wellFormed t Hw))
      | apply fireDue_one_timer, Hlen].
Qed.

(** X7.  Whatever the inputs, the program never has more than one timer
    pending: each change notification clears the timer it set before
    setting the next, so size checks never pile up in the timer table. *)
Theorem at_most_one_timer_pending inputs w t :
  length (timers (run inputs (start w))) <= 1
  /\ length (timers (fireDue t (run inputs (start w)))) <= 1.
Proof.
  assert (H : length (timers (run inputs (start w))) <= 1)
    by (apply run_one_timer; [apply start_wellFormed | simpl; lia]).
  split; [exact H | apply fireDue_one_timer, H].
Qed.

(** ** A socket that has been closed *)

Lemma handle_gone ws i s :
  gone ws s ->
  sentTo ws (trace (handle i s)) = sentTo ws (trace s)
  /\ gone ws (handle i s).
Proof.
  intros [Hnot Hlt].
  destruct i as [|ws'|ws'|eventType|file|]; cbn [handle].
  - rewrite onConnection_cases; unfold gone; simpl.
    assert (Hne : (nextWs s =? ws) = false) by (apply Nat.eqb_neq; lia).
    rewrite sentTo_app; cbn [sentTo]; rewrite Hne, app_nil_r.
    split; [reflexivity|]; split; [|lia].
    rewrite map_app, in_app_iff; simpl; intros [Hin|[Heq|[]]];
      [exact (Hnot Hin) | lia].
  - split; [reflexivity|]; split; [|exact Hlt].
    unfold onClosing; simpl; rewrite map_map.
    intros Hin; apply Hnot.
    erewrite map_ext in Hin; [exact Hin|].
    intros c; simpl; destruct (Nat.eqb_spec (fst c) ws'); simpl; auto.
  - split; [reflexivity|]; split; [|exact Hlt].
    unfold onClose; simpl; intros Hin; apply Hnot.
    apply in_map_iff in Hin; destruct Hin as (c & Hc & Hin).
    apply filter_In in Hin; apply in_map_iff; exists c; tauto.
  - destruct (onWatch_fields eventType s) as (_ & _ & Ht & Hc).
    unfold gone; rewrite Ht, Hc.
    split; [reflexivity|]; split; [exact Hnot|].
    destruct eventType; unfold onWatch, setTimeout, clearTimeout;
      destruct (debounceTimeout s); exact Hlt.
  - split; [reflexivity | split; assumption].
  - unfold onInitialStat.
    destruct (fs_promises_stat LOG_FILE_PATH (world s));
      (split; [reflexivity | split; assumption]).
Qed.

(** ** Notifications with pauses *)

Lemma last_cons_default (t previous : nat) (later : list nat) :
  last (t :: later) previous = last later t.
Proof.
  revert t previous; induction later as [|x later IH]; intros t previous;
    [reflexivity|].
  change (last (t :: x :: later) previous) with (last (x :: later) previous).
  rewrite (IH x previous), (IH x t); reflexivity.
Qed.

(** The state after notifications that follow a first one: one timer
    pending, due 100 ms after the last notification, and one size check
    made for every pause of 100 ms or more. *)
Lemma pauses_keep_one_timer (later : list nat) : forall s h previous,
  timers s = [(h, previous + 100)] -> debounceTimeout s = Some h ->
  now s = previous -> ascendingFrom previous later = true ->
  (exists h', timers (run (notifications later) s)
              = [(h', last later previous + 100)]
              /\ debounceTimeout (run (notifications later) s) = Some h')
  /\ cycles (run (notifications later) s)
     = pausesAfter previous later + cycles s.
Proof.
  induction later as [|t later IH]; intros s h previous Ht Hd Hn Hasc.
  - simpl; eauto.
  - cbn [ascendingFrom] in Hasc.
    apply andb_true_iff in Hasc; destruct Hasc as [Hle Hrest].
    apply Nat.leb_le in Hle.
    cbn [notifications map run handle pausesAfter].
    fold (notifications later).
    destruct (fireDue_fields t s) as (F1 & F2 & F3 & F4 & _ & _ & F7).
    rewrite Ht in F2, F7; cbn [filter] in F2, F7.
    unfold isDue in F2, F7; cbn [snd] in F2, F7.
    assert (Htidy : tidy (fireDue t s)).
    { intros timer Hin; rewrite F2 in Hin; rewrite F1, Hd.
      destruct (previous + 100 <=? t); simpl in Hin;
        [destruct Hin | destruct Hin as [<-|[]]; reflexivity]. }
    destruct (onWatch_change_timers Htidy) as (W1 & W2 & _ & W4).
    destruct (onWatch_fields change (fireDue t s)) as (_ & _ & W5 & _).
    rewrite F4, Hn, Nat.max_r in W1, W4 by lia.
    destruct (IH (onWatch change (fireDue t s)) _ t W1 W2 W4 Hrest)
      as (I1 & I3).
    rewrite last_cons_default.
    split; [exact I1|].
    rewrite I3; unfold cycles at 1; rewrite W5; fold (cycles (fireDue t s)).
    rewrite F7; destruct (previous + 100 <=? t); simpl; lia.
Qed.

(** X9.  With change notifications in the order of their times, the
    program makes one size check for each pause of 100 ms or more between
    a notification and the next, and one more once 100 ms have passed
    since the last notification: one check for every burst.  Afterwards no
    timer is pending. *)
Theorem one_cycle_for_every_burst s first later settled :
  tidy s -> now s <= first ->
  forallb (fun timer => first <? snd timer) (timers s) = true ->
  ascendingFrom first later = true ->
  last later first + 100 <= settled ->
  cycles (fireDue settled (run (notifications (first :: later)) s))
  = cycles s + pausesAfter first later + 1
  /\ timers (fireDue settled (run (notifications (first :: later)) s)) = [].
Proof.
  intros Htidy Hnow Hpending Hasc Hsettled.
  rewrite forallb_forall in Hpending.
  change (run (notifications (first :: later)) s)
    with (run (notifications later) (onWatch change (fireDue first s))).
  destruct (fireDue_fields first s) as (F1 & F2 & _ & F4 & _ & _ & F7).
  assert (Hnone : filter (isDue first) (timers s) = []).
  { apply filter_none; intros timer Hin.
    specialize (Hpending timer Hin); apply Nat.ltb_lt in Hpending.
    apply Nat.leb_gt; exact Hpending. }
  assert (Hkept : filter (fun timer => negb (isDue first timer)) (timers s)
                  = timers s).
  { apply filter_all; intros timer Hin.
    specialize (Hpending timer Hin); apply Nat.ltb_lt in Hpending.
    apply negb_true_iff, Nat.leb_gt; exact Hpending. }
  rewrite Hnone in F7; rewrite Hkept in F2; simpl in F7.
  assert (Htidy' : tidy (fireDue first s))
    by (intros timer Hin; rewrite F1; rewrite F2 in Hin; auto).
  destruct (onWatch_change_timers Htidy') as (W1 & W2 & _ & W4).
  destruct (onWatch_fields change (fireDue first s)) as (_ & _ & W5 & _).
  rewrite F4, Nat.max_r in W1, W4 by exact Hnow.
  destruct (pauses_keep_one_timer later (onWatch change (fireDue first s))
              W1 W2 W4 Hasc)
    as ((h' & B1 & _) & B3).
  unfold cycles at 2 in B3; rewrite W5 in B3.
  fold (cycles (fireDue first s)) in B3; rewrite F7 in B3.
  destruct (fireDue_fields settled
              (run (notifications later) (onWatch change (fireDue first s))))
    as (_ & G2 & _ & _ & _ & _ & G7).
  assert (Hdue : isDue settled (h', last later first + 100) = true)
    by (apply Nat.leb_le; exact Hsettled).
  rewrite B1 in G2, G7; cbn [filter] in G2, G7; rewrite Hdue in G2, G7.
  rewrite G7, B3; split; [simpl; lia | exact G2].
Qed.

Lemma one_cycle_for_every_burst_witness :
  tidy threeBytes /\ now threeBytes <= 10
  /\ forallb (fun timer => 10 <? snd timer) (timers threeBytes) = true
  /\ ascendingFrom 10 [50; 150; 219; 400] = true
  /\ last [50; 150; 219; 400] 10 + 100 <= 500
  /\ cycles (fireDue 500
               (run (notifications [10; 50; 150; 219; 400]) threeBytes))
     = 3.
Proof.
  assert (Ht : tidy threeBytes) by (intros timer []).
  assert (Hn : now threeBytes <= 10) by (simpl; lia).
  assert (Hs : last [50; 150; 219; 400] 10 + 100 <= 500) by (simpl; lia).
  split; [exact Ht|]. split; [exact Hn|]. split; [reflexivity|].
  split; [reflexivity|]. split; [exact Hs|].
  exact (proj1 (@one_cycle_for_every_burst threeBytes 10 [50; 150; 219; 400]
                  500 Ht Hn eq_refl eq_refl Hs)).
Defined.

(** ** A socket that connects between a write and its size check *)

Lemma split_whole (line : text) :
  hasNoNewline line = true -> split line = [line].
Proof.
  induction line as [|c line IH]; [reflexivity|]; cbn [hasNoNewline forallb].
  intros H; apply andb_true_iff in H; destruct H as [Hc Hrest].
  apply negb_true_iff in Hc; cbn [split]; rewrite Hc.
  unfold hasNoNewline in IH; rewrite (IH Hrest); reflexivity.
Qed.

Lemma lastN_app_more {A : Type} (n : nat) (q l : list A) :
  length l <= n -> lastN n (q ++ l) = lastN (n - length l) q ++ l.
Proof.
  intros Hn; unfold lastN; rewrite length_app, skipn_app.
  replace (length q + length l - n - length q) with 0 by lia.
  replace (length q + length l - n) with (length q - (n - length l)) by lia.
  reflexivity.
Qed.

(** X10.  A socket that connects after a line has been written and before
    the debounce callback for that write has run is sent the line twice:
    in its catch-up, which reads the file as it is now, and in the
    broadcast, which reads from the offset recorded before the write. *)
Theorem late_joiner_gets_line_twice s f old line :
  wellFormed s ->
  files (world s) LOG_FILE_PATH = Some f -> readable f = true ->
  content f = old ++ x0a :: line ++ [x0a] -> isAscii (content f) = true ->
  hasNoNewline (utf8 line) = true -> nonBlank (utf8 line) = true ->
  lastFileSize s = length old + 1 ->
  exists earlier,
    sentTo (nextWs s) (trace (debounceCallback (handle Connection s)))
    = sentTo (nextWs s) (trace s)
      ++ [linesMessage (earlier ++ [utf8 line; []]);
          linesMessage [utf8 line]].
Proof.
  intros Hwf Hf Hr Hc Hascii Hnl Hnb Ho.
  assert (Hbytes : utf8 (content f) = utf8 old ++ LF :: utf8 line ++ [LF]
                   /\ utf8 (line ++ [x0a]) = utf8 line ++ [LF]).
  { pose proof Hascii as Hparts; rewrite Hc in Hparts.
    unfold isAscii in Hparts; rewrite forallb_app in Hparts.
    apply andb_true_iff in Hparts; destruct Hparts as [Hold Hrest].
    cbn [forallb] in Hrest; apply andb_true_iff in Hrest.
    destruct Hrest as [_ Hrest].
    assert (Hline : isAscii line = true)
      by (rewrite forallb_app in Hrest; apply andb_true_iff in Hrest;
          tauto).
    rewrite (utf8_ascii _ Hascii), (utf8_ascii _ Hold),
      (utf8_ascii _ Hline), (utf8_ascii (line ++ [x0a]) Hrest), Hc.
    rewrite !map_app; cbn [map]; rewrite map_app; split; reflexivity. }
  destruct Hbytes as [Hall Hnew].
  assert (HsplitNew : split (utf8 line ++ [LF]) = [utf8 line; []]).
  { change (utf8 line ++ [LF]) with (utf8 line ++ LF :: []).
    rewrite split_at_newline, (split_whole _ Hnl); reflexivity. }
  assert (HsplitAll : split (utf8 (content f))
                      = split (utf8 old) ++ [utf8 line; []])
    by (rewrite Hall, split_at_newline, HsplitNew; reflexivity).
  destruct (@tailFragments_suffix _ _ _ (@split_nonempty _) HsplitAll)
    as [q Hq].
  exists (lastN 8 q).
  cbn [handle]; rewrite onConnection_cases.
  destruct (@getLastNLines_readable _ _ _ Hf Hr 10) as (v & -> & Hv).
  cbn [fst]; rewrite (Hv Hascii) by lia; clear v Hv.
  rewrite Hq, lastN_app_more by (simpl; lia).
  change (10 - length [utf8 line; []]) with 8.
  set (message := linesMessage (lastN 8 q ++ [utf8 line; []])).
  set (s1 := recordAll [Send (nextWs s) message] _).
  rewrite (debounceCallback_cases s1).
  change (files (world s1) LOG_FILE_PATH) with (files (world s) LOG_FILE_PATH).
  change (lastFileSize s1) with (lastFileSize s).
  rewrite Hf, Ho, Hr.
  assert (Hgrown : (length old + 1 <? length (content f)) = true)
    by (apply Nat.ltb_lt; rewrite Hc, length_app; simpl;
        rewrite length_app; simpl; lia).
  assert (Hskip : skipn (length old + 1) (content f) = line ++ [x0a]).
  { rewrite Hc.
    replace (old ++ x0a :: line ++ [x0a])
      with ((old ++ [x0a]) ++ line ++ [x0a])
      by (rewrite <- app_assoc; reflexivity).
    replace (length old + 1) with (length (old ++ [x0a]) + 0)
      by (rewrite length_app; simpl; lia).
    apply skipn_past. }
  rewrite Hgrown, Hskip, Hnew, HsplitNew.
  assert (Hbatch : filter nonBlank [utf8 line; []] = [utf8 line])
    by (cbn [filter]; rewrite Hnb; reflexivity).
  rewrite Hbatch.
  assert (Hnd : NoDup (map fst (clients s ++ [(nextWs s, OPEN)]))).
  { pose proof (proj1 (proj2 (handle_wellFormed Connection Hwf))) as H.
    cbn [handle] in H; rewrite onConnection_cases in H; exact H. }
  cbn [trace recordAll set_lastFileSize].
  change (trace s1) with (trace s ++ [Send (nextWs s) message]).
  rewrite !sentTo_app; cbn [sentTo]; rewrite Nat.eqb_refl.
  change (clients s1) with (clients s ++ [(nextWs s, OPEN)]).
  rewrite (@sentTo_deliveries (nextWs s) [utf8 line] _ Hnd).
  rewrite existsb_app; cbn [existsb fst snd isOpen].
  rewrite Nat.eqb_refl, orb_true_r; cbn [andb orb].
  rewrite <- app_assoc; reflexivity.
Qed.

Lemma late_joiner_gets_line_twice_witness :
  wellFormed writtenNotYetChecked
  /\ lastFileSize writtenNotYetChecked = length [x61] + 1
  /\ exists earlier,
       sentTo (nextWs writtenNotYetChecked)
         (trace (debounceCallback (handle Connection writtenNotYetChecked)))
       = sentTo (nextWs writtenNotYetChecked) (trace writtenNotYetChecked)
         ++ [linesMessage (earlier ++ [utf8 [x62]; []]);
             linesMessage [utf8 [x62]]].
Proof.
  assert (Hw : wellFormed writtenNotYetChecked)
    by (apply handle_wellFormed, handle_wellFormed, start_wellFormed).
  split; [exact Hw|]; split; [reflexivity|].
  exact (@late_joiner_gets_line_twice writtenNotYetChecked
           (mkFile (textFile ["a"; "b"; ""]%string) true) [x61] [x62]
           Hw eq_refl eq_refl eq_refl eq_refl eq_refl eq_refl eq_refl).
Defined.

(** ** A file that only grows *)

Lemma fireDue_no_timers t s :
  timers s = [] ->
  fireDue t s = set_now (Nat.max (now s) t) (set_timers [] s).
Proof. intros Ht; unfold fireDue; rewrite Ht; reflexivity. Qed.

(** The callback that finds an append not yet read. *)
Lemma debounceCallback_reads_append s data a :
  files (world s) LOG_FILE_PATH = fileWith (data ++ a) ->
  (0 <? length a) = true -> lastFileSize s = length data ->
  debounceCallback s
  = recordAll
      (StatCheck :: ReadFrom (length data)
         :: deliveries (linesOf a) (clients s))
      (set_lastFileSize (length (data ++ a)) s).
Proof.
  intros Hf Ha Ho; apply Nat.ltb_lt in Ha; unfold fileWith in Hf.
  rewrite debounceCallback_cases, Hf, Ho; cbn [content readable].
  assert (Hgrown : (length data <? length (data ++ a)) = true)
    by (apply Nat.ltb_lt; rewrite length_app; lia).
  rewrite Hgrown.
  replace (skipn (length data) (data ++ a)) with a; [reflexivity|].
  replace (length data) with (length data + 0) by lia.
  rewrite skipn_past; reflexivity.
Qed.

(** A write followed by its notification, when no timer is pending. *)
Lemma write_then_notify s t file :
  timers s = [] -> now s <= t ->
  exists h,
    timers (handle (Watch change) (fireDue t (handle (FileChanged file) s)))
    = [(h, t + 100)]
    /\ debounceTimeout
         (handle (Watch change) (fireDue t (handle (FileChanged file) s)))
       = Some h
    /\ now (handle (Watch change) (fireDue t (handle (FileChanged file) s)))
       = t
    /\ files (world (handle (Watch change)
                       (fireDue t (handle (FileChanged file) s))))
         LOG_FILE_PATH = file
    /\ lastFileSize
         (handle (Watch change) (fireDue t (handle (FileChanged file) s)))
       = lastFileSize s
    /\ trace (handle (Watch change) (fireDue t (handle (FileChanged file) s)))
       = trace s
    /\ clients
         (handle (Watch change) (fireDue t (handle (FileChanged file) s)))
       = clients s.
Proof.
  intros Ht Hnow; cbn [handle].
  set (written := set_world (writeFile LOG_FILE_PATH file (world s)) s).
  rewrite (fireDue_no_timers t written Ht).
  set (waiting := set_now _ _).
  assert (Htidy : tidy waiting) by (intros timer []).
  destruct (onWatch_change_timers Htidy) as (W1 & W2 & _ & W4).
  destruct (onWatch_fields change waiting) as (E1 & E2 & E3 & E4).
  assert (Et : now waiting = t)
    by (unfold waiting; cbn [now set_now]; apply Nat.max_r; exact Hnow).
  exists (nextTimer waiting).
  rewrite W1, W2, W4, E1, E2, E3, E4, Et.
  repeat split.
Qed.

(** The lines of the two appends reach the two open sockets, in the order
    of the writes. *)
Example two_appends_trace :
  appendTrace 6 (clients threeSockets) twoAppends
  = [StatCheck; ReadFrom 6;
     Send 0 (linesMessage [lit "one"]); Send 2 (linesMessage [lit "one"]);
     StatCheck; ReadFrom 10;
     Send 0 (linesMessage [lit "two"; lit "three"]);
     Send 2 (linesMessage [lit "two"; lit "three"])].
Proof. vm_compute; reflexivity. Qed.

(** ** A file that fits in one chunk *)

(** X12.  For a file of at most [bufferSize] bytes and [n >= 1],
    whatever bytes it holds, [getLastNLines] resolves with the last [n]
    fragments of the split of the whole decoded content, the first
    fragment left out when it is empty: one read takes the whole file, so
    no character is cut at a chunk edge. *)
Theorem getLastNLines_within_one_chunk filePath n w f :
  files w filePath = Some f -> readable f = true ->
  length (content f) <= bufferSize -> 1 <= n ->
  getLastNLines filePath n w
  = (Resolved (lastN n (tailFragments (utf8 (content f)))), w).
Proof.
  intros Hf Hr Hsize Hn.
  unfold getLastNLines, bind, fs_open; rewrite Hf, Hr.
  fold (opened filePath w).
  unfold fs_fstat; rewrite lookupFd_opened.
  change (files (opened filePath w) filePath) with (files w filePath).
  rewrite Hf, readChunk_round; cbv zeta.
  rewrite (Nat.min_l _ _ Hsize).
  destruct (Nat.leb_spec (length (content f)) 0) as [Hz|Hz].
  - assert (Hempty : content f = [])
      by (apply length_zero_iff_nil; lia).
    rewrite Hempty, close_opened; cbn [truthy].
    rewrite sliceFromEnd_pos by exact Hn.
    unfold lastN; rewrite !skipn_nil; reflexivity.
  - destruct (@fs_read_inside (freshFd w) (Buffer_alloc bufferSize)
                (length (content f))
                (length (content f) - length (content f))
                (opened filePath w) filePath f)
      as (buffer' & -> & Hchunk);
      [apply lookupFd_opened | exact Hf | lia |].
    unfold Buffer_toString; rewrite Hchunk, !Nat.sub_diag.
    cbn [skipn]; rewrite firstn_all, !app_nil_r.
    unfold tailFragments.
    destruct (split (utf8 (content f))) as [|first rest] eqn:Esplit;
      [exfalso; exact (split_nonempty _ Esplit)|].
    cbn [hd tl].
    destruct (Nat.leb_spec n (length rest)) as [Hle|Hlt].
    + rewrite close_opened, sliceFromEnd_pos by exact Hn.
      destruct first as [|c first]; [reflexivity|].
      change ((c :: first) :: rest) with ([c :: first] ++ rest).
      rewrite lastN_app by exact Hle; reflexivity.
    + destruct (length (content f)) as [|fuel] eqn:Esize; [lia|].
      rewrite readChunk_round; cbv zeta.
      change (Nat.min 0 bufferSize <=? 0) with true; cbv iota.
      rewrite close_opened, sliceFromEnd_pos by exact Hn.
      destruct first; reflexivity.
Qed.

Lemma getLastNLines_within_one_chunk_witness :
  length (content (mkFile (xc3 :: xa9 :: textFile ["t"; "x"]%string) true))
  <= bufferSize
  /\ 1 <= 5
  /\ getLastNLines LOG_FILE_PATH 5
       (worldWith (fileWith (xc3 :: xa9 :: textFile ["t"; "x"]%string)))
     = (Resolved [[233; 116]%N; lit "x"],
        worldWith (fileWith (xc3 :: xa9 :: textFile ["t"; "x"]%string))).
Proof.
  assert (Hsize : length (content (mkFile (xc3 :: xa9
                                             :: textFile ["t"; "x"]%string)
                                     true)) <= bufferSize)
    by (vm_compute; lia).
  assert (Hn : 1 <= 5) by lia.
  split; [exact Hsize|]; split; [exact Hn|].
  exact (@getLastNLines_within_one_chunk LOG_FILE_PATH 5
           (worldWith (fileWith (xc3 :: xa9 :: textFile ["t"; "x"]%string)))
           (mkFile (xc3 :: xa9 :: textFile ["t"; "x"]%string) true)
           eq_refl eq_refl Hsize Hn).
Defined.

(** ** Writes that are not notified as changes *)




(* ================================================================== *)
(** * Further properties of the messages *)
(* ================================================================== *)

Lemma hexValue_hexDigit (k : N) :
  (k < 16)%N -> hexValue (hexDigit k) = k.
Proof.
  intros H; rewrite <- (N2Nat.id k).
  assert (Hn : N.to_nat k < 16) by lia.
  generalize dependent (N.to_nat k); intros n Hn.
  do 16 (destruct n as [|n]; [reflexivity|]); lia.
Qed.

Lemma unicodeEscape_value (c : N) :
  (c < 65536)%N ->
  (hexValue (hexDigit (c / 4096)) * 4096
   + hexValue (hexDigit ((c / 256) mod 16)) * 256
   + hexValue (hexDigit ((c / 16) mod 16)) * 16
   + hexValue (hexDigit (c mod 16)))%N = c.
Proof.
  intros H.
  rewrite !hexValue_hexDigit;
    try (apply N.mod_lt; discriminate);
    try (apply N.Div0.div_lt_upper_bound; exact H).
  pose proof (N.div_mod' c 16) as H1.
  pose proof (N.div_mod' (c / 16) 16) as H2.
  pose proof (N.div_mod' (c / 256) 16) as H3.
  rewrite N.Div0.div_div in H2, H3.
  change (16 * 16)%N with 256%N in H2.
  change (256 * 16)%N with 4096%N in H3.
  lia.
Qed.

Lemma unquoteUnits_plain c s units after :
  N.eqb c DQUOTE = false -> N.eqb c BACKSLASH = false ->
  unquoteUnits s = Some (units, after) ->
  unquoteUnits (c :: s) = Some (c :: units, after).
Proof. intros Hq Hb Hs; cbn [unquoteUnits]; rewrite Hq, Hb, Hs; auto. Qed.

Lemma unquoteUnits_unicodeEscape c s units after :
  (c < 65536)%N ->
  unquoteUnits s = Some (units, after) ->
  unquoteUnits (unicodeEscape c ++ s) = Some (c :: units, after).
Proof.
  intros Hc Hs; unfold unicodeEscape.
  change (lit "u") with [117%N]; cbn [app unquoteUnits].
  change (N.eqb BACKSLASH DQUOTE) with false.
  change (N.eqb BACKSLASH BACKSLASH) with true.
  change (N.eqb 117 117) with true; cbv iota.
  rewrite Hs, (unicodeEscape_value Hc); reflexivity.
Qed.

Lemma unquoteUnits_quoteChar c s units after :
  unquoteUnits s = Some (units, after) ->
  unquoteUnits (quoteChar c ++ s) = Some (c :: units, after).
Proof.
  intros Hs; unfold quoteChar.
  repeat match goal with
         | |- context [N.eqb c ?k] =>
             destruct (N.eqb_spec c k) as [->|?];
             [cbn [app unquoteUnits lit]; simpl; rewrite Hs; reflexivity|]
         end.
  destruct (N.ltb_spec c 32) as [Hlt|Hge].
  - apply unquoteUnits_unicodeEscape; [lia | exact Hs].
  - apply unquoteUnits_plain;
      [apply N.eqb_neq; assumption | apply N.eqb_neq; assumption | exact Hs].
Qed.

(** What [quoteUnits] writes is read back as it was. *)
Lemma unquoteUnits_quoteUnits (fuel : nat) : forall s after,
  length s <= fuel ->
  unquoteUnits (quoteUnits s ++ DQUOTE :: after) = Some (s, after).
Proof.
  induction fuel as [|fuel IH]; intros s after Hlen;
    (destruct s as [|c rest]; [reflexivity|]); [simpl in Hlen; lia|].
  cbn [length] in Hlen; cbn [quoteUnits].
  destruct (isHighSurrogate c || isLowSurrogate c) eqn:Hsur.
  - assert (Hrange : (55296 <= c <= 57343)%N).
    { unfold isHighSurrogate, isLowSurrogate, between in Hsur.
      apply orb_true_iff in Hsur; destruct Hsur as [H|H];
        apply andb_true_iff in H; destruct H as [H1 H2];
        apply N.leb_le in H1; apply N.leb_le in H2; lia. }
    assert (Hq : N.eqb c DQUOTE = false)
      by (apply N.eqb_neq; unfold DQUOTE; lia).
    assert (Hb : N.eqb c BACKSLASH = false)
      by (apply N.eqb_neq; unfold BACKSLASH; lia).
    destruct rest as [|d rest'].
    + apply unquoteUnits_unicodeEscape; [lia | reflexivity].
    + destruct (isHighSurrogate c && isLowSurrogate d) eqn:Hpair.
      * apply andb_true_iff in Hpair; destruct Hpair as [_ Hlow].
        unfold isLowSurrogate, between in Hlow.
        apply andb_true_iff in Hlow; destruct Hlow as [H1 _].
        apply N.leb_le in H1.
        cbn [app]; apply unquoteUnits_plain; [exact Hq | exact Hb|].
        apply unquoteUnits_plain;
          [apply N.eqb_neq; unfold DQUOTE; lia
          | apply N.eqb_neq; unfold BACKSLASH; lia |].
        apply IH; cbn [length] in Hlen; lia.
      * rewrite <- app_assoc.
        apply unquoteUnits_unicodeEscape; [lia|].
        apply IH; lia.
  - rewrite <- app_assoc; apply unquoteUnits_quoteChar, IH; lia.
Qed.

Lemma quote_inj a b afterA afterB :
  quote a ++ afterA = quote b ++ afterB -> a = b /\ afterA = afterB.
Proof.
  unfold quote; cbn [app]; rewrite <- !app_assoc; cbn [app].
  intros [= H]; apply (f_equal unquoteUnits) in H.
  rewrite (@unquoteUnits_quoteUnits (length a) a afterA),
    (@unquoteUnits_quoteUnits (length b) b afterB) in H by lia.
  injection H; auto.
Qed.

Lemma commaSep_cons x items after :
  commaSep (x :: items) ++ after
  = x ++ match items with
         | [] => after
         | _ :: _ => lit "," ++ commaSep items ++ after
         end.
Proof.
  destruct items; cbn [commaSep]; [reflexivity|].
  rewrite <- !app_assoc; reflexivity.
Qed.

Lemma commaSep_quote_inj (a : list text) : forall b afterA afterB,
  commaSep (map quote a) ++ lit "]" ++ afterA
  = commaSep (map quote b) ++ lit "]" ++ afterB ->
  a = b.
Proof.
  induction a as [|x a IH]; intros [|y b] afterA afterB; cbn [map].
  - reflexivity.
  - rewrite commaSep_cons; discriminate.
  - rewrite commaSep_cons; discriminate.
  - rewrite !commaSep_cons; intros H.
    destruct (@quote_inj _ _ _ _ H) as [-> Hrest]; f_equal.
    destruct a as [|x' a], b as [|y' b]; try discriminate; [reflexivity|].
    cbn [map] in *; injection Hrest as Hrest.
    exact (IH (y' :: b) afterA afterB Hrest).
Qed.

(** X14.  A message determines its lines: two batches with the same
    [JSON.stringify({ lines })] are the same batch, string by string and
    character by character, whatever characters the lines hold (quotes,
    backslashes, commas, control characters, surrogates alone or in
    pairs). *)
Theorem lines_message_determines_lines (a b : list text) :
  linesMessage a = linesMessage b -> a = b.
Proof.
  unfold linesMessage, JSON_stringify; intros H.
  do 3 apply app_inv_head in H.
  exact (commaSep_quote_inj a b [125%N] [125%N] H).
Qed.

Lemma lines_message_determines_lines_witness :
  linesMessage [lit "a,b"; lit ""] = linesMessage [lit "a,b"; lit ""]
  /\ [lit "a,b"; lit ""] = [lit "a,b"; lit ""].
Proof.
  split; [reflexivity|].
  exact (@lines_message_determines_lines [lit "a,b"; lit ""]
           [lit "a,b"; lit ""] eq_refl).
Defined.

(* ================================================================== *)
(** * The reverse line reader on any bytes *)
(* ================================================================== *)

(** ** Where the decoder writes a newline *)

Lemma land_low (b m k : N) :
  m = N.ones k -> N.land b m = (b mod 2 ^ k)%N.
Proof. intros ->; apply N.land_ones. Qed.

Lemma land_31 (b : N) : (194 <= b <= 223)%N -> N.land b 31 <> 0%N.
Proof.
  intros H; rewrite (@land_low b 31 5 eq_refl).
  change (2 ^ 5)%N with 32%N.
  pose proof (N.div_mod' b 32).
  pose proof (N.mod_lt b 32 ltac:(discriminate)).
  lia.
Qed.

Lemma land_15 (b : N) : (225 <= b <= 239)%N -> N.land b 15 <> 0%N.
Proof.
  intros H; rewrite (@land_low b 15 4 eq_refl).
  change (2 ^ 4)%N with 16%N.
  pose proof (N.div_mod' b 16).
  pose proof (N.mod_lt b 16 ltac:(discriminate)).
  lia.
Qed.

Lemma land_7 (b : N) : (241 <= b <= 244)%N -> N.land b 7 <> 0%N.
Proof.
  intros H; rewrite (@land_low b 7 3 eq_refl).
  change (2 ^ 3)%N with 8%N.
  pose proof (N.div_mod' b 8).
  pose proof (N.mod_lt b 8 ltac:(discriminate)).
  lia.
Qed.

Lemma land_63 (low high b : N) :
  (144 <= low)%N -> (high <= 191)%N -> (low <= b <= high)%N ->
  N.land b 63 <> 0%N.
Proof.
  intros H1 H2 H; rewrite (@land_low b 63 6 eq_refl).
  change (2 ^ 6)%N with 64%N.
  pose proof (N.div_mod' b 64).
  pose proof (N.mod_lt b 64 ltac:(discriminate)).
  lia.
Qed.

Lemma gathered_nonzero (c x : N) :
  c <> 0%N \/ x <> 0%N -> N.lor (N.shiftl c 6) x <> 0%N.
Proof.
  intros H E; apply N.lor_eq_0_iff in E; destruct E as [Ea Eb].
  apply N.shiftl_eq_0_iff in Ea; tauto.
Qed.

Lemma gathered_not_newline (c b : N) :
  c <> 0%N -> N.lor (N.shiftl c 6) (N.land b 63) <> LF.
Proof.
  intros Hc E; apply (f_equal (fun v => N.shiftr v 6)) in E.
  rewrite N.shiftr_lor, N.shiftr_shiftl_l in E by lia.
  change (6 - 6)%N with 0%N in E; rewrite N.shiftl_0_r in E.
  rewrite (@land_low b 63 6 eq_refl), N.shiftr_div_pow2 in E.
  rewrite N.div_small in E by (apply N.mod_lt; discriminate).
  rewrite N.lor_0_r in E; change (N.shiftr LF 6) with 0%N in E; auto.
Qed.

Lemma newlines_app (a b : text) :
  newlines (a ++ b) = newlines a + newlines b.
Proof. unfold newlines; rewrite filter_app, length_app; reflexivity. Qed.

Lemma newlines_codeUnits (cp : N) : cp <> LF -> newlines (codeUnits cp) = 0.
Proof.
  intros H; unfold codeUnits, newlines.
  destruct (N.ltb cp 65536); cbn [filter].
  - apply N.eqb_neq in H; rewrite H; reflexivity.
  - assert (H1 : N.eqb (55296 + (cp - 65536) / 1024) LF = false)
      by (apply N.eqb_neq; unfold LF;
          generalize ((cp - 65536) / 1024)%N; intros q; lia).
    assert (H2 : N.eqb (56320 + (cp - 65536) mod 1024) LF = false)
      by (apply N.eqb_neq; unfold LF;
          generalize ((cp - 65536) mod 1024)%N; intros q; lia).
    rewrite H1, H2; reflexivity.
Qed.

Lemma underway_start : underway utf8Start.
Proof. unfold underway; simpl; repeat split; try lia; left; reflexivity. Qed.

(** A byte met outside a sequence gives a newline exactly when it is the
    newline byte. *)
Lemma leadByte_newlines (b : N) :
  newlines (fst (leadByte b)) = (if N.eqb b LF then 1 else 0)
  /\ underway (snd (leadByte b)).
Proof.
  unfold leadByte, between.
  destruct (N.leb_spec b 127) as [Hb|Hb].
  { split; [|apply underway_start].
    unfold newlines; cbn [fst filter]; destruct (N.eqb b LF); reflexivity. }
  assert (Hne : N.eqb b LF = false) by (apply N.eqb_neq; unfold LF; lia).
  rewrite Hne.
  destruct (N.leb 194 b && N.leb b 223) eqn:E2.
  { apply andb_true_iff in E2; destruct E2 as [H1 H2].
    apply N.leb_le in H1; apply N.leb_le in H2.
    split; [reflexivity|]; unfold underway; cbn.
    repeat split; try lia; right; left; apply land_31; lia. }
  destruct (N.leb 224 b && N.leb b 239) eqn:E3.
  { apply andb_true_iff in E3; destruct E3 as [H1 H2].
    apply N.leb_le in H1; apply N.leb_le in H2.
    split; [reflexivity|]; unfold underway; cbn.
    destruct (N.eqb_spec b 224) as [E|E]; destruct (N.eqb b 237);
      repeat split; try lia;
      first [ right; left; apply land_15; lia | right; right; split; lia ]. }
  destruct (N.leb 240 b && N.leb b 244) eqn:E4.
  { apply andb_true_iff in E4; destruct E4 as [H1 H2].
    apply N.leb_le in H1; apply N.leb_le in H2.
    split; [reflexivity|]; unfold underway; cbn.
    destruct (N.eqb_spec b 240) as [E|E]; destruct (N.eqb b 244);
      repeat split; try lia;
      first [ right; left; apply land_7; lia | right; right; split; lia ]. }
  split; [reflexivity | apply underway_start].
Qed.

(** So does any byte, at any point of the decoding. *)
Lemma utf8Step_newlines (st : Utf8State) (b : N) :
  underway st ->
  newlines (fst (utf8Step st b)) = (if N.eqb b LF then 1 else 0)
  /\ underway (snd (utf8Step st b)).
Proof.
  intros (Hlow & Hup & Hsome); unfold utf8Step.
  destruct (needed st) as [|rest] eqn:Hneeded; [apply leadByte_newlines|].
  unfold between.
  destruct (N.leb (lower st) b && N.leb b (upper st)) eqn:Hrange.
  - apply andb_true_iff in Hrange; destruct Hrange as [H1 H2].
    apply N.leb_le in H1; apply N.leb_le in H2.
    assert (Hne : N.eqb b LF = false) by (apply N.eqb_neq; unfold LF; lia).
    rewrite Hne.
    destruct rest as [|rest]; cbn [fst snd].
    + split; [|apply underway_start].
      apply newlines_codeUnits, gathered_not_newline.
      destruct Hsome as [H|[H|[H _]]]; [discriminate | exact H | lia].
    + split; [reflexivity|]; unfold underway; cbn.
      repeat split; try lia; right; left.
      apply gathered_nonzero.
      destruct Hsome as [H|[H|[_ H]]]; [discriminate | left; exact H|].
      right; apply (@land_63 (lower st) (upper st)); lia.
  - destruct (leadByte_newlines b) as [L1 L2].
    destruct (leadByte b) as [out st']; cbn [fst snd] in *.
    split; [|exact L2].
    change (newlines (REPLACEMENT :: out)) with (newlines out); exact L1.
Qed.

(** The decoder writes a newline for every newline byte and for nothing
    else, whatever the other bytes are. *)
Lemma utf8Decode_newlines (bytes : list byte) : forall st,
  underway st -> newlines (utf8Decode st bytes) = newlineBytes bytes.
Proof.
  induction bytes as [|b bytes IH]; intros st Hst; cbn [utf8Decode].
  - destruct (needed st); reflexivity.
  - destruct (utf8Step_newlines (Byte.to_N b) Hst) as [H1 H2].
    destruct (utf8Step st (Byte.to_N b)) as [out st']; cbn [fst snd] in *.
    rewrite newlines_app, H1, (IH st' H2).
    unfold newlineBytes; cbn [filter].
    destruct (N.eqb (Byte.to_N b) LF); reflexivity.
Qed.

Lemma utf8_newlines (bytes : list byte) :
  newlines (utf8 bytes) = newlineBytes bytes.
Proof. apply utf8Decode_newlines, underway_start. Qed.

Lemma split_length (s : text) : length (split s) = S (newlines s).
Proof.
  unfold newlines; induction s as [|c s IH]; [reflexivity|].
  cbn [split filter]; destruct (N.eqb c LF); cbn [length].
  - rewrite IH; reflexivity.
  - destruct (split s) as [|h t] eqn:E;
      [exfalso; exact (split_nonempty _ E) | exact IH].
Qed.

Lemma newlines_none (s : text) : newlines s = 0 -> hasNoNewline s = true.
Proof.
  unfold newlines, hasNoNewline; induction s as [|c s IH]; [reflexivity|].
  cbn [filter forallb]; destruct (N.eqb c LF); [discriminate|].
  exact IH.
Qed.

Lemma newlineBytes_app (a b : list byte) :
  newlineBytes (a ++ b) = newlineBytes a + newlineBytes b.
Proof. unfold newlineBytes; rewrite filter_app, length_app; reflexivity. Qed.

(** The first newline byte of a run of bytes that has one. *)
Lemma first_newline_byte (bytes : list byte) :
  1 <= newlineBytes bytes ->
  exists before after,
    bytes = before ++ x0a :: after /\ newlineBytes before = 0.
Proof.
  unfold newlineBytes; induction bytes as [|b bytes IH]; cbn [filter];
    [simpl; lia|].
  destruct (N.eqb_spec (Byte.to_N b) LF) as [E|E]; intros H.
  - exists [], bytes; split; [|reflexivity].
    assert (Hb : Byte.of_N (Byte.to_N b) = Byte.of_N LF) by (rewrite E; auto).
    rewrite Byte.of_to_N in Hb; injection Hb as ->; reflexivity.
  - destruct (IH H) as (before & after & -> & H0).
    exists (b :: before), after; split; [reflexivity|].
    cbn [filter]; apply N.eqb_neq in E; rewrite E; exact H0.
Qed.

(** After its first newline, a run of bytes is decoded in the same way
    whatever comes before the run: the fragments after the first one are
    fragments of the larger text too. *)
Lemma fragments_after_first_newline (before bytes : list byte) :
  tl (split (utf8 bytes)) <> [] ->
  exists q, q <> []
    /\ split (utf8 (before ++ bytes)) = q ++ tl (split (utf8 bytes)).
Proof.
  intros Hsome.
  assert (Hcount : 1 <= newlineBytes bytes).
  { rewrite <- utf8_newlines.
    pose proof (split_length (utf8 bytes)) as Hlen.
    destruct (split (utf8 bytes)) as [|h [|h' t]]; simpl in *;
      [lia | congruence | lia]. }
  destruct (first_newline_byte _ Hcount) as (b1 & b2 & -> & Hnone).
  destruct (@utf8Decode_ascii_then utf8Start x0a b1 b2)
    as (d1 & E1 & E2);
    [unfold continuing; simpl; lia | vm_compute; discriminate|].
  destruct (@utf8Decode_ascii_then utf8Start x0a (before ++ b1) b2)
    as (d2 & _ & E3);
    [unfold continuing; simpl; lia | vm_compute; discriminate|].
  change (Byte.to_N x0a) with LF in *.
  fold (utf8 (b1 ++ [x0a])) in E1; fold (utf8 (b1 ++ x0a :: b2)) in E2.
  fold (utf8 ((before ++ b1) ++ x0a :: b2)) in E3.
  rewrite <- app_assoc in E3.
  assert (Hd1 : split d1 = [d1]).
  { apply split_whole, newlines_none.
    pose proof (utf8_newlines (b1 ++ [x0a])) as Hn.
    rewrite E1, newlines_app, newlineBytes_app, Hnone in Hn.
    change (newlines [LF]) with 1 in Hn.
    change (newlineBytes [x0a]) with 1 in Hn; lia. }
  exists (split d2); split; [apply split_nonempty|].
  rewrite E3, E2, !split_at_newline, Hd1; reflexivity.
Qed.

(** ** The loop of [readChunk] *)

Lemma chunkBefore_rest (data : list byte) (e : nat) :
  chunkBefore data e ++ skipn e data
  = skipn (e - Nat.min e bufferSize) data.
Proof.
  unfold chunkBefore.
  rewrite <- (firstn_skipn (Nat.min e bufferSize)
                (skipn (e - Nat.min e bufferSize) data)) at 2.
  rewrite skipn_skipn; do 2 f_equal; lia.
Qed.

(** The invariant of the loop is that [leftover :: lines] is the split of
    the part of the file from [position] on.  As long as the decoding
    joins at the edges the loop reads across, it resolves with the last
    [n] of the fragments of the whole file. *)
Lemma readChunk_joins fuel : forall fd n buffer position leftover lines w p f,
  lookupFd fd w = Some p -> files w p = Some f ->
  position <= length (content f) -> position < fuel -> 1 <= n ->
  split (utf8 (skipn position (content f))) = leftover :: lines ->
  length lines < n ->
  (forall k,
      0 < position - k * bufferSize ->
      newlineBytes (skipn (position - k * bufferSize) (content f)) < n ->
      joinsAt (content f) (position - k * bufferSize)) ->
  readChunk fuel fd n buffer position leftover lines w
  = (Resolved (lastN n (tailFragments (utf8 (content f)))),
     snd (fs_close fd w)).
Proof.
  induction fuel as [|fuel IH];
    intros fd n buffer position leftover lines w p f Hfd Hf Hpos Hfuel Hn
           Hinv Hlines Hedges; [lia|].
  rewrite readChunk_round; cbv zeta.
  pose proof bufferSize_pos as HB.
  destruct (Nat.leb_spec (Nat.min position bufferSize) 0) as [Hz|Hz].
  - assert (position = 0) by lia; subst position.
    rewrite sliceFromEnd_pos by exact Hn.
    cbn [skipn] in Hinv; unfold tailFragments; rewrite Hinv.
    destruct leftover; reflexivity.
  - set (bytesToRead := Nat.min position bufferSize) in *.
    set (start := position - bytesToRead).
    destruct (@fs_read_inside fd buffer bytesToRead start w p f Hfd Hf)
      as (buffer' & -> & Hchunk); [unfold start; lia|].
    unfold Buffer_toString; rewrite Hchunk.
    change (firstn bytesToRead (skipn start (content f)))
      with (chunkBefore (content f) position).
    assert (Hjoin : joinsAt (content f) position).
    { specialize (Hedges 0); rewrite Nat.sub_0_r in Hedges.
      apply Hedges; [lia|].
      rewrite <- utf8_newlines.
      pose proof (split_length (utf8 (skipn position (content f)))) as Hlen.
      rewrite Hinv in Hlen; simpl in Hlen; lia. }
    assert (Hsplit : split (utf8 (skipn start (content f)))
                     = split (utf8 (chunkBefore (content f) position)
                              ++ leftover) ++ lines).
    { unfold start, bytesToRead; rewrite <- chunkBefore_rest, Hjoin.
      apply split_app_head; exact Hinv. }
    destruct (split (utf8 (chunkBefore (content f) position) ++ leftover))
      as [|first chunkLines] eqn:Echunk;
      [exfalso; exact (split_nonempty _ Echunk)|].
    cbn [hd tl app] in *.
    destruct (Nat.leb_spec n (length (chunkLines ++ lines))) as [Hle|Hlt].
    + rewrite sliceFromEnd_pos by exact Hn.
      assert (Hsome : tl (split (utf8 (skipn start (content f)))) <> [])
        by (rewrite Hsplit; cbn [tl]; destruct (chunkLines ++ lines);
            [simpl in Hle; lia | discriminate]).
      destruct (@fragments_after_first_newline
                  (firstn start (content f)) _ Hsome) as (q & Hq & Hwhole).
      rewrite firstn_skipn, Hsplit in Hwhole; cbn [tl] in Hwhole.
      destruct (@tailFragments_suffix _ q (chunkLines ++ lines) Hq Hwhole)
        as [q' ->].
      rewrite (@lastN_app _ n q' (chunkLines ++ lines) Hle); reflexivity.
    + replace (position - bytesToRead) with start by reflexivity.
      apply (IH fd n buffer' start first (chunkLines ++ lines) w p f);
        auto; try (unfold start; lia).
      intros k Hk Hnl.
      assert (Hsame : start - k * bufferSize
                      = position - S k * bufferSize)
        by (unfold start, bytesToRead in *; unfold bufferSize in *; lia).
      rewrite Hsame in *; apply Hedges; assumption.
Qed.

(** ** Files on which the decoding joins *)

Lemma utf8_app_ascii (a b : list byte) :
  isAscii a = true -> isAscii b = true -> utf8 (a ++ b) = utf8 a ++ utf8 b.
Proof.
  intros Ha Hb.
  assert (Hab : isAscii (a ++ b) = true)
    by (unfold isAscii in *; rewrite forallb_app, Ha, Hb; reflexivity).
  rewrite (utf8_ascii _ Hab), (utf8_ascii _ Ha), (utf8_ascii _ Hb).
  apply map_app.
Qed.

(** ASCII text joins at every edge. *)
Lemma isAscii_cleanEdges (data : list byte) (n : nat) :
  isAscii data = true -> cleanEdges data n.
Proof.
  intros Hascii k _ _; unfold joinsAt, chunkBefore.
  apply utf8_app_ascii;
    [apply isAscii_firstn, isAscii_skipn | apply isAscii_skipn];
    exact Hascii.
Qed.

(** A file of one chunk has no edge inside it. *)
Lemma one_chunk_cleanEdges (data : list byte) (n : nat) :
  length data <= bufferSize -> cleanEdges data n.
Proof.
  intros Hsize [|k] Hpos _; [|exfalso; unfold bufferSize in *; lia].
  unfold joinsAt; cbn [Nat.mul]; rewrite Nat.sub_0_r, skipn_all, app_nil_r.
  symmetry; apply app_nil_r.
Qed.

(** C1 (amended).  For every readable file and every count [n >= 1] such
    that no multi-byte character lies across a chunk edge the reader
    reads across (the decoding joins at every position
    [size - k * bufferSize] inside the file that has fewer than [n]
    newline bytes after it), [getLastNLines] resolves with the last
    [min(n, k)] of the [k] fragments that a split of the whole decoded
    file on the newline gives once an empty first fragment is left out, in
    file order and unfiltered otherwise, and it leaves no descriptor open.
    The bytes need not be ASCII nor valid UTF-8, and the answer does not
    depend on where the chunk edges fall among the lines. *)
Theorem getLastNLines_tail_fragments filePath n w f :
  files w filePath = Some f -> readable f = true -> 1 <= n ->
  cleanEdges (content f) n ->
  getLastNLines filePath n w
  = (Resolved (lastN n (tailFragments (utf8 (content f)))), w)
  /\ length (lastN n (tailFragments (utf8 (content f))))
     = Nat.min n (length (tailFragments (utf8 (content f)))).
Proof.
  intros Hf Hr Hn Hclean; split; [|apply lastN_length].
  unfold getLastNLines, bind, fs_open; rewrite Hf, Hr.
  fold (opened filePath w).
  unfold fs_fstat; rewrite lookupFd_opened.
  change (files (opened filePath w) filePath) with (files w filePath).
  rewrite Hf.
  rewrite (@readChunk_joins (S (length (content f))) (freshFd w) n
             (Buffer_alloc bufferSize) (length (content f)) [] []
             (opened filePath w) filePath f);
    auto using lookupFd_opened.
  - rewrite close_opened; reflexivity.
  - rewrite skipn_all; reflexivity.
Qed.

Lemma getLastNLines_tail_fragments_witness :
  1 <= 2 /\ cleanEdges accentedLines 2
  /\ length accentedLines = 1203
  /\ getLastNLines LOG_FILE_PATH 2 (worldWith (fileWith accentedLines))
     = (Resolved [120%N :: repeat 233%N 600; lit "b"],
        worldWith (fileWith accentedLines)).
Proof.
  assert (Hn : 1 <= 2) by lia.
  assert (Hlen : length accentedLines = 1203) by (vm_compute; reflexivity).
  assert (Hclean : cleanEdges accentedLines 2).
  { intros k Hpos _; rewrite Hlen in *; unfold bufferSize in *.
    destruct k as [|[|k]]; [| |exfalso; lia];
      unfold joinsAt; vm_compute; reflexivity. }
  split; [exact Hn|]; split; [exact Hclean|]; split; [exact Hlen|].
  destruct (@getLastNLines_tail_fragments LOG_FILE_PATH 2
              (worldWith (fileWith accentedLines))
              (mkFile accentedLines true) eq_refl eq_refl Hn Hclean)
    as [H _].
  rewrite H; vm_compute; reflexivity.
Defined.

(* ================================================================== *)
(** * The server, one callback at a time: what can come in between *)
(* ================================================================== *)

Lemma runLoop_app (a b : list (nat * Event)) : forall l,
  runLoop (a ++ b) l = runLoop b (runLoop a l).
Proof.
  induction a as [|[t e] a IH]; intros l; [reflexivity|].
  cbn [app runLoop]; apply IH.
Qed.

(** ** Two checks in flight *)

(** C4.  The offset is lowered by the program itself when two debounce
    callbacks are in flight at once.  The file only grows, from two bytes
    to six; the callback that saw two bytes waits for its read while the
    callback that saw six sets [lastFileSize] to [6]; when the read of the
    first completes it assigns its own [stats.size], and [lastFileSize]
    is [2]. *)
Theorem overlapping_checks_lower_lastFileSize :
  lastFileSize (server (runLoop overlappingChecks (idle (started [])))) = 6
  /\ lastFileSize
       (server (runLoop (overlappingChecks ++ lateRead) (idle (started []))))
     = 2
  /\ fs_promises_stat LOG_FILE_PATH
       (world (server (runLoop (overlappingChecks ++ lateRead)
                         (idle (started [])))))
     = inr 6.
Proof. vm_compute; repeat split; reflexivity. Qed.

(** ** A file that shrinks under a catch-up read *)

Lemma emptied_state :
  runLoop emptiedUnderCatchUp (idle (started (textFile ["hello"; ""]%string)))
  = waitingForRead 13.
Proof. vm_compute; reflexivity. Qed.

(** A read of no byte leaves the task where it was: [position] is not
    lowered, nothing is gathered, and [readChunk] is called again. *)
Lemma empty_read_repeats (t clock : nat) :
  step (Completes 0) (fire t (waitingForRead clock))
  = waitingForRead (Nat.max clock t).
Proof. reflexivity. Qed.

Lemma empty_reads_repeat (times : list nat) : forall clock,
  exists clock',
    runLoop (completions 0 times) (waitingForRead clock)
    = waitingForRead clock'.
Proof.
  induction times as [|t times IH]; intros clock; [exists clock; reflexivity|].
  cbn [completions map runLoop]; fold (completions 0 times).
  rewrite empty_read_repeats; apply IH.
Qed.

(** C7.  The catch-up read never settles when the file is emptied
    between its [fstat] and its first [read]: however often the read
    completes, the socket has been sent nothing, neither lines nor an
    error, the task still waits for a read, and the descriptor is still
    open. *)
Theorem catch_up_never_settles_on_emptied_file (times : list nat) :
  sentTo 0
    (trace (server (runLoop (emptiedUnderCatchUp ++ completions 0 times)
                      (idle (started (textFile ["hello"; ""]%string))))))
  = []
  /\ taskOf 0 (runLoop (emptiedUnderCatchUp ++ completions 0 times)
                 (idle (started (textFile ["hello"; ""]%string))))
     = Some (AwaitRead 0 1 (Buffer_alloc bufferSize) 6 [] [])
  /\ openFds
       (world (server (runLoop (emptiedUnderCatchUp ++ completions 0 times)
                         (idle (started (textFile ["hello"; ""]%string))))))
     = [(1, LOG_FILE_PATH)].
Proof.
  rewrite runLoop_app, emptied_state.
  destruct (empty_reads_repeat times 13) as [clock' ->].
  repeat split.
Qed.

(** ** The start of the program *)

(** C8.  A file that is absent when the program starts ends the program
    at [fs.watch], before the initial [stat] is called: [main] gives no
    server.  The handler of the [stat] would have set [lastFileSize] to
    [0] for that case, but it never runs. *)
Theorem absent_file_ends_the_program w :
  files w LOG_FILE_PATH = None ->
  main w = None /\ lastFileSize (onInitialStat (start w)) = 0.
Proof.
  intros Hf; unfold main, onInitialStat, fs_promises_stat; cbn [world start].
  rewrite Hf; split; reflexivity.
Qed.

Lemma absent_file_ends_the_program_witness :
  files (worldWith None) LOG_FILE_PATH = None
  /\ main (worldWith None) = None.
Proof.
  split; [reflexivity|].
  exact (proj1 (@absent_file_ends_the_program (worldWith None) eq_refl)).
Defined.

(** ** A socket that has been closed *)

Lemma taskOf_In k l task :
  taskOf k l = Some task -> exists k', In (k', task) (tasks l).
Proof.
  unfold taskOf; destruct (find _ (tasks l)) as [[k' task']|] eqn:E;
    [|discriminate].
  intros [= <-]; exists k'; exact (proj1 (find_some _ _ E)).
Qed.

Lemma drop_noCatchUp ws k s l :
  noCatchUp ws l -> noCatchUp ws (drop k (set_server s l)).
Proof.
  unfold noCatchUp; cbn [drop set_server tasks]; intros H.
  apply Forall_forall; intros e He; apply filter_In in He.
  rewrite Forall_forall in H; apply H; tauto.
Qed.

Lemma wait_noCatchUp ws k task s l :
  socketOf task <> Some ws ->
  noCatchUp ws l -> noCatchUp ws (wait k task (set_server s l)).
Proof.
  unfold noCatchUp; cbn [wait set_server tasks]; intros Ht H.
  apply Forall_forall; intros e He; apply in_map_iff in He.
  destruct He as (e0 & <- & He0).
  rewrite Forall_forall in H; specialize (H e0 He0).
  destruct (fst e0 =? k); [exact Ht | exact H].
Qed.

Lemma settled_other ws ws' r s :
  ws' <> ws ->
  sentTo ws (trace (settled ws' r s)) = sentTo ws (trace s)
  /\ clients (settled ws' r s) = clients s
  /\ nextWs (settled ws' r s) = nextWs s.
Proof.
  intros Hne; apply Nat.eqb_neq in Hne.
  destruct r; cbn [settled ws_send record trace clients nextWs];
    rewrite sentTo_app; cbn [sentTo]; rewrite Hne, app_nil_r; auto.
Qed.

Lemma callReadChunk_doneWith ws k ws' fd buffer position leftover lines s l :
  ws' <> ws -> gone ws s -> noCatchUp ws l ->
  sentTo ws (trace (server (callReadChunk k ws' fd buffer position leftover
                              lines (set_server s l))))
  = sentTo ws (trace s)
  /\ doneWith ws (callReadChunk k ws' fd buffer position leftover lines
                    (set_server s l)).
Proof.
  intros Hne Hgone Hno; unfold callReadChunk.
  destruct (Nat.min position bufferSize <=? 0).
  - destruct (@settled_other ws ws'
                (inr (sliceFromEnd 10
                        (if truthy leftover then leftover :: lines
                         else lines)))
                (closing fd s) Hne) as (E1 & E2 & E3).
    split; [exact E1|]; split.
    + unfold gone; cbn [drop set_server server]; rewrite E2, E3; exact Hgone.
    + apply drop_noCatchUp, Hno.
  - cbn [wait set_server server]; split; [reflexivity|]; split;
      [exact Hgone|].
    apply wait_noCatchUp; [|exact Hno].
    cbn [socketOf]; intros [= E]; exact (Hne E).
Qed.

Lemma complete_doneWith ws k l :
  doneWith ws l ->
  sentTo ws (trace (server (complete k l))) = sentTo ws (trace (server l))
  /\ doneWith ws (complete k l).
Proof.
  intros [Hgone Hno]; unfold complete.
  destruct (taskOf k l) as [task|] eqn:Etask; [|split; [auto | split; auto]].
  destruct (taskOf_In _ _ Etask) as [k' Hin].
  assert (Hsock : socketOf task <> Some ws).
  { unfold noCatchUp in Hno; rewrite Forall_forall in Hno.
    exact (Hno _ Hin). }
  assert (Hl : set_server (server l) l = l) by (destruct l; reflexivity).
  destruct task as [|size fromPosition|ws'|ws' fd
                    |ws' fd buffer position leftover lines];
    cbn [socketOf] in Hsock.
  - (* the [stat] of a debounce callback *)
    destruct (fs_promises_stat LOG_FILE_PATH (world (server l)))
      as [err|size].
    + split; [reflexivity|]; split; [exact Hgone|].
      rewrite <- Hl; apply drop_noCatchUp, Hno.
    + destruct (lastFileSize (server l) <? size).
      * cbn [wait set_server server record trace].
        rewrite sentTo_app, app_nil_r; split; [reflexivity|]; split;
          [exact Hgone|].
        apply wait_noCatchUp; [discriminate | exact Hno].
      * split; [reflexivity|]; split; [exact Hgone|].
        rewrite <- Hl; apply drop_noCatchUp, Hno.
  - (* the read of a debounce callback *)
    destruct (getNewLines LOG_FILE_PATH fromPosition (world (server l)))
      as [[newLines|err|] w].
    + rewrite broadcast_deliveries.
      cbn [drop set_server server recordAll trace set_lastFileSize
           set_world clients].
      destruct Hgone as [Habsent Hlt].
      destruct (@sentTo_deliveries_absent ws newLines (clients (server l))
                  Habsent) as [E _].
      rewrite sentTo_app, E, app_nil_r; split; [reflexivity|]; split;
        [split; assumption|].
      apply drop_noCatchUp, Hno.
    + split; [reflexivity|]; split; [exact Hgone|].
      apply drop_noCatchUp, Hno.
    + split; [reflexivity|]; split; [exact Hgone|].
      apply drop_noCatchUp, Hno.
  - (* [fs.open] *)
    assert (Hne : ws' <> ws) by congruence.
    destruct (fs_open LOG_FILE_PATH (world (server l))) as [[err|fd] w].
    + destruct (@settled_other ws ws' (inl err) (set_world w (server l))
                  Hne) as (E1 & E2 & E3).
      split; [exact E1|]; split.
      * unfold gone; cbn [drop set_server server]; rewrite E2, E3; exact Hgone.
      * apply drop_noCatchUp, Hno.
    + cbn [wait set_server server]; split; [reflexivity|]; split;
        [exact Hgone|].
      apply wait_noCatchUp; [|exact Hno].
      cbn [socketOf]; congruence.
  - (* [fs.fstat] *)
    assert (Hne : ws' <> ws) by congruence.
    destruct (fs_fstat fd (world (server l))) as [[err|fileSize] w].
    + destruct (@settled_other ws ws' (inl err)
                  (closing fd (set_world w (server l))) Hne)
        as (E1 & E2 & E3).
      split; [exact E1|]; split.
      * unfold gone; cbn [drop set_server server]; rewrite E2, E3; exact Hgone.
      * apply drop_noCatchUp, Hno.
    + apply (@callReadChunk_doneWith ws k ws' fd (Buffer_alloc bufferSize)
               fileSize [] [] (set_world w (server l)) l Hne Hgone Hno).
  - (* [fs.read] *)
    assert (Hne : ws' <> ws) by congruence.
    cbv zeta.
    destruct (fs_read fd buffer (Nat.min position bufferSize)
                (position - Nat.min position bufferSize) (world (server l)))
      as [[err|[bytesRead buffer']] w].
    + destruct (@settled_other ws ws' (inl err)
                  (closing fd (set_world w (server l))) Hne)
        as (E1 & E2 & E3).
      split; [exact E1|]; split.
      * unfold gone; cbn [drop set_server server]; rewrite E2, E3; exact Hgone.
      * apply drop_noCatchUp, Hno.
    + destruct (shift (split (Buffer_toString buffer' bytesRead ++ leftover)))
        as [first chunkLines].
      destruct (10 <=? length (chunkLines ++ lines)).
      * destruct (@settled_other ws ws'
                    (inr (sliceFromEnd 10 (chunkLines ++ lines)))
                    (closing fd (set_world w (server l))) Hne)
          as (E1 & E2 & E3).
        split; [exact E1|]; split.
        -- unfold gone; cbn [drop set_server server]; rewrite E2, E3;
           exact Hgone.
        -- apply drop_noCatchUp, Hno.
      * apply (@callReadChunk_doneWith ws k ws' fd buffer'
                 (position - bytesRead)
                 match first with Some l0 => l0 | None => [] end
                 (chunkLines ++ lines) (set_world w (server l)) l
                 Hne Hgone Hno).
Qed.

Lemma fire_doneWith ws t l :
  doneWith ws l ->
  sentTo ws (trace (server (fire t l))) = sentTo ws (trace (server l))
  /\ doneWith ws (fire t l).
Proof.
  unfold fire; intros H.
  set (l0 := set_server _ l).
  assert (H0 : sentTo ws (trace (server l0)) = sentTo ws (trace (server l))
               /\ doneWith ws l0)
    by (split; [reflexivity | exact H]).
  clearbody l0; revert l0 H0.
  induction (filter (isDue t) (timers (server l))) as [|d due IH];
    intros l0 [E0 [G0 N0]]; cbn [fold_left]; [split; [exact E0 | split; auto]|].
  apply IH; split; [|split].
  - cbn [suspend set_server server record trace].
    rewrite sentTo_app, app_nil_r; exact E0.
  - exact G0.
  - unfold noCatchUp in *; cbn [suspend set_server tasks].
    apply Forall_app; split; [exact N0|].
    apply Forall_cons; [discriminate | apply Forall_nil].
Qed.

Lemma arrive_doneWith ws i l :
  doneWith ws l ->
  sentTo ws (trace (server (arrive i l))) = sentTo ws (trace (server l))
  /\ doneWith ws (arrive i l).
Proof.
  intros [Hgone Hno].
  assert (Hother : forall i',
             arrive i' l = set_server (handle i' (server l)) l ->
            sentTo ws (trace (server (arrive i' l)))
            = sentTo ws (trace (server l))
            /\ doneWith ws (arrive i' l)).
  { intros i' ->; destruct (handle_gone i' Hgone) as [E G].
    cbn [set_server server]; split; [exact E | split; [exact G | exact Hno]]. }
  destruct i as [|ws'|ws'|eventType|file|]; try (apply Hother; reflexivity).
  destruct Hgone as [Habsent Hlt].
  unfold doneWith, gone.
  cbn [arrive suspend set_server server tasks trace set_nextWs set_clients
       clients nextWs].
  split; [reflexivity|]; split; [split|].
  - rewrite map_app, in_app_iff; cbn [map fst In].
    intros [Hin|[Heq|[]]]; [exact (Habsent Hin) | lia].
  - cbn [nextWs set_nextWs]; lia.
  - unfold noCatchUp in *; cbn [tasks].
    apply Forall_app; split; [exact Hno|].
    apply Forall_cons; [|apply Forall_nil].
    cbn [snd socketOf]; intros [= E]; lia.
Qed.

Lemma runLoop_doneWith ws events : forall l,
  doneWith ws l ->
  sentTo ws (trace (server (runLoop events l)))
  = sentTo ws (trace (server l))
  /\ doneWith ws (runLoop events l).
Proof.
  induction events as [|[t e] events IH]; intros l H; [split; auto|].
  cbn [runLoop].
  destruct (fire_doneWith t H) as [F1 F2].
  assert (Hstep : sentTo ws (trace (server (step e (fire t l))))
                  = sentTo ws (trace (server (fire t l)))
                  /\ doneWith ws (step e (fire t l)))
    by (destruct e as [i|k];
        [apply arrive_doneWith | apply complete_doneWith]; exact F2).
  destruct Hstep as [S1 S2].
  destruct (IH _ S2) as [I1 I2].
  split; [congruence | exact I2].
Qed.

(** X8.  Once a socket has been closed and no catch-up read of its own
    is in flight, it is sent nothing more, whatever happens afterwards and
    however the callbacks are interleaved: the library has taken it out
    of [wss.clients], the broadcast loop only visits that set, and a
    catch-up only goes to the socket it was started for. *)
Theorem closed_socket_gets_nothing_more l ws events t :
  ws < nextWs (server l) -> noCatchUp ws l ->
  sentTo ws
    (trace (server (fire t (runLoop events (arrive (Close ws) l)))))
  = sentTo ws (trace (server l)).
Proof.
  intros Hlt Hno.
  assert (Hdone : doneWith ws (arrive (Close ws) l)).
  { split; [split; [|exact Hlt] | exact Hno].
    cbn [arrive set_server server handle]; unfold onClose; simpl; intros Hin.
    apply in_map_iff in Hin; destruct Hin as (c & Hc & Hin).
    apply filter_In in Hin; destruct Hin as [_ Hin].
    rewrite Hc, Nat.eqb_refl in Hin; discriminate. }
  destruct (runLoop_doneWith events Hdone) as [R1 R2].
  destruct (fire_doneWith t R2) as [F1 _].
  rewrite F1, R1; reflexivity.
Qed.

Lemma closed_socket_gets_nothing_more_witness :
  0 < nextWs (server (idle threeSockets))
  /\ noCatchUp 0 (idle threeSockets)
  /\ sentTo 0 (trace (server (fire 1000
                                (runLoop appendUnderThree
                                   (arrive (Close 0) (idle threeSockets))))))
     = [linesMessage [lit "hello"; lit ""]]
  /\ sentTo 2 (trace (server (fire 1000
                                (runLoop appendUnderThree
                                   (arrive (Close 0) (idle threeSockets))))))
     = [linesMessage [lit "hello"; lit ""]; linesMessage [lit "more"]].
Proof.
  assert (H : 0 < nextWs (server (idle threeSockets))) by (vm_compute; lia).
  assert (Hno : noCatchUp 0 (idle threeSockets)) by apply Forall_nil.
  split; [exact H|]; split; [exact Hno|]; split; [|reflexivity].
  exact (@closed_socket_gets_nothing_more (idle threeSockets) 0
           appendUnderThree 1000 H Hno).
Defined.

(** A socket that is closed while its catch-up read is in flight still
    has [ws.send] called on it when the read is done: the [then] of the
    connection listener does not look at [readyState]. *)
Example catch_up_is_sent_after_close :
  trace (server (runLoop closedDuringCatchUp
                   (idle (started (textFile ["hello"; ""]%string)))))
  = [Send 0 (linesMessage [lit "hello"; lit ""])]
  /\ clients (server (runLoop closedDuringCatchUp
                        (idle (started (textFile ["hello"; ""]%string)))))
     = [].
Proof. vm_compute; split; reflexivity. Qed.

(** ** Notifications on a file that has been read to its end *)

Lemma fire_settledDown t l :
  settledDown l ->
  sends (trace (server (fire t l))) = sends (trace (server l))
  /\ lastFileSize (server (fire t l)) = lastFileSize (server l)
  /\ settledDown (fire t l).
Proof.
  unfold fire; intros H.
  set (l0 := set_server _ l).
  assert (H0 : sends (trace (server l0)) = sends (trace (server l))
               /\ lastFileSize (server l0) = lastFileSize (server l)
               /\ settledDown l0)
    by (split; [reflexivity | split; [reflexivity | exact H]]).
  clearbody l0; revert l0 H0.
  induction (filter (isDue t) (timers (server l))) as [|d due IH];
    intros l0 (E0 & L0 & S0 & T0); cbn [fold_left];
    [split; [exact E0 | split; [exact L0 | split; assumption]]|].
  apply IH; split; [|split; [exact L0|split; [exact S0|]]].
  - cbn [suspend set_server server record trace].
    rewrite sends_app, app_nil_r; exact E0.
  - cbn [suspend set_server tasks].
    apply Forall_app; split; [exact T0|].
    apply Forall_cons; [reflexivity | apply Forall_nil].
Qed.

Lemma step_settledDown e l :
  quietEvent e = true -> settledDown l ->
  sends (trace (server (step e l))) = sends (trace (server l))
  /\ lastFileSize (server (step e l)) = lastFileSize (server l)
  /\ settledDown (step e l).
Proof.
  intros He [Hsize Htasks].
  destruct e as [[| | |eventType|file|]|k]; try discriminate; cbn [step].
  - (* a notification *)
    cbn [arrive handle set_server server].
    destruct (onWatch_fields eventType (server l)) as (W1 & W2 & W3 & _).
    unfold settledDown; cbn [set_server server tasks].
    rewrite W1, W2, W3; auto.
  - (* an operation completes: it can only be a [stat] *)
    unfold complete.
    destruct (taskOf k l) as [task|] eqn:Etask;
      [|split; [reflexivity | split; [reflexivity | split; assumption]]].
    destruct (taskOf_In _ _ Etask) as [k' Hin].
    assert (Htask : task = AwaitStat)
      by (rewrite Forall_forall in Htasks; exact (Htasks _ Hin)).
    subst task.
    assert (Hdrop : sends (trace (server (drop k l)))
                    = sends (trace (server l))
                    /\ lastFileSize (server (drop k l))
                       = lastFileSize (server l)
                    /\ settledDown (drop k l)).
    { split; [reflexivity|]; split; [reflexivity|]; split; [exact Hsize|].
      cbn [drop tasks]; apply Forall_forall; intros e He'.
      apply filter_In in He'; rewrite Forall_forall in Htasks.
      apply Htasks; tauto. }
    unfold fs_promises_stat.
    pose proof Hsize as Hle; unfold sizeAtMost in Hle.
    destruct (files (world (server l)) LOG_FILE_PATH) as [f|];
      [|exact Hdrop].
    apply Nat.leb_le in Hle.
    destruct (Nat.ltb_spec (lastFileSize (server l)) (length (content f)));
      [lia | exact Hdrop].
Qed.

Lemma runLoop_settledDown events : forall l,
  forallb (fun e => quietEvent (snd e)) events = true -> settledDown l ->
  sends (trace (server (runLoop events l))) = sends (trace (server l))
  /\ lastFileSize (server (runLoop events l)) = lastFileSize (server l)
  /\ settledDown (runLoop events l).
Proof.
  induction events as [|[t e] events IH]; intros l Hev H;
    [split; [reflexivity | split; [reflexivity | exact H]]|].
  cbn [forallb snd] in Hev; apply andb_true_iff in Hev.
  destruct Hev as [He Hev]; cbn [runLoop].
  destruct (fire_settledDown t H) as (F1 & F2 & F3).
  destruct (step_settledDown e He F3) as (S1 & S2 & S3).
  destruct (IH _ Hev S3) as (I1 & I2 & I3).
  split; [congruence | split; [congruence | exact I3]].
Qed.

(** X6.  Once the recorded offset has reached the end of the file (or
    the file is absent) and no read is in flight, notifications alone lead
    to no message and leave [lastFileSize] where it is, however many they
    are and however the callbacks they start overlap, as long as nobody
    writes to the file. *)
Theorem read_file_is_not_sent_again l events t :
  settledDown l ->
  forallb (fun e => quietEvent (snd e)) events = true ->
  sends (trace (server (fire t (runLoop events l))))
  = sends (trace (server l))
  /\ lastFileSize (server (fire t (runLoop events l)))
     = lastFileSize (server l).
Proof.
  intros H Hev.
  destruct (@runLoop_settledDown events l Hev H) as (R1 & R2 & R3).
  destruct (fire_settledDown t R3) as (F1 & F2 & _).
  split; congruence.
Qed.

Lemma read_file_is_not_sent_again_witness :
  settledDown (idle threeSockets)
  /\ forallb (fun e => quietEvent (snd e)) overlappingNotifications = true
  /\ sends (trace (server (fire 1000
                             (runLoop overlappingNotifications
                                (idle threeSockets)))))
     = sends (trace threeSockets)
  /\ cycles (server (fire 1000
                       (runLoop overlappingNotifications
                          (idle threeSockets))))
     = 3.
Proof.
  assert (H : settledDown (idle threeSockets))
    by (split; [reflexivity | apply Forall_nil]).
  split; [exact H|]; split; [reflexivity|]; split; [|reflexivity].
  exact (proj1 (@read_file_is_not_sent_again (idle threeSockets)
                  overlappingNotifications 1000 H eq_refl)).
Defined.

(** ** A debounce callback that nothing interrupts *)

Lemma find_fresh (ts : list (nat * Task)) (k : nat) (task : Task) :
  Forall (fun e => fst e < k) ts ->
  find (fun e => fst e =? k) (ts ++ [(k, task)]) = Some (k, task)
  /\ find (fun e => fst e =? k) ts = None
  /\ filter (fun e => negb (fst e =? k)) (ts ++ [(k, task)]) = ts
  /\ forall task',
       map (fun e => if fst e =? k then (k, task') else e)
           (ts ++ [(k, task)])
       = ts ++ [(k, task')].
Proof.
  induction ts as [|e ts IH]; intros H.
  - cbn [app find filter map fst]; rewrite Nat.eqb_refl; auto.
  - inversion H as [|x xs Hx Hxs]; subst.
    destruct (IH Hxs) as (I1 & I2 & I3 & I4).
    assert (Hne : (fst e =? k) = false) by (apply Nat.eqb_neq; lia).
    cbn [app find filter map]; rewrite Hne, I1, I2, I3; cbn [negb].
    repeat split; intros; rewrite ?I4; reflexivity.
Qed.

(** When both operations of a debounce callback complete with nothing in
    between, the callback does what [debounceCallback] does in one
    step. *)
Lemma check_undisturbed (s : Server) (ts : list (nat * Task)) (k : nat) :
  Forall (fun e => fst e < k) ts ->
  complete k
    (complete k (suspend AwaitStat (mkLoop (record StatCheck s) ts k)))
  = mkLoop (debounceCallback s) ts (S k).
Proof.
  intros Hfresh.
  destruct (find_fresh AwaitStat Hfresh) as (F1 & F2 & F3 & F4).
  assert (Hnone : forall s', complete k (mkLoop s' ts (S k))
                             = mkLoop s' ts (S k))
    by (intros s'; unfold complete, taskOf; cbn [tasks]; rewrite F2;
        reflexivity).
  unfold complete at 2, taskOf, suspend; cbn [tasks server nextTask].
  rewrite F1; cbn [option_map snd].
  unfold debounceCallback; cbv zeta.
  change (world (record StatCheck s)) with (world s).
  change (lastFileSize (record StatCheck s)) with (lastFileSize s).
  destruct (fs_promises_stat LOG_FILE_PATH (world s)) as [err|size].
  { unfold drop; cbn [tasks server nextTask]; rewrite F3; apply Hnone. }
  destruct (lastFileSize s <? size).
  2:{ unfold drop; cbn [tasks server nextTask]; rewrite F3; apply Hnone. }
  unfold wait, set_server; cbn [tasks server nextTask]; rewrite F4.
  destruct (find_fresh (AwaitNewLines size (lastFileSize s)) Hfresh)
    as (G1 & _ & G3 & _).
  unfold complete, taskOf; cbn [tasks server nextTask].
  rewrite G1; cbn [option_map snd].
  change (world (record (ReadFrom (lastFileSize s)) (record StatCheck s)))
    with (world s).
  change (lastFileSize
            (record (ReadFrom (lastFileSize s)) (record StatCheck s)))
    with (lastFileSize s).
  destruct (getNewLines LOG_FILE_PATH (lastFileSize s) (world s))
    as [[newLines|err|] w];
    unfold drop, set_server; cbn [tasks server nextTask]; rewrite G3;
    reflexivity.
Qed.

(** When the operations of a catch-up read complete with nothing in
    between, the read does what [readChunk] does in one step, and the
    promise settles. *)
Lemma reads_undisturbed (fuel : nat) :
  forall ws fd buffer position leftover lines s ts k task,
  Forall (fun e => fst e < k) ts ->
  fst (readChunk fuel fd 10 buffer position leftover lines (world s))
  <> Pending ->
  exists m,
    Nat.iter m (complete k)
      (callReadChunk k ws fd buffer position leftover lines
         (mkLoop s (ts ++ [(k, task)]) (S k)))
    = mkLoop
        (let (r, w) :=
           readChunk fuel fd 10 buffer position leftover lines (world s) in
         match r with
         | Resolved found =>
             ws_send ws (JSON_stringify (LinesPayload found)) (set_world w s)
         | Rejected _ =>
             ws_send ws
               (JSON_stringify (ErrorPayload (lit "Unable to read file")))
               (set_world w s)
         | Pending => set_world w s
         end)
        ts (S k).
Proof.
  induction fuel as [|fuel IH];
    intros ws fd buffer position leftover lines s ts k task Hfresh Hset.
  { exfalso; apply Hset; reflexivity. }
  destruct (find_fresh task Hfresh) as (F1 & F2 & F3 & F4).
  rewrite readChunk_round in Hset |- *; cbv zeta in Hset |- *.
  unfold callReadChunk; cbv zeta.
  destruct (Nat.min position bufferSize <=? 0) eqn:Hend.
  { exists 0; cbn [Nat.iter nat_rect]; unfold drop, set_server;
      cbn [tasks server nextTask]; rewrite F3; reflexivity. }
  unfold wait; cbn [tasks server nextTask]; rewrite F4.
  destruct (find_fresh (AwaitRead ws fd buffer position leftover lines)
              Hfresh) as (G1 & _ & G3 & _).
  assert (Hstep :
    complete k
      (mkLoop s (ts ++ [(k, AwaitRead ws fd buffer position leftover lines)])
         (S k))
    = let bytesToRead := Nat.min position bufferSize in
      match fs_read fd buffer bytesToRead (position - bytesToRead) (world s)
      with
      | (inl err, w') =>
          mkLoop (settled ws (inl err) (closing fd (set_world w' s))) ts (S k)
      | (inr (bytesRead, buffer'), w') =>
          let chunkLines :=
            split (Buffer_toString buffer' bytesRead ++ leftover) in
          let lines' := tl chunkLines ++ lines in
          if 10 <=? length lines' then
            mkLoop (settled ws (inr (sliceFromEnd 10 lines'))
                      (closing fd (set_world w' s))) ts (S k)
          else
            callReadChunk k ws fd buffer' (position - bytesRead)
              (hd [] chunkLines) lines'
              (mkLoop (set_world w' s)
                 (ts ++ [(k, AwaitRead ws fd buffer position leftover lines)])
                 (S k))
      end).
  { unfold complete, taskOf; cbn [tasks server nextTask].
    rewrite G1; cbn [option_map snd]; cbv zeta.
    destruct (fs_read _ _ _ _ (world s)) as [[err|[bytesRead buffer']] w'].
    - unfold drop, set_server; cbn [tasks server nextTask]; rewrite G3;
        reflexivity.
    - destruct (split (Buffer_toString buffer' bytesRead ++ leftover));
        cbn [shift hd tl]; destruct (10 <=? _);
        unfold drop, set_server; cbn [tasks server nextTask];
        rewrite ?G3; reflexivity. }
  cbv zeta in Hstep.
  destruct (fs_read _ _ _ _ (world s)) as [[err|[bytesRead buffer']] w'].
  { exists 1; cbn [Nat.iter nat_rect]; rewrite Hstep; reflexivity. }
  destruct (10 <=? _).
  { exists 1; cbn [Nat.iter nat_rect]; rewrite Hstep; reflexivity. }
  destruct (IH ws fd buffer' (position - bytesRead)
              (hd [] (split (Buffer_toString buffer' bytesRead ++ leftover)))
              (tl (split (Buffer_toString buffer' bytesRead ++ leftover))
                 ++ lines)
              (set_world w' s) ts k
              (AwaitRead ws fd buffer position leftover lines) Hfresh Hset)
    as [m Hm].
  exists (S m); rewrite Nat.iter_succ_r, Hstep, Hm; reflexivity.
Qed.

(** When the operations of the catch-up of a new socket complete with
    nothing in between, the socket is sent what [onConnection] sends it in
    one step. *)
Lemma catch_up_undisturbed (s : Server) (ts : list (nat * Task)) (k : nat) :
  Forall (fun e => fst e < k) ts ->
  exists m,
    Nat.iter m (complete k) (arrive Connection (mkLoop s ts k))
    = mkLoop (onConnection s) ts (S k).
Proof.
  intros Hfresh.
  pose (s1 := set_nextWs (S (nextWs s))
                (set_clients (clients s ++ [(nextWs s, OPEN)]) s)).
  assert (Hset := getLastNLines_settles LOG_FILE_PATH 10 (world s)).
  unfold onConnection; cbv zeta.
  change (world (set_nextWs (S (nextWs s))
                   (set_clients (clients s ++ [(nextWs s, OPEN)]) s)))
    with (world s).
  fold s1.
  unfold arrive, suspend, set_server; cbn [tasks server nextTask]; fold s1.
  destruct (find_fresh (AwaitOpen (nextWs s)) Hfresh) as (F1 & _ & F3 & F4).
  assert (Hopen :
    complete k (mkLoop s1 (ts ++ [(k, AwaitOpen (nextWs s))]) (S k))
    = match fs_open LOG_FILE_PATH (world s) with
      | (inl err, w) =>
          mkLoop (settled (nextWs s) (inl err) (set_world w s1)) ts (S k)
      | (inr fd, w) =>
          mkLoop (set_world w s1) (ts ++ [(k, AwaitFstat (nextWs s) fd)])
            (S k)
      end).
  { unfold complete, taskOf; cbn [tasks server nextTask].
    rewrite F1; cbn [option_map snd].
    change (world s1) with (world s).
    destruct (fs_open LOG_FILE_PATH (world s)) as [[err|fd] w];
      unfold drop, wait, set_server; cbn [tasks server nextTask];
      rewrite ?F3, ?F4; reflexivity. }
  unfold getLastNLines, bind, ret in Hset |- *.
  destruct (fs_open LOG_FILE_PATH (world s)) as [[err|fd] w].
  { exists 1; cbn [Nat.iter nat_rect]; rewrite Hopen; reflexivity. }
  destruct (find_fresh (AwaitFstat (nextWs s) fd) Hfresh)
    as (G1 & _ & G3 & _).
  assert (Hfstat :
    complete k
      (mkLoop (set_world w s1) (ts ++ [(k, AwaitFstat (nextWs s) fd)]) (S k))
    = match fs_fstat fd w with
      | (inl err, w') =>
          mkLoop (settled (nextWs s) (inl err)
                    (closing fd (set_world w' s1))) ts (S k)
      | (inr fileSize, w') =>
          callReadChunk k (nextWs s) fd (Buffer_alloc bufferSize) fileSize
            [] []
            (mkLoop (set_world w' s1)
               (ts ++ [(k, AwaitFstat (nextWs s) fd)]) (S k))
      end).
  { unfold complete, taskOf; cbn [tasks server nextTask].
    rewrite G1; cbn [option_map snd].
    change (world (set_world w s1)) with w.
    destruct (fs_fstat fd w) as [[err|fileSize] w'];
      unfold drop, set_server; cbn [tasks server nextTask];
      rewrite ?G3; reflexivity. }
  destruct (fs_fstat fd w) as [[err|fileSize] w'].
  { exists 2; cbn [Nat.iter nat_rect]; rewrite Hopen, Hfstat; reflexivity. }
  destruct (@reads_undisturbed (S fileSize) (nextWs s) fd
              (Buffer_alloc bufferSize) fileSize [] [] (set_world w' s1)
              ts k (AwaitFstat (nextWs s) fd) Hfresh Hset) as [m Hm].
  exists (S (S m)).
  rewrite !Nat.iter_succ_r, Hopen, Hfstat, Hm.
  change (world (set_world w' s1)) with w'.
  destruct (readChunk (S fileSize) fd 10 (Buffer_alloc bufferSize) fileSize
              [] [] w') as [[found|err|] w2]; reflexivity.
Qed.

Lemma fire_no_timers t l :
  timers (server l) = [] ->
  fire t l
  = set_server (set_now (Nat.max (now (server l)) t)
                  (set_timers [] (server l))) l.
Proof. intros Ht; unfold fire; rewrite Ht; reflexivity. Qed.

Lemma fire_one_due t l h due :
  timers (server l) = [(h, due)] -> due <= t ->
  fire t l
  = suspend AwaitStat
      (set_server
         (record StatCheck
            (set_now (Nat.max (now (server l)) t)
               (set_timers [] (server l)))) l).
Proof.
  intros Ht Hdue; unfold fire; rewrite Ht; cbn [filter].
  assert (E : isDue t (h, due) = true) by (apply Nat.leb_le; exact Hdue).
  rewrite E; reflexivity.
Qed.

(** The completion of an operation leaves the timers and the clock as
    they are. *)
Lemma complete_timers k l :
  timers (server (complete k l)) = timers (server l)
  /\ now (server (complete k l)) = now (server l).
Proof.
  unfold complete, callReadChunk, settled, closing.
  repeat match goal with
         | |- context [match ?x with _ => _ end] => destruct x
         end;
    rewrite ?broadcast_deliveries; cbn; auto.
Qed.

(** ** A file that only grows *)

(** One append: the write, its notification, and the debounce callback
    for it, which runs to its end before anything else happens. *)
Lemma append_is_read (l : Loop) (t : nat) (data a : list byte) :
  tasks l = [] -> timers (server l) = [] -> now (server l) <= t ->
  lastFileSize (server l) = length data -> (0 <? length a) = true ->
  exists s',
    runLoop [(t, Arrives (FileChanged (fileWith (data ++ a))));
             (t, Arrives (Watch change));
             (t + 100, Completes (nextTask l));
             (t + 100, Completes (nextTask l))] l
    = mkLoop s' [] (S (nextTask l))
    /\ trace s'
       = trace (server l)
         ++ StatCheck :: ReadFrom (length data)
              :: deliveries (linesOf a) (clients (server l))
    /\ lastFileSize s' = length (data ++ a)
    /\ timers s' = [] /\ now s' = t + 100
    /\ clients s' = clients (server l).
Proof.
  intros Htasks Htimers Hnow Ho Ha.
  destruct l as [s ts k]; cbn [tasks server nextTask] in *; subst ts.
  cbn [runLoop step].
  rewrite (@fire_no_timers t (mkLoop s [] k) Htimers).
  cbn [arrive]; unfold set_server; cbn [server tasks nextTask].
  set (idleAt := set_now (Nat.max (now s) t) (set_timers [] s)).
  set (written := handle (FileChanged (fileWith (data ++ a))) idleAt).
  rewrite (@fire_no_timers t (mkLoop written [] k) eq_refl).
  unfold set_server; cbn [server tasks nextTask].
  destruct (@write_then_notify idleAt t (fileWith (data ++ a)))
    as (h & W1 & W2 & W3 & W4 & W5 & W6 & W7);
    [reflexivity | unfold idleAt; cbn [now set_now set_timers]; lia|].
  fold written in W1, W2, W3, W4, W5, W6, W7.
  assert (Hsame : fireDue t written
                  = set_now (Nat.max (now written) t)
                      (set_timers [] written))
    by (apply fireDue_no_timers; reflexivity).
  rewrite Hsame in W1, W2, W3, W4, W5, W6, W7.
  set (notified := handle (Watch change)
                     (set_now (Nat.max (now written) t)
                        (set_timers [] written))) in *.
  rewrite (@fire_one_due (t + 100) (mkLoop notified [] k) h (t + 100) W1)
    by lia.
  unfold set_server; cbn [server tasks nextTask].
  set (begun := set_now (Nat.max (now notified) (t + 100))
                  (set_timers [] notified)).
  assert (Hread : debounceCallback begun
                  = recordAll
                      (StatCheck :: ReadFrom (length data)
                         :: deliveries (linesOf a) (clients begun))
                      (set_lastFileSize (length (data ++ a)) begun)).
  { apply debounceCallback_reads_append; [exact W4 | exact Ha|].
    unfold begun; cbn [lastFileSize set_now set_timers]; rewrite W5.
    exact Ho. }
  pose proof (@check_undisturbed begun [] k (Forall_nil _)) as Hcheck.
  (* the state between the two completions *)
  unfold complete at 1 in Hcheck.
  remember (complete k
              (suspend AwaitStat (mkLoop (record StatCheck begun) [] k)))
    as half eqn:Ehalf.
  assert (Hhalf : timers (server half) = []
                  /\ now (server half) = t + 100).
  { subst half.
    destruct (complete_timers k
                (suspend AwaitStat (mkLoop (record StatCheck begun) [] k)))
      as [-> ->].
    unfold begun; cbn [suspend server timers now record set_now set_timers].
    rewrite W3; split; [reflexivity | lia]. }
  destruct Hhalf as [Ht' Hn'].
  rewrite (@fire_no_timers (t + 100) half Ht').
  assert (Hidle : set_server
                    (set_now (Nat.max (now (server half)) (t + 100))
                       (set_timers [] (server half))) half
                  = half).
  { rewrite Hn', Nat.max_id, <- Hn', <- Ht'.
    destruct half as [[? ? ? ? ? ? ? ? ?] ? ?]; reflexivity. }
  rewrite Hidle.
  fold (complete k half) in Hcheck; rewrite Hcheck, Hread.
  eexists; split; [reflexivity|].
  cbn [trace recordAll set_lastFileSize lastFileSize timers now clients].
  unfold begun; cbn [trace clients set_now set_timers timers now].
  rewrite W6, W7, W3.
  unfold idleAt; cbn [trace clients set_now set_timers].
  repeat split; lia.
Qed.

(** X11.  A file that only grows is sent on piece by piece, as long as
    the debounce callback for each write has run to its end before the
    next write: the program then makes one size check per append, reads
    each time from where the append before ended, and sends the lines of
    each append to every open socket, in the order of the writes; at the
    end [lastFileSize] is the size of the file and no callback is in
    flight. *)
Theorem appends_are_broadcast_in_order (appends : list (list byte)) :
  forall l gap t data,
  tasks l = [] -> timers (server l) = [] -> now (server l) <= t ->
  100 <= gap -> lastFileSize (server l) = length data ->
  forallb (fun a => 0 <? length a) appends = true ->
  trace (server (runLoop (appendEvents gap t (nextTask l) data appends) l))
  = trace (server l)
    ++ appendTrace (length data) (clients (server l)) appends
  /\ lastFileSize
       (server (runLoop (appendEvents gap t (nextTask l) data appends) l))
     = length (data ++ concat appends)
  /\ tasks (runLoop (appendEvents gap t (nextTask l) data appends) l) = [].
Proof.
  induction appends as [|a rest IH];
    intros l gap t data Htasks Htimers Hnow Hgap Ho Hne.
  - cbn [appendEvents runLoop appendTrace concat]; rewrite !app_nil_r; auto.
  - cbn [forallb] in Hne; apply andb_true_iff in Hne.
    destruct Hne as [Ha Hrest].
    change (appendEvents gap t (nextTask l) data (a :: rest))
      with ([(t, Arrives (FileChanged (fileWith (data ++ a))));
             (t, Arrives (Watch change));
             (t + 100, Completes (nextTask l));
             (t + 100, Completes (nextTask l))]
            ++ appendEvents gap (t + gap) (S (nextTask l)) (data ++ a) rest).
    rewrite runLoop_app.
    destruct (@append_is_read l t data a Htasks Htimers Hnow Ho Ha)
      as (s' & -> & E1 & E2 & E3 & E4 & E5).
    destruct (IH (mkLoop s' [] (S (nextTask l))) gap (t + gap) (data ++ a))
      as (I1 & I2 & I3); auto; [cbn [server]; lia|].
    cbn [server nextTask] in I1, I2, I3.
    rewrite I1, I2, I3, E1, E5.
    cbn [appendTrace concat]; rewrite length_app, <- !app_assoc.
    repeat split.
Qed.

Lemma appends_are_broadcast_in_order_witness :
  tasks (idle threeSockets) = [] /\ timers (server (idle threeSockets)) = []
  /\ now (server (idle threeSockets)) <= 10 /\ 100 <= 150
  /\ lastFileSize (server (idle threeSockets))
     = length (textFile ["hello"; ""]%string)
  /\ forallb (fun a => 0 <? length a) twoAppends = true
  /\ trace (server (runLoop
                      (appendEvents 150 10 0 (textFile ["hello"; ""]%string)
                         twoAppends)
                      (idle threeSockets)))
     = trace threeSockets
       ++ appendTrace (length (textFile ["hello"; ""]%string))
            (clients threeSockets) twoAppends.
Proof.
  assert (Hn : now (server (idle threeSockets)) <= 10) by (vm_compute; lia).
  assert (Hg : 100 <= 150) by lia.
  split; [reflexivity|]. split; [reflexivity|]. split; [exact Hn|].
  split; [exact Hg|]. split; [reflexivity|]. split; [reflexivity|].
  exact (proj1 (@appends_are_broadcast_in_order twoAppends
                  (idle threeSockets) 150 10
                  (textFile ["hello"; ""]%string)
                  eq_refl eq_refl Hn Hg eq_refl eq_refl)).
Defined.

(** When the second write comes while the callback for the first waits
    for its read, the read takes both appends and the next callback sends
    the second one again. *)
Example write_during_the_read_is_sent_twice :
  sentTo 0
    (trace (server (runLoop
              [(10, Arrives (FileChanged
                               (fileWith
                                  (textFile ["hello"; "b"; ""]%string))));
               (10, Arrives (Watch change));
               (110, Completes 0);
               (115, Arrives (FileChanged
                                (fileWith
                                   (textFile
                                      ["hello"; "b"; "c"; ""]%string))));
               (115, Arrives (Watch change));
               (120, Completes 0);
               (215, Completes 1);
               (220, Completes 1)]
              (idle threeSockets))))
  = [linesMessage [lit "hello"; lit ""];
     linesMessage [lit "b"; lit "c"];
     linesMessage [lit "c"]].
Proof. vm_compute; reflexivity. Qed.
